(** * Diamondz DEX: pair, factory and router

    A shallow embedding of the three Solidity contracts of the exchange core
    (DiamondPair with its Math library, DiamondFactory, DiamondRouter) and the
    properties of them that the specification states.

    Conventions of the embedding:
    - a [uint] (uint256, and the narrower uint112 and uint32 fields) is an
      [N]; every checked operation of Solidity 0.8 and of SafeMath is written
      out and panics when its result leaves the 256-bit range;
    - an [address] is the 160-bit number it denotes, [address(0)] being [0];
    - a call that reverts returns [Fail]; no state is returned with it, since
      the transaction is rolled back;
    - the tokens are arbitrary contracts: what they answer (to a transfer, to
      [balanceOf]) is an input of the function that asks, as is the answer
      of the flash-swap callback and of [create2];
    - state-changing calls that leave the three contracts are appended to a
      log in program order, so that "before any transfer" can be stated;
      events are not recorded;
    - the contracts inherited from OpenZeppelin (ERC20, ReentrancyGuard,
      Ownable, SafeMath) are embedded as far as the pair, the factory and the
      router use them. *)

From Stdlib Require Import NArith List String Bool Lia.
From stdpp Require Import base option gmap.
From Equations Require Import Equations.
Import ListNotations.

Local Open Scope string_scope.
Local Open Scope list_scope.
Local Open Scope N_scope.

(** ** Values *)

Definition uint := N.
Definition address := N.

Definition MAX_UINT256 : uint := 2 ^ 256 - 1.
Definition MAX_UINT112 : uint := 2 ^ 112 - 1.

(** ** Failure and the two monads *)

(** A revert carries its reason string; a panic its code (0x01 failed assert,
    0x11 arithmetic overflow or underflow, 0x12 division by zero). *)
Inductive failure : Type :=
| Revert (reason : string)
| Panic (code : N).

Inductive result (A : Type) : Type :=
| Ok (a : A)
| Fail (f : failure).
Arguments Ok {A} a.
Arguments Fail {A} f.

#[export] Instance result_ret : MRet result := fun A a => Ok a.
#[export] Instance result_bind : MBind result := fun A B k r =>
  match r with
  | Ok a => k a
  | Fail f => Fail f
  end.

Definition require (c : bool) (reason : string) : result unit :=
  if c then Ok tt else Fail (Revert reason).

Definition assert (c : bool) : result unit :=
  if c then Ok tt else Fail (Panic 1).

Definition is_ok {A} (r : result A) : bool :=
  match r with Ok _ => true | Fail _ => false end.

(** ** Checked 256-bit arithmetic (Solidity 0.8, SafeMath 4.x) *)

Module SafeMath.

Definition add (a b : uint) : result uint :=
  if a + b <=? MAX_UINT256 then Ok (a + b) else Fail (Panic 17).

Definition sub (a b : uint) : result uint :=
  if b <=? a then Ok (a - b) else Fail (Panic 17).

Definition mul (a b : uint) : result uint :=
  if a * b <=? MAX_UINT256 then Ok (a * b) else Fail (Panic 17).

Definition div (a b : uint) : result uint :=
  if b =? 0 then Fail (Panic 18) else Ok (a / b).

End SafeMath.

(** ** library Math *)

Module Math.

Definition min (x y : uint) : uint := if x <? y then x else y.

(** Well-founded order for the loop below. The accessibility proof is
    guarded so that the loop evaluates on concrete arguments. *)
#[local] Instance N_lt_wf : WellFounded N.lt :=
  Acc_intro_generator 10 N.lt_wf_0.

(** The loop [while (x < z) { z = x; x = (y / x + x) / 2; }], returning
    the final [z]. It recurses on the value of [z], which the loop
    condition makes smaller at each turn. *)
Equations sqrt_loop (y z x : uint) : uint by wf z N.lt :=
  sqrt_loop y z x with decide (x < z) := {
    | left _ => sqrt_loop y x ((y / x + x) / 2);
    | right _ => z }.

(** [sqrt]; its additions and divisions are checked in Solidity, and cannot
  fail (lemma [sqrt_visits_safe] below). *)
Definition sqrt (y : uint) : uint :=
  if 3 <? y then sqrt_loop y y (y / 2 + 1)
  else if negb (y =? 0) then 1
  else 0.

End Math.

(** ** The log of calls that leave the contract *)

(** State-changing calls made to other contracts, in program order. Read-only
    calls ([balanceOf], the factory's getters) are not logged. *)
Inductive call : Type :=
| CallTransfer (token to : address) (value : uint)
| CallTransferFrom (token from to : address) (value : uint)
| CallDiamondCall (callee sender : address) (amount0 amount1 : uint)
    (data : list N).

(** A computation that logs the calls it makes. On failure the log holds the
    calls made before the failing step. *)
Definition run (A : Type) : Type := (list call * result A)%type.

#[export] Instance run_ret : MRet run := fun A a => ([], Ok a).
#[export] Instance run_bind : MBind run := fun A B k m =>
  match m with
  | (l, Ok a) => let '(l', r) := k a in (l ++ l', r)
  | (l, Fail f) => (l, Fail f)
  end.

Definition lift {A} (r : result A) : run A := ([], r).
Definition emit (c : call) : run unit := ([c], Ok tt).

(** What a token answers to a low-level [call]: whether the call succeeded,
    and the boolean it returned, if it returned data at all. *)
Record token_reply : Type := {
  success : bool;
  returned : option bool
}.

(** [success && (data.length == 0 || abi.decode(data, (bool)))] *)
Definition reply_ok (r : token_reply) : bool :=
  success r && match returned r with None => true | Some b => b end.

(** ** ERC20 share ledger (OpenZeppelin Contracts 4.x, inherited by the pair)

    The pair imports [security/ReentrancyGuard.sol] and
    [utils/math/SafeMath.sol], paths that exist in OpenZeppelin 4.x; the
    inherited [_mint] is the one of that release:
    [require(account != address(0), "ERC20: mint to the zero address");
     _totalSupply += amount; _balances[account] += amount;]. *)
Module ERC20.

Record t : Type := {
  _balances : gmap address uint;
  _totalSupply : uint
}.

Definition empty : t := {| _balances := ∅; _totalSupply := 0 |}.

Definition balanceOf (e : t) (account : address) : uint :=
  default 0 (_balances e !! account).

Definition totalSupply (e : t) : uint := _totalSupply e.

Definition _mint (e : t) (account : address) (amount : uint) : result t :=
  require (negb (account =? 0)) "ERC20: mint to the zero address";;
  supply ← SafeMath.add (_totalSupply e) amount;
  Ok {| _balances := <[account := balanceOf e account + amount]> (_balances e);
        _totalSupply := supply |}.

(** [_burn] of the same release: [require(account != address(0), ...);
    require(accountBalance >= amount, "ERC20: burn amount exceeds balance");
    _balances[account] = accountBalance - amount; _totalSupply -= amount;]. *)
Definition _burn (e : t) (account : address) (amount : uint) : result t :=
  require (negb (account =? 0)) "ERC20: burn from the zero address";;
  require (amount <=? balanceOf e account) "ERC20: burn amount exceeds balance";;
  supply ← SafeMath.sub (_totalSupply e) amount;
  Ok {| _balances := <[account := balanceOf e account - amount]> (_balances e);
        _totalSupply := supply |}.

End ERC20.

(** ** contract DiamondPair *)

Record Block : Type := { timestamp : uint }.

(** interface IDiamondFactory, as the pair sees its factory. *)
Record IDiamondFactory : Type := {
  feeTo : address;
  protocolFeeDenominator : uint
}.

Module DiamondPair.

Definition MINIMUM_LIQUIDITY : uint := 10 ^ 3.

(** ReentrancyGuard's [_status]. *)
Inductive guard : Type := NOT_ENTERED | ENTERED.

Record t : Type := {
  shares : ERC20.t;
  _status : guard;
  factory : address;
  token0 : address;
  token1 : address;
  reserve0 : uint;
  reserve1 : uint;
  blockTimestampLast : uint;
  price0CumulativeLast : uint;
  price1CumulativeLast : uint;
  kLast : uint
}.

Definition set_status (g : guard) (p : t) : t :=
  {| shares := shares p; _status := g; factory := factory p;
     token0 := token0 p; token1 := token1 p;
     reserve0 := reserve0 p; reserve1 := reserve1 p;
     blockTimestampLast := blockTimestampLast p;
     price0CumulativeLast := price0CumulativeLast p;
     price1CumulativeLast := price1CumulativeLast p;
     kLast := kLast p |}.

Definition set_shares (e : ERC20.t) (p : t) : t :=
  {| shares := e; _status := _status p; factory := factory p;
     token0 := token0 p; token1 := token1 p;
     reserve0 := reserve0 p; reserve1 := reserve1 p;
     blockTimestampLast := blockTimestampLast p;
     price0CumulativeLast := price0CumulativeLast p;
     price1CumulativeLast := price1CumulativeLast p;
     kLast := kLast p |}.

Definition set_kLast (k : uint) (p : t) : t :=
  {| shares := shares p; _status := _status p; factory := factory p;
     token0 := token0 p; token1 := token1 p;
     reserve0 := reserve0 p; reserve1 := reserve1 p;
     blockTimestampLast := blockTimestampLast p;
     price0CumulativeLast := price0CumulativeLast p;
     price1CumulativeLast := price1CumulativeLast p;
     kLast := k |}.

Definition set_tokens (t0 t1 : address) (p : t) : t :=
  {| shares := shares p; _status := _status p; factory := factory p;
     token0 := t0; token1 := t1;
     reserve0 := reserve0 p; reserve1 := reserve1 p;
     blockTimestampLast := blockTimestampLast p;
     price0CumulativeLast := price0CumulativeLast p;
     price1CumulativeLast := price1CumulativeLast p;
     kLast := kLast p |}.

(** The state left by the constructor: [factory = msg.sender], all other
    storage zero. *)
Definition deployed (creator : address) : t :=
  {| shares := ERC20.empty; _status := NOT_ENTERED; factory := creator;
     token0 := 0; token1 := 0; reserve0 := 0; reserve1 := 0;
     blockTimestampLast := 0; price0CumulativeLast := 0;
     price1CumulativeLast := 0; kLast := 0 |}.

(** modifier nonReentrant *)
Definition nonReentrant {A} (p : t) (body : t → run (t * A)) : run (t * A) :=
  lift (require (match _status p with ENTERED => false | NOT_ENTERED => true end)
          "ReentrancyGuard: reentrant call");;
  '(p', a) ← body (set_status ENTERED p);
  mret (set_status NOT_ENTERED p', a).

Definition initialize (sender : address) (p : t) (_token0 _token1 : address)
  : result t :=
  require (sender =? factory p) "DiamondPair: FORBIDDEN";;
  Ok (set_tokens _token0 _token1 p).

Definition getReserves (p : t) : uint * uint * uint :=
  (reserve0 p, reserve1 p, blockTimestampLast p).

(** One side of the price accumulation in [_update]:
    [if (rThis > 0) acc += (uint(rOther) * 1e18 / rThis) * timeElapsed]. *)
Definition accumulate (acc rOther rThis timeElapsed : uint) : result uint :=
  if 0 <? rThis then
    scaled ← SafeMath.mul rOther (10 ^ 18);
    price ← SafeMath.div scaled rThis;
    delta ← SafeMath.mul price timeElapsed;
    SafeMath.add acc delta
  else Ok acc.

Definition _update (blk : Block) (p : t)
    (balance0 balance1 _reserve0 _reserve1 : uint) : result t :=
  require ((balance0 <=? MAX_UINT112) && (balance1 <=? MAX_UINT112))
    "DiamondPair: OVERFLOW";;
  let blockTimestamp := timestamp blk mod 2 ^ 32 in
  timeElapsed ← SafeMath.sub blockTimestamp (blockTimestampLast p);
  '(acc0, acc1) ←
    (if (0 <? timeElapsed) && negb (_reserve0 =? 0) && negb (_reserve1 =? 0)
     then
       acc0 ← accumulate (price0CumulativeLast p) _reserve1 _reserve0 timeElapsed;
       acc1 ← accumulate (price1CumulativeLast p) _reserve0 _reserve1 timeElapsed;
       Ok (acc0, acc1)
     else Ok (price0CumulativeLast p, price1CumulativeLast p));
  Ok {| shares := shares p; _status := _status p; factory := factory p;
        token0 := token0 p; token1 := token1 p;
        reserve0 := balance0; reserve1 := balance1;
        blockTimestampLast := blockTimestamp;
        price0CumulativeLast := acc0;
        price1CumulativeLast := acc1;
        kLast := kLast p |}.

Definition _mintFee (fv : IDiamondFactory) (p : t) (_reserve0 _reserve1 : uint)
  : result (t * bool) :=
  let feeTo := feeTo fv in
  let feeOn := negb (feeTo =? 0) in
  let _kLast := kLast p in
  if feeOn then
    if negb (_kLast =? 0) then
      k ← SafeMath.mul _reserve0 _reserve1;
      let rootK := Math.sqrt k in
      let rootKLast := Math.sqrt _kLast in
      if rootKLast <? rootK then
        growth ← SafeMath.sub rootK rootKLast;
        numerator ← SafeMath.mul (ERC20.totalSupply (shares p)) growth;
        scaled ← SafeMath.mul rootK (protocolFeeDenominator fv);
        denominator ← SafeMath.add scaled rootKLast;
        liquidity ← SafeMath.div numerator denominator;
        if 0 <? liquidity then
          e ← ERC20._mint (shares p) feeTo liquidity;
          Ok (set_shares e p, feeOn)
        else Ok (p, feeOn)
      else Ok (p, feeOn)
    else Ok (p, feeOn)
  else if negb (_kLast =? 0) then Ok (set_kLast 0 p, feeOn)
  else Ok (p, feeOn).

(** What the two tokens answer during [mint]. *)
Record MintExt : Type := {
  mint_balance0 : result uint;
  mint_balance1 : result uint
}.

Definition mint (blk : Block) (fv : IDiamondFactory) (p : t) (to : address)
    (ext : MintExt) : run (t * uint) :=
  nonReentrant p (fun p =>
    let '(_reserve0, _reserve1, _) := getReserves p in
    balance0 ← lift (mint_balance0 ext);
    balance1 ← lift (mint_balance1 ext);
    amount0 ← lift (SafeMath.sub balance0 _reserve0);
    amount1 ← lift (SafeMath.sub balance1 _reserve1);
    '(p, feeOn) ← lift (_mintFee fv p _reserve0 _reserve1);
    let _totalSupply := ERC20.totalSupply (shares p) in
    '(p, liquidity) ←
      (if _totalSupply =? 0 then
         product ← lift (SafeMath.mul amount0 amount1);
         liquidity ← lift (SafeMath.sub (Math.sqrt product) MINIMUM_LIQUIDITY);
         e ← lift (ERC20._mint (shares p) 0 MINIMUM_LIQUIDITY);
         lift (Ok (set_shares e p, liquidity))
       else
         n0 ← lift (SafeMath.mul amount0 _totalSupply);
         l0 ← lift (SafeMath.div n0 _reserve0);
         n1 ← lift (SafeMath.mul amount1 _totalSupply);
         l1 ← lift (SafeMath.div n1 _reserve1);
         lift (Ok (p, Math.min l0 l1)));
    lift (require (0 <? liquidity) "DiamondPair: INSUFFICIENT_LIQUIDITY_MINTED");;
    e ← lift (ERC20._mint (shares p) to liquidity);
    p ← lift (_update blk (set_shares e p) balance0 balance1 _reserve0 _reserve1);
    p ← (if (feeOn : bool) then
           k ← lift (SafeMath.mul (reserve0 p) (reserve1 p));
           lift (Ok (set_kLast k p))
         else lift (Ok p));
    mret (p, liquidity)).

(** What the outside world answers during [swap]: the two output
    transfers, the flash-swap callback, and the pair's token balances read
    afterwards. An answer is consulted only if the call is made. *)
Record SwapExt : Type := {
  transfer0 : token_reply;
  transfer1 : token_reply;
  callback : result unit;
  swap_balance0 : result uint;
  swap_balance1 : result uint
}.

Definition _safeTransfer (token to : address) (value : uint)
    (reply : token_reply) : run unit :=
  emit (CallTransfer token to value);;
  lift (require (reply_ok reply) "DiamondPair: TRANSFER_FAILED").

Definition swap (blk : Block) (sender : address) (p : t)
    (amount0Out amount1Out : uint) (to : address) (data : list N)
    (ext : SwapExt) : run (t * unit) :=
  nonReentrant p (fun p =>
    lift (require ((0 <? amount0Out) || (0 <? amount1Out))
            "DiamondPair: INSUFFICIENT_OUTPUT_AMOUNT");;
    let '(_reserve0, _reserve1, _) := getReserves p in
    lift (require ((amount0Out <? _reserve0) && (amount1Out <? _reserve1))
            "DiamondPair: INSUFFICIENT_LIQUIDITY");;
    let _token0 := token0 p in
    let _token1 := token1 p in
    lift (require (negb (to =? _token0) && negb (to =? _token1))
            "DiamondPair: INVALID_TO");;
    (if 0 <? amount0Out
     then _safeTransfer _token0 to amount0Out (transfer0 ext) else mret tt);;
    (if 0 <? amount1Out
     then _safeTransfer _token1 to amount1Out (transfer1 ext) else mret tt);;
    (if (0 <? N.of_nat (length data))
     then emit (CallDiamondCall to sender amount0Out amount1Out data);;
          lift (callback ext)
     else mret tt);;
    balance0 ← lift (swap_balance0 ext);
    balance1 ← lift (swap_balance1 ext);
    left0 ← lift (SafeMath.sub _reserve0 amount0Out);
    left1 ← lift (SafeMath.sub _reserve1 amount1Out);
    let amount0In := if left0 <? balance0 then balance0 - left0 else 0 in
    let amount1In := if left1 <? balance1 then balance1 - left1 else 0 in
    lift (require ((0 <? amount0In) || (0 <? amount1In))
            "DiamondPair: INSUFFICIENT_INPUT_AMOUNT");;
    scaled0 ← lift (SafeMath.mul balance0 1000);
    fee0 ← lift (SafeMath.mul amount0In 3);
    balance0Adjusted ← lift (SafeMath.sub scaled0 fee0);
    scaled1 ← lift (SafeMath.mul balance1 1000);
    fee1 ← lift (SafeMath.mul amount1In 3);
    balance1Adjusted ← lift (SafeMath.sub scaled1 fee1);
    adjustedK ← lift (SafeMath.mul balance0Adjusted balance1Adjusted);
    k ← lift (SafeMath.mul _reserve0 _reserve1);
    scaledK ← lift (SafeMath.mul k (1000 ^ 2));
    lift (require (scaledK <=? adjustedK) "DiamondPair: K");;
    p ← lift (_update blk p balance0 balance1 _reserve0 _reserve1);
    mret (p, tt)).

(** What the two tokens answer during [burn]: the balances read first, the
    two payouts, and the balances read after them. *)
Record BurnExt : Type := {
  burn_balance0 : result uint;
  burn_balance1 : result uint;
  burn_transfer0 : token_reply;
  burn_transfer1 : token_reply;
  burn_after0 : result uint;
  burn_after1 : result uint
}.

(** [self] is [address(this)]. *)
Definition burn (blk : Block) (fv : IDiamondFactory) (self : address) (p : t)
    (to : address) (ext : BurnExt) : run (t * (uint * uint)) :=
  nonReentrant p (fun p =>
    let '(_reserve0, _reserve1, _) := getReserves p in
    let _token0 := token0 p in
    let _token1 := token1 p in
    balance0 ← lift (burn_balance0 ext);
    balance1 ← lift (burn_balance1 ext);
    let liquidity := ERC20.balanceOf (shares p) self in
    '(p, feeOn) ← lift (_mintFee fv p _reserve0 _reserve1);
    let _totalSupply := ERC20.totalSupply (shares p) in
    n0 ← lift (SafeMath.mul liquidity balance0);
    amount0 ← lift (SafeMath.div n0 _totalSupply);
    n1 ← lift (SafeMath.mul liquidity balance1);
    amount1 ← lift (SafeMath.div n1 _totalSupply);
    lift (require ((0 <? amount0) && (0 <? amount1))
            "DiamondPair: INSUFFICIENT_LIQUIDITY_BURNED");;
    e ← lift (ERC20._burn (shares p) self liquidity);
    _safeTransfer _token0 to amount0 (burn_transfer0 ext);;
    _safeTransfer _token1 to amount1 (burn_transfer1 ext);;
    balance0 ← lift (burn_after0 ext);
    balance1 ← lift (burn_after1 ext);
    p ← lift (_update blk (set_shares e p) balance0 balance1 _reserve0 _reserve1);
    p ← (if (feeOn : bool) then
           k ← lift (SafeMath.mul (reserve0 p) (reserve1 p));
           lift (Ok (set_kLast k p))
         else lift (Ok p));
    mret (p, (amount0, amount1))).

(** What the two tokens answer during [skim], in the order asked. *)
Record SkimExt : Type := {
  skim_balance0 : result uint;
  skim_transfer0 : token_reply;
  skim_balance1 : result uint;
  skim_transfer1 : token_reply
}.

Definition skim (p : t) (to : address) (ext : SkimExt) : run (t * unit) :=
  nonReentrant p (fun p =>
    let _token0 := token0 p in
    let _token1 := token1 p in
    balance0 ← lift (skim_balance0 ext);
    excess0 ← lift (SafeMath.sub balance0 (reserve0 p));
    _safeTransfer _token0 to excess0 (skim_transfer0 ext);;
    balance1 ← lift (skim_balance1 ext);
    excess1 ← lift (SafeMath.sub balance1 (reserve1 p));
    _safeTransfer _token1 to excess1 (skim_transfer1 ext);;
    mret (p, tt)).

(** What the two tokens answer during [sync]. *)
Record SyncExt : Type := {
  sync_balance0 : result uint;
  sync_balance1 : result uint
}.

Definition sync (blk : Block) (p : t) (ext : SyncExt) : run (t * unit) :=
  nonReentrant p (fun p =>
    balance0 ← lift (sync_balance0 ext);
    balance1 ← lift (sync_balance1 ext);
    p ← lift (_update blk p balance0 balance1 (reserve0 p) (reserve1 p));
    mret (p, tt)).

End DiamondPair.

(** ** contract DiamondFactory *)

Module DiamondFactory.

Record t : Type := {
  owner : address;
  getPair_ : gmap (address * address) address;
  allPairs : list address;
  feeTo_ : address;
  protocolFeeDenominator_ : uint
}.

(** The state left by the constructor: the deployer owns the factory, the
    mapping and the list are empty, [protocolFeeDenominator = 5]. *)
Definition deployed (deployer : address) : t :=
  {| owner := deployer; getPair_ := ∅; allPairs := [];
     feeTo_ := 0; protocolFeeDenominator_ := 5 |}.

(** The public getter of [mapping(address => mapping(address => address))]:
    an absent entry reads as [address(0)]. *)
Definition getPair (f : t) (tokenA tokenB : address) : address :=
  default 0 (getPair_ f !! (tokenA, tokenB)).

Definition allPairsLength (f : t) : uint := N.of_nat (length (allPairs f)).

Definition view (f : t) : IDiamondFactory :=
  {| feeTo := feeTo_ f; protocolFeeDenominator := protocolFeeDenominator_ f |}.

Definition setFeeTo (sender : address) (f : t) (_feeTo : address) : result t :=
  require (sender =? owner f) "Ownable: caller is not the owner";;
  Ok {| owner := owner f; getPair_ := getPair_ f; allPairs := allPairs f;
        feeTo_ := _feeTo;
        protocolFeeDenominator_ := protocolFeeDenominator_ f |}.

Definition setProtocolFeeDenominator (sender : address) (f : t)
    (_protocolFeeDenominator : uint) : result t :=
  require (sender =? owner f) "Ownable: caller is not the owner";;
  require (0 <? _protocolFeeDenominator) "DiamondFactory: INVALID_DENOMINATOR";;
  Ok {| owner := owner f; getPair_ := getPair_ f; allPairs := allPairs f;
        feeTo_ := feeTo_ f;
        protocolFeeDenominator_ := _protocolFeeDenominator |}.

(** The bookkeeping at the end of [createPair]. *)
Definition register (f : t) (token0 token1 pair : address) : t :=
  {| owner := owner f;
     getPair_ := <[(token1, token0) := pair]>
                   (<[(token0, token1) := pair]> (getPair_ f));
     allPairs := allPairs f ++ [pair];
     feeTo_ := feeTo_ f;
     protocolFeeDenominator_ := protocolFeeDenominator_ f |}.

End DiamondFactory.

(** ** The deployed system: one factory and the pairs it has created *)

Record World : Type := {
  factoryAt : address;
  factoryState : DiamondFactory.t;
  pairs : gmap address DiamondPair.t
}.

Definition set_pair (w : World) (a : address) (p : DiamondPair.t) : World :=
  {| factoryAt := factoryAt w; factoryState := factoryState w;
     pairs := <[a := p]> (pairs w) |}.

(** A high-level call to a pair: it reverts without a reason when no contract
    lives at the address. *)
Definition pairAt (w : World) (a : address) : result DiamondPair.t :=
  match pairs w !! a with
  | Some p => Ok p
  | None => Fail (Revert EmptyString)
  end.

(** [DiamondFactory.createPair]. [created] is what [create2] answers: the
    address of the new pair, or [0] when the creation fails, as it does at an
    address that already holds a contract. *)
Definition createPair (w : World) (tokenA tokenB : address) (created : address)
  : result (World * address) :=
  let f := factoryState w in
  require (negb (tokenA =? tokenB)) "DiamondFactory: IDENTICAL_ADDRESSES";;
  let '(token0, token1) :=
    if tokenA <? tokenB then (tokenA, tokenB) else (tokenB, tokenA) in
  require (negb (token0 =? 0)) "DiamondFactory: ZERO_ADDRESS";;
  require (DiamondFactory.getPair f token0 token1 =? 0)
    "DiamondFactory: PAIR_EXISTS";;
  let pair := match pairs w !! created with Some _ => 0 | None => created end in
  require (negb (pair =? 0)) EmptyString;;
  p ← DiamondPair.initialize (factoryAt w)
        (DiamondPair.deployed (factoryAt w)) token0 token1;
  Ok ({| factoryAt := factoryAt w;
         factoryState := DiamondFactory.register f token0 token1 pair;
         pairs := <[pair := p]> (pairs w) |}, pair).

(** ** contract DiamondRouter

    The router's immutable [factory] is the factory of the [World]. *)

Module DiamondRouter.

Record t : Type := {
  _status : DiamondPair.guard;
  WETH : address
}.

(** modifier nonReentrant; the body never reads the flag, and it is reset
    when the body returns. *)
Definition nonReentrant {A} (r : t) (body : run A) : run A :=
  lift (require (match _status r with
                 | DiamondPair.ENTERED => false
                 | DiamondPair.NOT_ENTERED => true
                 end) "ReentrancyGuard: reentrant call");;
  body.

Definition sortTokens (tokenA tokenB : address) : result (address * address) :=
  require (negb (tokenA =? tokenB)) "DiamondRouter: IDENTICAL_ADDRESSES";;
  let '(token0, token1) :=
    if tokenA <? tokenB then (tokenA, tokenB) else (tokenB, tokenA) in
  require (negb (token0 =? 0)) "DiamondRouter: ZERO_ADDRESS";;
  Ok (token0, token1).

Definition pairFor (w : World) (tokenA tokenB : address) : address :=
  DiamondFactory.getPair (factoryState w) tokenA tokenB.

Definition getReserves (w : World) (tokenA tokenB : address)
  : result (uint * uint) :=
  '(token0, _) ← sortTokens tokenA tokenB;
  let pair := pairFor w tokenA tokenB in
  if pair =? 0 then Ok (0, 0)
  else
    p ← pairAt w pair;
    let '(reserve0, reserve1, _) := DiamondPair.getReserves p in
    Ok (if tokenA =? token0 then (reserve0, reserve1) else (reserve1, reserve0)).

Definition quote (amountA reserveA reserveB : uint) : result uint :=
  require (0 <? amountA) "DiamondRouter: INSUFFICIENT_AMOUNT";;
  require ((0 <? reserveA) && (0 <? reserveB))
    "DiamondRouter: INSUFFICIENT_LIQUIDITY";;
  n ← SafeMath.mul amountA reserveB;
  SafeMath.div n reserveA.

Definition _calculateLiquidityAmounts (w : World) (tokenA tokenB : address)
    (amountADesired amountBDesired amountAMin amountBMin : uint)
  : result (uint * uint) :=
  let pair := pairFor w tokenA tokenB in
  if pair =? 0 then Ok (amountADesired, amountBDesired)
  else
    '(reserveA, reserveB) ← getReserves w tokenA tokenB;
    if (reserveA =? 0) && (reserveB =? 0)
    then Ok (amountADesired, amountBDesired)
    else
      amountBOptimal ← quote amountADesired reserveA reserveB;
      if amountBOptimal <=? amountBDesired then
        require (amountBMin <=? amountBOptimal)
          "DiamondRouter: INSUFFICIENT_B_AMOUNT";;
        Ok (amountADesired, amountBOptimal)
      else
        amountAOptimal ← quote amountBDesired reserveB reserveA;
        assert (amountAOptimal <=? amountADesired);;
        require (amountAMin <=? amountAOptimal)
          "DiamondRouter: INSUFFICIENT_A_AMOUNT";;
        Ok (amountAOptimal, amountBDesired).

Definition _safeTransferFrom (token from to : address) (value : uint)
    (reply : token_reply) : run unit :=
  emit (CallTransferFrom token from to value);;
  lift (require (reply_ok reply) "DiamondRouter: TRANSFER_FAILED").

(** What the outside world answers during [addLiquidity]: [create2] (asked
    only when the pair has to be created), the two token pulls, and the
    balances the pair reads in [mint]. *)
Record AddLiquidityExt : Type := {
  created : address;
  pullA : token_reply;
  pullB : token_reply;
  minting : DiamondPair.MintExt
}.

Definition addLiquidity (blk : Block) (sender : address) (r : t) (w : World)
    (tokenA tokenB : address)
    (amountADesired amountBDesired amountAMin amountBMin : uint)
    (to : address) (ext : AddLiquidityExt)
  : run (World * (uint * uint * uint)) :=
  nonReentrant r (
    let pair := pairFor w tokenA tokenB in
    '(w, pair) ← lift (if pair =? 0
                       then createPair w tokenA tokenB (created ext)
                       else Ok (w, pair));
    '(amountA, amountB) ← lift (_calculateLiquidityAmounts w tokenA tokenB
                                  amountADesired amountBDesired
                                  amountAMin amountBMin);
    _safeTransferFrom tokenA sender pair amountA (pullA ext);;
    _safeTransferFrom tokenB sender pair amountB (pullB ext);;
    p ← lift (pairAt w pair);
    '(p, liquidity) ← DiamondPair.mint blk (DiamondFactory.view (factoryState w))
                        p to (minting ext);
    mret (set_pair w pair p, (amountA, amountB, liquidity))).

Definition getAmountOut (amountIn reserveIn reserveOut : uint) : result uint :=
  require (0 <? amountIn) "DiamondRouter: INSUFFICIENT_INPUT_AMOUNT";;
  require ((0 <? reserveIn) && (0 <? reserveOut))
    "DiamondRouter: INSUFFICIENT_LIQUIDITY";;
  amountInWithFee ← SafeMath.mul amountIn 997;
  numerator ← SafeMath.mul amountInWithFee reserveOut;
  scaled ← SafeMath.mul reserveIn 1000;
  denominator ← SafeMath.add scaled amountInWithFee;
  SafeMath.div numerator denominator.

Definition getAmountIn (amountOut reserveIn reserveOut : uint) : result uint :=
  require (0 <? amountOut) "DiamondRouter: INSUFFICIENT_OUTPUT_AMOUNT";;
  require ((0 <? reserveIn) && (0 <? reserveOut))
    "DiamondRouter: INSUFFICIENT_LIQUIDITY";;
  n ← SafeMath.mul reserveIn amountOut;
  numerator ← SafeMath.mul n 1000;
  d ← SafeMath.sub reserveOut amountOut;
  denominator ← SafeMath.mul d 997;
  q ← SafeMath.div numerator denominator;
  SafeMath.add q 1.

(** The loop of [getAmountsOut]: [amounts[i + 1]] for each hop of [path],
    [amount] being [amounts[i]] for the hop at the head. *)
Fixpoint amountsOutFrom (w : World) (amount : uint) (path : list address)
  : result (list uint) :=
  match path with
  | input :: (output :: _) as rest =>
      '(reserveIn, reserveOut) ← getReserves w input output;
      out ← getAmountOut amount reserveIn reserveOut;
      more ← amountsOutFrom w out rest;
      Ok (out :: more)
  | _ => Ok []
  end.

Definition getAmountsOut (w : World) (amountIn : uint) (path : list address)
  : result (list uint) :=
  require (2 <=? N.of_nat (length path)) "DiamondRouter: INVALID_PATH";;
  more ← amountsOutFrom w amountIn path;
  Ok (amountIn :: more).

(** The loop of [_swap]; [hops i] is what the outside world answers during
    the swap of hop [i]. An index outside [amounts] panics with 0x32. *)
Fixpoint _swap (blk : Block) (self : address) (w : World)
    (amounts : list uint) (path : list address) (_to : address)
    (hops : nat → DiamondPair.SwapExt) : run World :=
  match path with
  | input :: (output :: further) as rest =>
      '(token0, _) ← lift (sortTokens input output);
      amountOut ← lift (match amounts with
                        | _ :: amountOut :: _ => Ok amountOut
                        | _ => Fail (Panic 50)
                        end);
      let '(amount0Out, amount1Out) :=
        if input =? token0 then (0, amountOut) else (amountOut, 0) in
      let to := match further with
                | next :: _ => pairFor w output next
                | [] => _to
                end in
      let pair := pairFor w input output in
      p ← lift (pairAt w pair);
      '(p, _) ← DiamondPair.swap blk self p amount0Out amount1Out to []
                  (hops 0%nat);
      _swap blk self (set_pair w pair p) (tl amounts) rest _to
        (fun i => hops (S i))
  | _ => mret w
  end.

(** What the outside world answers during a swap through the router: the
    pull of the input token, then each hop. *)
Record SwapExt : Type := {
  pull : token_reply;
  hops : nat → DiamondPair.SwapExt
}.

Definition swapExactTokensForTokens (blk : Block) (self sender : address)
    (r : t) (w : World) (amountIn amountOutMin : uint) (path : list address)
    (to : address) (ext : SwapExt) : run (World * list uint) :=
  nonReentrant r (
    amounts ← lift (getAmountsOut w amountIn path);
    lift (require (amountOutMin <=? List.last amounts 0)
            "DiamondRouter: INSUFFICIENT_OUTPUT_AMOUNT");;
    match path, amounts with
    | first :: second :: _, amount :: _ =>
        _safeTransferFrom first sender (pairFor w first second) amount
          (pull ext);;
        w ← _swap blk self w amounts path to (hops ext);
        mret (w, amounts)
    | _, _ => lift (Fail (Panic 50))
    end).

(** The loop of [getAmountsIn], which runs from the last hop to the first:
    the amounts from the token at the head of [path] on, [amountOut] being
    the amount of the last token. *)
Fixpoint amountsInTo (w : World) (amountOut : uint) (path : list address)
  : result (list uint) :=
  match path with
  | input :: (output :: _) as rest =>
      more ← amountsInTo w amountOut rest;
      '(reserveIn, reserveOut) ← getReserves w input output;
      amount ← getAmountIn (hd 0 more) reserveIn reserveOut;
      Ok (amount :: more)
  | _ => Ok [amountOut]
  end.

Definition getAmountsIn (w : World) (amountOut : uint) (path : list address)
  : result (list uint) :=
  require (2 <=? N.of_nat (length path)) "DiamondRouter: INVALID_PATH";;
  amountsInTo w amountOut path.

Definition swapTokensForExactTokens (blk : Block) (self sender : address)
    (r : t) (w : World) (amountOut amountInMax : uint) (path : list address)
    (to : address) (ext : SwapExt) : run (World * list uint) :=
  nonReentrant r (
    amounts ← lift (getAmountsIn w amountOut path);
    lift (require (hd 0 amounts <=? amountInMax)
            "DiamondRouter: EXCESSIVE_INPUT_AMOUNT");;
    match path, amounts with
    | first :: second :: _, amount :: _ =>
        _safeTransferFrom first sender (pairFor w first second) amount
          (pull ext);;
        w ← _swap blk self w amounts path to (hops ext);
        mret (w, amounts)
    | _, _ => lift (Fail (Panic 50))
    end).

End DiamondRouter.

(** ** Vocabulary of the properties *)

(** One step of the Newton iteration in [Math.sqrt]. *)
Definition newton (y x : uint) : uint := (y / x + x) / 2.

(** The values of [(z, x)] at which [Math.sqrt] evaluates its loop condition,
    for an argument [y > 3]. *)
Inductive sqrt_visits (y : uint) : uint → uint → Prop :=
| visit_first : sqrt_visits y y (y / 2 + 1)
| visit_next z x :
    sqrt_visits y z x → x < z → sqrt_visits y x ((y / x + x) / 2).

(** The input [swap] credits on one side:
    [balance > reserve - amountOut ? balance - (reserve - amountOut) : 0]. *)
Definition amountIn (reserve amountOut balance : uint) : uint :=
  if reserve - amountOut <? balance then balance - (reserve - amountOut) else 0.

(** The product of the recorded reserves. *)
Definition K (p : DiamondPair.t) : uint :=
  DiamondPair.reserve0 p * DiamondPair.reserve1 p.

(** [p'] is the state of the pair after some successful call of [swap] made
    in state [p]. *)
Definition swap_step (p p' : DiamondPair.t) : Prop :=
  ∃ blk sender amount0Out amount1Out to data ext log,
    DiamondPair.swap blk sender p amount0Out amount1Out to data ext
      = (log, Ok (p', tt)).

(** The smaller and the larger of two token addresses. *)
Definition sorted (tokenA tokenB : address) : address * address :=
  if tokenA <? tokenB then (tokenA, tokenB) else (tokenB, tokenA).

(** The first step of [addLiquidity]: the pair of the two tokens, created
    when the factory has none. *)
Definition ensurePair (w : World) (tokenA tokenB created : address)
  : result (World * address) :=
  if DiamondRouter.pairFor w tokenA tokenB =? 0
  then createPair w tokenA tokenB created
  else Ok (w, DiamondRouter.pairFor w tokenA tokenB).

(** The checks that [swapExactTokensForTokens] makes before it moves any
    token: the reentrancy guard, the quotes along the path, the minimum
    output. None of them reads the time. *)
Definition rejected (r : DiamondRouter.t) (w : World)
    (amountIn amountOutMin : uint) (path : list address) : Prop :=
  DiamondRouter._status r = DiamondPair.ENTERED ∨
  (∃ f, DiamondRouter.getAmountsOut w amountIn path = Fail f) ∨
  (∃ amounts, DiamondRouter.getAmountsOut w amountIn path = Ok amounts ∧
              List.last amounts 0 < amountOutMin).

(** A computation that makes no call to another contract. *)
Definition silent {A} (m : run A) : Prop := fst m = [].

(** The states the system can be in. The factory changes by its own three
    operations only; for the pairs this is an over-approximation: an existing
    pair may move to any state. *)
Inductive reachable : World → Prop :=
| reach_deployed (at_ deployer : address) :
    reachable {| factoryAt := at_;
                 factoryState := DiamondFactory.deployed deployer;
                 pairs := ∅ |}
| reach_createPair w tokenA tokenB created w' pair :
    reachable w →
    createPair w tokenA tokenB created = Ok (w', pair) →
    reachable w'
| reach_setFeeTo w sender _feeTo f' :
    reachable w →
    DiamondFactory.setFeeTo sender (factoryState w) _feeTo = Ok f' →
    reachable {| factoryAt := factoryAt w; factoryState := f';
                 pairs := pairs w |}
| reach_setProtocolFeeDenominator w sender n f' :
    reachable w →
    DiamondFactory.setProtocolFeeDenominator sender (factoryState w) n = Ok f' →
    reachable {| factoryAt := factoryAt w; factoryState := f';
                 pairs := pairs w |}
| reach_pair w a p p' :
    reachable w →
    pairs w !! a = Some p →
    reachable (set_pair w a p').

(** ** Concrete states and answers used in the examples *)

Module Examples.

Definition ok_reply : token_reply := {| success := true; returned := None |}.

Definition blk0 : Block := {| timestamp := 1700000000 |}.

(** A pair of tokens 1 and 2 holding 1000 of each. *)
Definition pool0 : DiamondPair.t :=
  {| DiamondPair.shares := ERC20.empty;
     DiamondPair._status := DiamondPair.NOT_ENTERED;
     DiamondPair.factory := 100;
     DiamondPair.token0 := 1; DiamondPair.token1 := 2;
     DiamondPair.reserve0 := 1000; DiamondPair.reserve1 := 1000;
     DiamondPair.blockTimestampLast := 0;
     DiamondPair.price0CumulativeLast := 0;
     DiamondPair.price1CumulativeLast := 0;
     DiamondPair.kLast := 0 |}.

(** The same pair while one of its guarded functions is running. *)
Definition pool0_entered : DiamondPair.t :=
  DiamondPair.set_status DiamondPair.ENTERED pool0.

(** The pair has received 100 of token 1 and paid out 90 of token 2. *)
Definition ext0 : DiamondPair.SwapExt :=
  {| DiamondPair.transfer0 := ok_reply; DiamondPair.transfer1 := ok_reply;
     DiamondPair.callback := Ok tt;
     DiamondPair.swap_balance0 := Ok 1100;
     DiamondPair.swap_balance1 := Ok 910 |}.

(** The factory as deployed: no fee collector. *)
Definition no_fee : IDiamondFactory :=
  {| feeTo := 0; protocolFeeDenominator := 5 |}.

(** The pair holds 2000 of its first token and 3000 of its second. *)
Definition deposit0 : DiamondPair.MintExt :=
  {| DiamondPair.mint_balance0 := Ok 2000;
     DiamondPair.mint_balance1 := Ok 3000 |}.

(** A factory at address 100 deployed by account 50, before and after the
    pair of tokens 1 and 2 is created at address 200. *)
Definition world0 : World :=
  {| factoryAt := 100; factoryState := DiamondFactory.deployed 50;
     pairs := ∅ |}.

(** The new pair: initialized, without reserves and without shares. *)
Definition pair12 : DiamondPair.t :=
  DiamondPair.set_tokens 1 2 (DiamondPair.deployed 100).

Definition world1 : World :=
  {| factoryAt := 100;
     factoryState := DiamondFactory.register (DiamondFactory.deployed 50) 1 2 200;
     pairs := <[200 := pair12]> ∅ |}.

(** The system once the pair of tokens 1 and 2 holds 1000 of each. *)
Definition world2 : World := set_pair world1 200 pool0.

Definition router0 : DiamondRouter.t :=
  {| DiamondRouter._status := DiamondPair.NOT_ENTERED;
     DiamondRouter.WETH := 3 |}.

(** The input token is pulled, and the single hop sees [ext0]. *)
Definition route0 : DiamondRouter.SwapExt :=
  {| DiamondRouter.pull := ok_reply; DiamondRouter.hops := fun _ => ext0 |}.

(** [pool0] after the swap of 100 of token 1 for 90 of token 2. *)
Definition pool1 : DiamondPair.t :=
  {| DiamondPair.shares := ERC20.empty;
     DiamondPair._status := DiamondPair.NOT_ENTERED;
     DiamondPair.factory := 100;
     DiamondPair.token0 := 1; DiamondPair.token1 := 2;
     DiamondPair.reserve0 := 1100; DiamondPair.reserve1 := 910;
     DiamondPair.blockTimestampLast := 1700000000;
     DiamondPair.price0CumulativeLast := 1700000000 * 10 ^ 18;
     DiamondPair.price1CumulativeLast := 1700000000 * 10 ^ 18;
     DiamondPair.kLast := 0 |}.

(** Both pulls succeed; the pair then holds 1100 of each token. *)
Definition add0 : DiamondRouter.AddLiquidityExt :=
  {| DiamondRouter.created := 0;
     DiamondRouter.pullA := ok_reply; DiamondRouter.pullB := ok_reply;
     DiamondRouter.minting :=
       {| DiamondPair.mint_balance0 := Ok 1100;
          DiamondPair.mint_balance1 := Ok 1100 |} |}.

End Examples.

(** ** Vocabulary of the further properties *)

(** The calls a swap makes: the requested outputs, then the callback. *)
Definition swap_calls (p : DiamondPair.t) (sender : address)
    (amount0Out amount1Out : uint) (to : address) (data : list N) : list call :=
  (if 0 <? amount0Out
   then [CallTransfer (DiamondPair.token0 p) to amount0Out] else []) ++
  (if 0 <? amount1Out
   then [CallTransfer (DiamondPair.token1 p) to amount1Out] else []) ++
  (if 0 <? N.of_nat (length data)
   then [CallDiamondCall to sender amount0Out amount1Out data] else []).

(** One successful call of a function of [DiamondPair] itself, by any caller,
    in any block, whatever the factory and the tokens answer. The functions
    inherited from ERC20 are not among them. *)
Inductive pair_step : DiamondPair.t → DiamondPair.t → Prop :=
| step_initialize sender p _token0 _token1 p' :
    DiamondPair.initialize sender p _token0 _token1 = Ok p' →
    pair_step p p'
| step_mint blk fv p to ext log p' liquidity :
    DiamondPair.mint blk fv p to ext = (log, Ok (p', liquidity)) →
    pair_step p p'
| step_burn blk fv self p to ext log p' amounts :
    DiamondPair.burn blk fv self p to ext = (log, Ok (p', amounts)) →
    pair_step p p'
| step_swap blk sender p amount0Out amount1Out to data ext log p' :
    DiamondPair.swap blk sender p amount0Out amount1Out to data ext
      = (log, Ok (p', tt)) →
    pair_step p p'
| step_skim p to ext log p' :
    DiamondPair.skim p to ext = (log, Ok (p', tt)) →
    pair_step p p'
| step_sync blk p ext log p' :
    DiamondPair.sync blk p ext = (log, Ok (p', tt)) →
    pair_step p p'.

Module MoreExamples.

(** A block whose timestamp has passed [2 ^ 32]. *)
Definition blk_wrapped : Block := {| timestamp := 2 ^ 32 + 5 |}.

(** The balances [Examples.pool0] holds after 100 of token 1 came in. *)
Definition balances0 : DiamondPair.SyncExt :=
  {| DiamondPair.sync_balance0 := Ok 1100;
     DiamondPair.sync_balance1 := Ok 1000 |}.

Definition skim0 : DiamondPair.SkimExt :=
  {| DiamondPair.skim_balance0 := Ok 1100;
     DiamondPair.skim_transfer0 := Examples.ok_reply;
     DiamondPair.skim_balance1 := Ok 1000;
     DiamondPair.skim_transfer1 := Examples.ok_reply |}.

(** The factory with account 60 as fee collector. *)
Definition with_fee : IDiamondFactory :=
  {| feeTo := 60; protocolFeeDenominator := 5 |}.

(** A pair with 1000 shares outstanding whose reserves have doubled since
    the last liquidity event. *)
Definition pool_grown : DiamondPair.t :=
  {| DiamondPair.shares :=
       {| ERC20._balances := <[70 := 1000]> ∅; ERC20._totalSupply := 1000 |};
     DiamondPair._status := DiamondPair.NOT_ENTERED;
     DiamondPair.factory := 100;
     DiamondPair.token0 := 1; DiamondPair.token1 := 2;
     DiamondPair.reserve0 := 2000; DiamondPair.reserve1 := 2000;
     DiamondPair.blockTimestampLast := 0;
     DiamondPair.price0CumulativeLast := 0;
     DiamondPair.price1CumulativeLast := 0;
     DiamondPair.kLast := 1000000 |}.

Definition burn0 : DiamondPair.BurnExt :=
  {| DiamondPair.burn_balance0 := Ok 1000;
     DiamondPair.burn_balance1 := Ok 1000;
     DiamondPair.burn_transfer0 := Examples.ok_reply;
     DiamondPair.burn_transfer1 := Examples.ok_reply;
     DiamondPair.burn_after0 := Ok 1000;
     DiamondPair.burn_after1 := Ok 1000 |}.


(** [pool_grown] has received 200 of each token. *)
Definition deposit1 : DiamondPair.MintExt :=
  {| DiamondPair.mint_balance0 := Ok 2200;
     DiamondPair.mint_balance1 := Ok 2200 |}.

End MoreExamples.

(** * Properties *)

(** ** Inversion of the monads *)

Lemma result_bind_ok {A B} (m : result A) (k : A → result B) b :
  m ≫= k = Ok b → ∃ a, m = Ok a ∧ k a = Ok b.
Proof. destruct m as [a|f]; simpl; [eauto | discriminate]. Qed.

Lemma require_ok c reason : require c reason = Ok tt ↔ c = true.
Proof. unfold require. destruct c; split; congruence. Qed.

Lemma add_ok a b c : SafeMath.add a b = Ok c ↔ c = a + b ∧ a + b ≤ MAX_UINT256.
Proof.
  unfold SafeMath.add. destruct (N.leb_spec (a + b) MAX_UINT256); split.
  - intros [= <-]. split; [reflexivity | assumption].
  - intros [-> _]. reflexivity.
  - discriminate.
  - lia.
Qed.

Lemma sub_ok a b c : SafeMath.sub a b = Ok c ↔ c = a - b ∧ b ≤ a.
Proof.
  unfold SafeMath.sub. destruct (N.leb_spec b a); split.
  - intros [= <-]. split; [reflexivity | assumption].
  - intros [-> _]. reflexivity.
  - discriminate.
  - lia.
Qed.

Lemma mul_ok a b c : SafeMath.mul a b = Ok c ↔ c = a * b ∧ a * b ≤ MAX_UINT256.
Proof.
  unfold SafeMath.mul. destruct (N.leb_spec (a * b) MAX_UINT256); split.
  - intros [= <-]. split; [reflexivity | assumption].
  - intros [-> _]. reflexivity.
  - discriminate.
  - lia.
Qed.

Lemma div_ok a b c : SafeMath.div a b = Ok c ↔ c = a / b ∧ b ≠ 0.
Proof.
  unfold SafeMath.div. destruct (N.eqb_spec b 0); split.
  - discriminate.
  - intros [_ ?]. contradiction.
  - intros [= <-]. split; [reflexivity | assumption].
  - intros [-> _]. reflexivity.
Qed.

Lemma add_eq a b : a + b ≤ MAX_UINT256 → SafeMath.add a b = Ok (a + b).
Proof. intros H. apply add_ok. auto. Qed.

Lemma sub_eq a b : b ≤ a → SafeMath.sub a b = Ok (a - b).
Proof. intros H. apply sub_ok. auto. Qed.

Lemma mul_eq a b : a * b ≤ MAX_UINT256 → SafeMath.mul a b = Ok (a * b).
Proof. intros H. apply mul_ok. auto. Qed.

Lemma div_eq a b : b ≠ 0 → SafeMath.div a b = Ok (a / b).
Proof. intros H. apply div_ok. auto. Qed.

Lemma add_fail a b : MAX_UINT256 < a + b → SafeMath.add a b = Fail (Panic 17).
Proof.
  intros H. unfold SafeMath.add.
  destruct (N.leb_spec (a + b) MAX_UINT256); [lia | reflexivity].
Qed.

Lemma mul_fail a b : MAX_UINT256 < a * b → SafeMath.mul a b = Fail (Panic 17).
Proof.
  intros H. unfold SafeMath.mul.
  destruct (N.leb_spec (a * b) MAX_UINT256); [lia | reflexivity].
Qed.

Lemma run_bind_ok {A B} (m : run A) (k : A → run B) l b :
  m ≫= k = (l, Ok b) →
  ∃ l1 a l2, m = (l1, Ok a) ∧ k a = (l2, Ok b) ∧ l = l1 ++ l2.
Proof.
  destruct m as [l1 [a|f]]; simpl; [|discriminate].
  destruct (k a) as [l2 r] eqn:Hk. intros [= <- ->]. eauto 6.
Qed.

Lemma lift_ok {A} (r : result A) l a : lift r = (l, Ok a) ↔ r = Ok a ∧ l = [].
Proof. unfold lift. split; [intros [= <- ->] | intros [-> ->]]; auto. Qed.

Lemma run_bind_lift_ok {A B} (r : result A) (k : A → run B) l b :
  lift r ≫= k = (l, Ok b) → ∃ a, r = Ok a ∧ k a = (l, Ok b).
Proof.
  intros H. apply run_bind_ok in H as (l1 & a & l2 & H1 & H2 & ->).
  apply lift_ok in H1 as [-> ->]. eauto.
Qed.

Lemma run_bind_lift_Ok {A B} (a : A) (k : A → run B) :
  lift (Ok a) ≫= k = k a.
Proof. simpl. destruct (k a). reflexivity. Qed.

(** [ok_step H as a Ha] peels the first step off [H : (a ← step; rest) = Ok _]:
    the step succeeded with [a], which [Ha] describes, and [H] becomes the
    statement about [rest]. *)
Ltac ok_simpl Ha :=
  try match type of Ha with
      | require _ _ = Ok ?u => destruct u; apply require_ok in Ha
      | SafeMath.add _ _ = Ok _ => apply add_ok in Ha as [-> Ha]
      | SafeMath.sub _ _ = Ok _ => apply sub_ok in Ha as [-> Ha]
      | SafeMath.mul _ _ = Ok _ => apply mul_ok in Ha as [-> Ha]
      | SafeMath.div _ _ = Ok _ => apply div_ok in Ha as [-> Ha]
      end.

Tactic Notation "ok_step" hyp(H) "as" ident(a) ident(Ha) :=
  first
    [ apply run_bind_lift_ok in H as (a & Ha & H)
    | apply result_bind_ok in H as (a & Ha & H) ];
  ok_simpl Ha.

(** ** Math.sqrt *)

Section Sqrt.

Import Math.

Lemma newton_lower y x : 0 < x → N.sqrt y ≤ newton y x.
Proof.
  intros Hx. unfold newton.
  pose proof (N.sqrt_spec y ltac:(lia)) as [Hs _]. cbv zeta in Hs.
  set (s := N.sqrt y) in *.
  set (q := y / x).
  assert (Hq : y < (q + 1) * x).
  { unfold q. pose proof (N.mul_succ_div_gt y x ltac:(lia)). lia. }
  set (a := (q + x) / 2).
  assert (Ha : q + x < 2 * (a + 1)).
  { unfold a. pose proof (N.mul_succ_div_gt (q + x) 2 ltac:(lia)). lia. }
  apply N.lt_succ_r. apply N.nle_gt. intros Hc.
  assert (H1 : (a + 1) * (a + 1) ≤ s * s) by (apply N.mul_le_mono; lia).
  assert (H2 : 4 * ((q + 1) * x) ≤ (q + 1 + x) * (q + 1 + x)).
  { destruct (N.le_ge_cases (q + 1) x) as [Hle|Hle].
    - replace x with (q + 1 + (x - (q + 1))) by lia.
      generalize (x - (q + 1)) (q + 1). intros d c. nia.
    - replace (q + 1) with (x + (q + 1 - x)) by lia.
      generalize (q + 1 - x). intros d. nia. }
  assert (H3 : (q + 1 + x) * (q + 1 + x) ≤ (2 * (a + 1)) * (2 * (a + 1)))
    by (apply N.mul_le_mono; lia).
  nia.
Qed.

Lemma newton_decreases y x : y < x * x → newton y x < x.
Proof.
  intros Hx. unfold newton.
  assert (0 < x) by nia.
  assert (y / x < x) by (apply N.Div0.div_lt_upper_bound; lia).
  apply N.Div0.div_lt_upper_bound; lia.
Qed.

Lemma sqrt_pos y : 0 < y → 0 < N.sqrt y.
Proof.
  intros Hy. pose proof (N.sqrt_spec y ltac:(lia)) as [_ Hu]. cbv zeta in Hu.
  destruct (N.sqrt y); [simpl in Hu|]; lia.
Qed.

(** Entered with [z] at or above the root and [x] the Newton step from
    [z], the loop returns the root. *)
Lemma sqrt_loop_root y z :
  0 < y → N.sqrt y ≤ z → sqrt_loop y z (newton y z) = N.sqrt y.
Proof.
  intros Hy. induction z as [z IH] using (well_founded_induction N.lt_wf_0).
  intros Hs. pose proof (sqrt_pos y Hy) as Hpos.
  assert (Hz : 0 < z) by lia.
  simp sqrt_loop.
  destruct (decide (newton y z < z)) as [Hlt|Hge]; simpl.
  - apply IH; [exact Hlt | apply newton_lower; exact Hz].
  - pose proof (N.sqrt_spec y ltac:(lia)) as [_ Hu]. cbv zeta in Hu.
    destruct (N.lt_ge_cases y (z * z)) as [Hc|Hc].
    + pose proof (newton_decreases y z Hc). lia.
    + nia.
Qed.

Lemma sqrt_first_guess y : 3 < y → N.sqrt y ≤ y / 2 + 1 ∧ y / 2 + 1 < y.
Proof.
  intros Hy.
  pose proof (N.sqrt_spec y ltac:(lia)) as [Hs _]. cbv zeta in Hs.
  pose proof (N.mul_succ_div_gt y 2 ltac:(lia)) as Hh.
  pose proof (N.Div0.mul_div_le y 2) as Hl.
  split; [|lia].
  apply N.nlt_ge. intros Hc. nia.
Qed.

Lemma sqrt_is_floor_root y : sqrt y = N.sqrt y.
Proof.
  unfold sqrt. destruct (N.ltb_spec 3 y) as [Hy|Hy].
  - destruct (sqrt_first_guess y Hy) as [Hg Hlt].
    simp sqrt_loop.
    destruct (decide (y / 2 + 1 < y)) as [Hd|Hn]; [simpl | contradiction].
    apply (sqrt_loop_root y (y / 2 + 1)); [lia | exact Hg].
  - assert (Hc : y = 0 ∨ y = 1 ∨ y = 2 ∨ y = 3) by lia.
    destruct Hc as [Hc|[Hc|[Hc|Hc]]]; rewrite Hc; reflexivity.
Qed.

Lemma newton_sum_bound y x :
  2 ≤ x → x ≤ y / 2 + 1 → y / x + x ≤ y / 2 + 2.
Proof.
  intros H2 Hx.
  pose proof (N.mul_succ_div_gt y 2 ltac:(lia)) as Hh.
  set (h := y / 2) in *.
  assert (Hq : y / x < h + 3 - x); [|lia].
  apply N.Div0.div_lt_upper_bound.
  assert (Hu : x = 2 + (x - 2)) by lia.
  assert (Hv : h + 3 - x = 2 + (h + 1 - x)) by lia.
  assert (Hy : y < 2 * (2 + (x - 2) + (h + 1 - x))) by lia.
  rewrite Hv, Hu at 1. revert Hy.
  generalize (x - 2) (h + 1 - x). intros u v Hy. nia.
Qed.

(** The checked arithmetic of the loop cannot fail: at every evaluation of
    the loop condition [x] is positive, so [y / x] divides by a non-zero
    number, and [y / x + x] is at most [y], so the sum stays in range. *)
Lemma sqrt_visits_safe y z x :
  3 < y → sqrt_visits y z x →
  N.sqrt y ≤ x ∧ 2 ≤ x ∧ x ≤ y / 2 + 1 ∧ y / x + x ≤ y.
Proof.
  intros Hy Hv.
  assert (Hroot : 2 ≤ N.sqrt y).
  { pose proof (N.sqrt_spec y ltac:(lia)) as [_ Hu]. cbv zeta in Hu.
    apply N.nlt_ge. intros Hc.
    assert (Hs : N.sqrt y = 0 ∨ N.sqrt y = 1) by lia.
    destruct Hs as [Hs|Hs]; rewrite Hs in Hu; simpl in Hu; lia. }
  pose proof (N.mul_succ_div_gt y 2 ltac:(lia)) as Hh.
  assert (Hinv : N.sqrt y ≤ x ∧ x ≤ y / 2 + 1).
  { induction Hv as [|z x Hv [IHl IHu] Hlt].
    - split; [apply sqrt_first_guess; exact Hy | reflexivity].
    - split; [apply (newton_lower y x); lia|].
      pose proof (newton_sum_bound y x ltac:(lia) IHu) as Hsum.
      fold (newton y x). unfold newton.
      pose proof (N.Div0.mul_div_le (y / x + x) 2). lia. }
  destruct Hinv as [Hl Hu].
  pose proof (newton_sum_bound y x ltac:(lia) Hu).
  pose proof (N.Div0.mul_div_le y 2). lia.
Qed.

End Sqrt.

(** C10. For every natural number [y] the Newton loop of [Math.sqrt]
    terminates ([Math.sqrt] is a total function, its loop defined by
    well-founded recursion on the decreasing [z]) and the value [z] it
    returns is the integer square root: [z * z <= y < (z + 1) * (z + 1)]. *)
Theorem sqrt_floor_root : ∀ y : uint,
  let z := Math.sqrt y in z * z ≤ y ∧ y < (z + 1) * (z + 1).
Proof.
  intros y z. unfold z. rewrite sqrt_is_floor_root.
  pose proof (N.sqrt_spec y ltac:(lia)) as H. cbv zeta in H. lia.
Qed.

(** ** DiamondPair.swap *)

Section Swap.

Import DiamondPair.

Lemma _update_reserves blk p b0 b1 r0 r1 p' :
  _update blk p b0 b1 r0 r1 = Ok p' → reserve0 p' = b0 ∧ reserve1 p' = b1.
Proof.
  unfold _update. intros H.
  ok_step H as u Hmax. ok_step H as elapsed Htime.
  ok_step H as acc Hacc. destruct acc as [acc0 acc1].
  injection H as <-. split; reflexivity.
Qed.

(** What a successful swap has checked and recorded. *)
Lemma swap_ok_inv blk sender p amount0Out amount1Out to data ext log p' :
  swap blk sender p amount0Out amount1Out to data ext = (log, Ok (p', tt)) →
  ∃ balance0 balance1,
    swap_balance0 ext = Ok balance0 ∧ swap_balance1 ext = Ok balance1 ∧
    reserve0 p' = balance0 ∧ reserve1 p' = balance1 ∧
    amountIn (reserve0 p) amount0Out balance0 * 3 ≤ balance0 * 1000 ∧
    amountIn (reserve1 p) amount1Out balance1 * 3 ≤ balance1 * 1000 ∧
    reserve0 p * reserve1 p * 1000 ^ 2 ≤
      (balance0 * 1000 - amountIn (reserve0 p) amount0Out balance0 * 3) *
      (balance1 * 1000 - amountIn (reserve1 p) amount1Out balance1 * 3).
Proof.
  unfold swap, nonReentrant. intros H.
  ok_step H as u Hguard.
  apply run_bind_ok in H as (l1 & [p1 []] & l2 & Hbody & Hret & ->).
  injection Hret as <- <-.
  cbn [getReserves set_status reserve0 reserve1 token0 token1] in Hbody.
  ok_step Hbody as u1 Hout. ok_step Hbody as u2 Hliq. ok_step Hbody as u3 Hto.
  apply run_bind_ok in Hbody as (? & [] & ? & _ & Hbody & ->).
  apply run_bind_ok in Hbody as (? & [] & ? & _ & Hbody & ->).
  apply run_bind_ok in Hbody as (? & [] & ? & _ & Hbody & ->).
  ok_step Hbody as balance0 Hb0. ok_step Hbody as balance1 Hb1.
  ok_step Hbody as left0 Hleft0. ok_step Hbody as left1 Hleft1.
  ok_step Hbody as u4 Hin.
  ok_step Hbody as scaled0 Hs0. ok_step Hbody as fee0 Hf0.
  ok_step Hbody as adj0 Ha0.
  ok_step Hbody as scaled1 Hs1. ok_step Hbody as fee1 Hf1.
  ok_step Hbody as adj1 Ha1.
  ok_step Hbody as adjK HaK. ok_step Hbody as k Hk.
  ok_step Hbody as scaledK HsK.
  ok_step Hbody as u5 HK. ok_step Hbody as p2 Hupd.
  apply lift_ok in Hbody as [[= <-] _].
  apply _update_reserves in Hupd as [Hr0 Hr1].
  exists balance0, balance1. unfold amountIn.
  apply N.leb_le in HK.
  repeat split; try assumption; lia.
Qed.

Lemma K_grows b0 b1 in0 in1 r0 r1 :
  in0 * 3 ≤ b0 * 1000 → in1 * 3 ≤ b1 * 1000 →
  r0 * r1 * 1000 ^ 2 ≤ (b0 * 1000 - in0 * 3) * (b1 * 1000 - in1 * 3) →
  r0 * r1 ≤ b0 * b1.
Proof.
  intros H0 H1 HK.
  assert (Hle : (b0 * 1000 - in0 * 3) * (b1 * 1000 - in1 * 3)
                ≤ (b0 * 1000) * (b1 * 1000))
    by (apply N.mul_le_mono; lia).
  change (1000 ^ 2) with 1000000 in HK. nia.
Qed.

Lemma swap_step_K p p' : swap_step p p' → K p ≤ K p'.
Proof.
  intros (blk & sender & a0 & a1 & to & data & ext & log & H).
  apply swap_ok_inv in H
    as (b0 & b1 & _ & _ & Hr0 & Hr1 & H0 & H1 & HK).
  unfold K. rewrite Hr0, Hr1. eapply K_grows; eassumption.
Qed.

End Swap.

(** C1. Every call to [swap] that succeeds has checked, on the balances it
    then records as the new reserves, that
    [(balance0*1000 - amount0In*3) * (balance1*1000 - amount1In*3) >=
     reserve0 * reserve1 * 1000^2] (neither subtraction truncates); hence the
    product of the reserves does not decrease across a successful swap, nor
    across any sequence of successful swaps on one pair. *)
Theorem swap_preserves_K :
  (∀ blk sender p amount0Out amount1Out to data ext log p',
     DiamondPair.swap blk sender p amount0Out amount1Out to data ext
       = (log, Ok (p', tt)) →
     ∃ balance0 balance1,
       DiamondPair.swap_balance0 ext = Ok balance0 ∧
       DiamondPair.swap_balance1 ext = Ok balance1 ∧
       DiamondPair.reserve0 p' = balance0 ∧
       DiamondPair.reserve1 p' = balance1 ∧
       let amount0In := amountIn (DiamondPair.reserve0 p) amount0Out balance0 in
       let amount1In := amountIn (DiamondPair.reserve1 p) amount1Out balance1 in
       amount0In * 3 ≤ balance0 * 1000 ∧
       amount1In * 3 ≤ balance1 * 1000 ∧
       DiamondPair.reserve0 p * DiamondPair.reserve1 p * 1000 ^ 2
         ≤ (balance0 * 1000 - amount0In * 3) * (balance1 * 1000 - amount1In * 3) ∧
       K p ≤ K p') ∧
  (∀ p p', rtc swap_step p p' → K p ≤ K p').
Proof.
  split.
  - intros blk sender p a0 a1 to data ext log p' H.
    apply swap_ok_inv in H as (b0 & b1 & Hb0 & Hb1 & Hr0 & Hr1 & H0 & H1 & Hinv).
    exists b0, b1. cbv zeta. repeat split; try assumption.
    unfold K. rewrite Hr0, Hr1. eapply K_grows; eassumption.
  - intros p p' Hrtc. induction Hrtc as [p|p q r Hstep _ IH].
    + reflexivity.
    + etransitivity; [apply swap_step_K; exact Hstep | exact IH].
Qed.

Lemma swap_preserves_K_witness :
  ∃ p', DiamondPair.swap Examples.blk0 9 Examples.pool0 0 90 7 [] Examples.ext0
          = ([CallTransfer 2 7 90], Ok (p', tt)) ∧
        K Examples.pool0 ≤ K p'.
Proof.
  eexists. split; [vm_compute; reflexivity|].
  match goal with
  | |- K _ ≤ K ?q =>
      assert (Hrun : DiamondPair.swap Examples.blk0 9 Examples.pool0 0 90 7 []
                       Examples.ext0 = ([CallTransfer 2 7 90], Ok (q, tt)))
        by (vm_compute; reflexivity)
  end.
  destruct (proj1 swap_preserves_K _ _ _ _ _ _ _ _ _ _ Hrun)
    as (b0 & b1 & _ & _ & _ & _ & _ & _ & _ & HK).
  exact HK.
Defined.

(** C8 (as amended). A re-entrant call fails on the guard. Otherwise [swap]
    fails with INSUFFICIENT_OUTPUT_AMOUNT whenever both requested outputs are
    zero, and with INSUFFICIENT_LIQUIDITY whenever some requested output is
    positive and either one is not strictly less than its reserve. In all
    three cases no call has left the pair, and the failed call leaves no
    state behind. *)
Theorem swap_output_checks :
  ∀ blk sender p amount0Out amount1Out to data ext,
    (DiamondPair._status p = DiamondPair.ENTERED →
     DiamondPair.swap blk sender p amount0Out amount1Out to data ext
       = ([], Fail (Revert "ReentrancyGuard: reentrant call"))) ∧
    (DiamondPair._status p = DiamondPair.NOT_ENTERED →
     amount0Out = 0 → amount1Out = 0 →
     DiamondPair.swap blk sender p amount0Out amount1Out to data ext
       = ([], Fail (Revert "DiamondPair: INSUFFICIENT_OUTPUT_AMOUNT"))) ∧
    (DiamondPair._status p = DiamondPair.NOT_ENTERED →
     0 < amount0Out ∨ 0 < amount1Out →
     DiamondPair.reserve0 p ≤ amount0Out ∨ DiamondPair.reserve1 p ≤ amount1Out →
     DiamondPair.swap blk sender p amount0Out amount1Out to data ext
       = ([], Fail (Revert "DiamondPair: INSUFFICIENT_LIQUIDITY"))).
Proof.
  intros blk sender p a0 a1 to data ext.
  unfold DiamondPair.swap, DiamondPair.nonReentrant. repeat split.
  - intros ->. reflexivity.
  - intros -> -> ->. reflexivity.
  - intros -> Hpos Hbig.
    cbn [DiamondPair.getReserves DiamondPair.set_status DiamondPair.reserve0
           DiamondPair.reserve1].
    replace ((0 <? a0) || (0 <? a1)) with true
      by (symmetry; apply orb_true_iff;
          destruct Hpos; [left | right]; apply N.ltb_lt; assumption).
    replace ((a0 <? DiamondPair.reserve0 p) && (a1 <? DiamondPair.reserve1 p))
      with false
      by (symmetry; apply andb_false_iff;
          destruct Hbig; [left | right]; apply N.ltb_ge; assumption).
    reflexivity.
Qed.

Lemma swap_output_checks_witness :
  DiamondPair.swap Examples.blk0 9 Examples.pool0 0 0 7 [] Examples.ext0
    = ([], Fail (Revert "DiamondPair: INSUFFICIENT_OUTPUT_AMOUNT")) ∧
  DiamondPair.swap Examples.blk0 9 Examples.pool0 0 1000 7 [] Examples.ext0
    = ([], Fail (Revert "DiamondPair: INSUFFICIENT_LIQUIDITY")) ∧
  DiamondPair.swap Examples.blk0 9 Examples.pool0_entered 0 0 7 [] Examples.ext0
    = ([], Fail (Revert "ReentrancyGuard: reentrant call")).
Proof.
  split; [|split].
  - apply (swap_output_checks Examples.blk0 9 Examples.pool0 0 0 7 [] Examples.ext0);
      reflexivity.
  - apply (swap_output_checks Examples.blk0 9 Examples.pool0 0 1000 7 [] Examples.ext0);
      [reflexivity | right; reflexivity | right; vm_compute; discriminate].
  - apply (swap_output_checks Examples.blk0 9 Examples.pool0_entered 0 0 7 []
             Examples.ext0); reflexivity.
Defined.

(** C8, as stated, fails on two kinds of state. On a pair without reserves
    the requested output [0] is not strictly less than the reserve [0], yet
    [swap(0, 0, to, data)] fails with INSUFFICIENT_OUTPUT_AMOUNT and not with
    INSUFFICIENT_LIQUIDITY; and on a pair that is inside a guarded call it
    fails on the reentrancy guard, with neither of the two. *)
Lemma swap_output_checks_counterexample :
  (¬ 0 < DiamondPair.reserve0 Examples.pair12 ∧
   DiamondPair.swap Examples.blk0 9 Examples.pair12 0 0 7 [] Examples.ext0
     ≠ ([], Fail (Revert "DiamondPair: INSUFFICIENT_LIQUIDITY"))) ∧
  DiamondPair.swap Examples.blk0 9 Examples.pool0_entered 0 0 7 [] Examples.ext0
    ≠ ([], Fail (Revert "DiamondPair: INSUFFICIENT_OUTPUT_AMOUNT")).
Proof.
  repeat split.
  - vm_compute. intros H. discriminate H.
  - vm_compute. discriminate.
  - vm_compute. discriminate.
Qed.

(** C9 (as amended). When the recipient is one of the pair's two tokens,
    [swap] fails before any call leaves the pair, so before any output is
    transferred; the failure is INVALID_TO when the three earlier checks pass
    (the call is not re-entrant, some requested output is positive, both are
    below the reserves), and the failure of the first of them that does not
    pass otherwise. *)
Theorem swap_invalid_to :
  ∀ blk sender p amount0Out amount1Out to data ext,
    to = DiamondPair.token0 p ∨ to = DiamondPair.token1 p →
    (∃ f, DiamondPair.swap blk sender p amount0Out amount1Out to data ext
            = ([], Fail f)) ∧
    (DiamondPair._status p = DiamondPair.NOT_ENTERED →
     0 < amount0Out ∨ 0 < amount1Out →
     amount0Out < DiamondPair.reserve0 p →
     amount1Out < DiamondPair.reserve1 p →
     DiamondPair.swap blk sender p amount0Out amount1Out to data ext
       = ([], Fail (Revert "DiamondPair: INVALID_TO"))).
Proof.
  intros blk sender p a0 a1 to data ext Hto.
  assert (Hcheck : negb (to =? DiamondPair.token0 p)
                   && negb (to =? DiamondPair.token1 p) = false).
  { apply andb_false_iff.
    destruct Hto as [->| ->]; [left | right]; rewrite N.eqb_refl; reflexivity. }
  unfold DiamondPair.swap, DiamondPair.nonReentrant.
  cbn [DiamondPair.getReserves DiamondPair.set_status DiamondPair.reserve0
         DiamondPair.reserve1 DiamondPair.token0 DiamondPair.token1].
  rewrite Hcheck. clear Hcheck Hto.
  split.
  - destruct (DiamondPair._status p); [|eexists; reflexivity].
    destruct ((0 <? a0) || (0 <? a1)); [|eexists; reflexivity].
    destruct ((a0 <? DiamondPair.reserve0 p) && (a1 <? DiamondPair.reserve1 p));
      eexists; reflexivity.
  - intros -> Hpos H0 H1.
    replace ((0 <? a0) || (0 <? a1)) with true
      by (symmetry; apply orb_true_iff;
          destruct Hpos; [left | right]; apply N.ltb_lt; assumption).
    apply N.ltb_lt in H0, H1. rewrite H0, H1. reflexivity.
Qed.

Lemma swap_invalid_to_witness :
  DiamondPair.swap Examples.blk0 9 Examples.pool0 0 90 1 [] Examples.ext0
    = ([], Fail (Revert "DiamondPair: INVALID_TO")).
Proof.
  apply (swap_invalid_to Examples.blk0 9 Examples.pool0 0 90 1 [] Examples.ext0).
  - left. reflexivity.
  - reflexivity.
  - right. reflexivity.
  - reflexivity.
  - reflexivity.
Defined.

(** C9, as stated, fails when an earlier check rejects the call: with both
    outputs zero and the recipient equal to [token0], the failure is
    INSUFFICIENT_OUTPUT_AMOUNT and not INVALID_TO. *)
Lemma swap_invalid_to_counterexample :
  DiamondPair.token0 Examples.pool0 = 1 ∧
  DiamondPair.swap Examples.blk0 9 Examples.pool0 0 0 1 [] Examples.ext0
    = ([], Fail (Revert "DiamondPair: INSUFFICIENT_OUTPUT_AMOUNT")) ∧
  DiamondPair.swap Examples.blk0 9 Examples.pool0 0 0 1 [] Examples.ext0
    ≠ ([], Fail (Revert "DiamondPair: INVALID_TO")).
Proof.
  split; [reflexivity|]. split.
  - vm_compute. reflexivity.
  - vm_compute. discriminate.
Qed.

(** ** DiamondPair.mint *)

Section Mint.

Import DiamondPair.

Lemma run_cases {A} (r : run A) :
  (∃ l a, r = (l, Ok a)) ∨ (∃ l f, r = (l, Fail f)).
Proof. destruct r as [l [a|f]]; eauto. Qed.

Lemma mint_to_zero e amount :
  ERC20._mint e 0 amount = Fail (Revert "ERC20: mint to the zero address").
Proof. reflexivity. Qed.

(** With no shares in existence the protocol fee mints nothing. *)
Lemma _mintFee_no_shares fv p r0 r1 p' feeOn :
  ERC20.totalSupply (shares p) = 0 →
  _mintFee fv p r0 r1 = Ok (p', feeOn) →
  ERC20.totalSupply (shares p') = 0.
Proof.
  unfold _mintFee. intros Hs H.
  destruct (negb (feeTo fv =? 0)).
  - destruct (negb (kLast p =? 0)); [|injection H as <- _; exact Hs].
    ok_step H as k Hk.
    destruct (Math.sqrt (kLast p) <? Math.sqrt (r0 * r1));
      [|injection H as <- _; exact Hs].
    ok_step H as growth Hg. ok_step H as numerator Hn.
    ok_step H as scaled Hsc. ok_step H as denominator Hd.
    ok_step H as liquidity Hl.
    rewrite Hs, N.mul_0_l, N.Div0.div_0_l in H. simpl in H.
    injection H as <- _. exact Hs.
  - destruct (negb (kLast p =? 0)); injection H as <- _; exact Hs.
Qed.

(** Without a fee collector [_mintFee] only clears [kLast]. *)
Lemma _mintFee_off fv p r0 r1 :
  feeTo fv = 0 →
  _mintFee fv p r0 r1
    = Ok (if negb (kLast p =? 0) then set_kLast 0 p else p, false).
Proof.
  intros Hfee. unfold _mintFee. rewrite Hfee. cbn [N.eqb negb].
  destruct (negb (kLast p =? 0)); reflexivity.
Qed.

Lemma mint_first_fails blk fv p to ext :
  ERC20.totalSupply (shares p) = 0 →
  ∃ log f, mint blk fv p to ext = (log, Fail f).
Proof.
  intros Hs.
  destruct (run_cases (mint blk fv p to ext))
    as [(l & [p' liq] & H)|H]; [exfalso | exact H].
  unfold mint, nonReentrant in H.
  ok_step H as u Hguard.
  apply run_bind_ok in H as (l1 & [p1 liq1] & l2 & Hbody & _ & _).
  cbn [getReserves set_status reserve0 reserve1 shares] in Hbody.
  ok_step Hbody as balance0 Hb0. ok_step Hbody as balance1 Hb1.
  ok_step Hbody as amount0 Ha0. ok_step Hbody as amount1 Ha1.
  ok_step Hbody as fee Hfee. destruct fee as [p2 feeOn].
  apply _mintFee_no_shares in Hfee; [|exact Hs].
  rewrite Hfee in Hbody. cbn [N.eqb] in Hbody.
  apply run_bind_ok in Hbody as (l3 & [p3 liq3] & l4 & Hfirst & _ & _).
  ok_step Hfirst as product Hp. ok_step Hfirst as liquidity Hl.
  ok_step Hfirst as e He.
  rewrite mint_to_zero in He. discriminate He.
Qed.

End Mint.

(** C2: what the code does on a first mint. With no shares in existence,
    every call of [mint] fails. When the deposit passes the checks made
    before the lock (no protocol fee collector, the pair not inside a guarded
    call, both balances readable and not below the reserves, the product of
    the two amounts within 256 bits and its root at least MINIMUM_LIQUIDITY),
    the failing step is the minting of MINIMUM_LIQUIDITY shares to
    [address(0)], which the inherited [_mint] rejects. *)
Theorem first_mint_reverts :
  ∀ blk fv p to ext,
    ERC20.totalSupply (DiamondPair.shares p) = 0 →
    (∃ log f, DiamondPair.mint blk fv p to ext = (log, Fail f)) ∧
    (∀ balance0 balance1,
       DiamondPair._status p = DiamondPair.NOT_ENTERED →
       feeTo fv = 0 →
       DiamondPair.mint_balance0 ext = Ok balance0 →
       DiamondPair.mint_balance1 ext = Ok balance1 →
       DiamondPair.reserve0 p ≤ balance0 →
       DiamondPair.reserve1 p ≤ balance1 →
       let amount0 := balance0 - DiamondPair.reserve0 p in
       let amount1 := balance1 - DiamondPair.reserve1 p in
       amount0 * amount1 ≤ MAX_UINT256 →
       DiamondPair.MINIMUM_LIQUIDITY ≤ Math.sqrt (amount0 * amount1) →
       DiamondPair.mint blk fv p to ext
         = ([], Fail (Revert "ERC20: mint to the zero address"))).
Proof.
  intros blk fv p to ext Hs. split; [apply mint_first_fails; exact Hs|].
  intros b0 b1 Hst Hfee Hb0 Hb1 Hr0 Hr1 a0 a1 Hmul Hroot.
  unfold DiamondPair.mint, DiamondPair.nonReentrant.
  rewrite Hst. cbn [DiamondPair.getReserves DiamondPair.set_status
                      DiamondPair.reserve0 DiamondPair.reserve1 DiamondPair.shares].
  rewrite Hb0, Hb1, !run_bind_lift_Ok.
  rewrite !sub_eq, !run_bind_lift_Ok by assumption.
  rewrite (_mintFee_off _ _ _ _ Hfee), run_bind_lift_Ok.
  match goal with
  | |- context [if ?c then DiamondPair.set_kLast _ _ else _] => destruct c
  end;
    cbn [DiamondPair.shares DiamondPair.set_kLast DiamondPair.set_status];
    rewrite Hs; cbn [N.eqb];
    fold a0 a1; rewrite mul_eq, run_bind_lift_Ok by assumption;
    rewrite sub_eq, run_bind_lift_Ok by assumption;
    reflexivity.
Qed.

Lemma first_mint_reverts_witness :
  DiamondPair.mint Examples.blk0 Examples.no_fee Examples.pair12 7
    Examples.deposit0 = ([], Fail (Revert "ERC20: mint to the zero address")).
Proof.
  refine (proj2 (first_mint_reverts Examples.blk0 Examples.no_fee
                   Examples.pair12 7 Examples.deposit0 eq_refl)
            2000 3000 eq_refl eq_refl eq_refl eq_refl _ _ _ _).
  - vm_compute. discriminate.
  - vm_compute. discriminate.
  - vm_compute. discriminate.
  - vm_compute. discriminate.
Defined.

(** ** DiamondRouter: the quoting functions *)

Section Quotes.

Import DiamondRouter.

Lemma result_bind_Ok {A B} (a : A) (k : A → result B) : Ok a ≫= k = k a.
Proof. reflexivity. Qed.

Lemma getAmountOut_value amountIn reserveIn reserveOut :
  0 < amountIn → 0 < reserveIn → 0 < reserveOut →
  amountIn * 997 * reserveOut ≤ MAX_UINT256 →
  reserveIn * 1000 + amountIn * 997 ≤ MAX_UINT256 →
  getAmountOut amountIn reserveIn reserveOut
    = Ok (amountIn * 997 * reserveOut / (reserveIn * 1000 + amountIn * 997)).
Proof.
  intros Ha Hi Ho Hn Hd. unfold getAmountOut.
  apply N.ltb_lt in Ha as Ha', Hi as Hi', Ho as Ho'.
  rewrite Ha', Hi', Ho'. cbn [andb require]. rewrite !result_bind_Ok.
  rewrite (mul_eq amountIn 997) by nia. rewrite result_bind_Ok.
  rewrite (mul_eq (amountIn * 997) reserveOut) by assumption.
  rewrite result_bind_Ok.
  rewrite (mul_eq reserveIn 1000) by lia. rewrite result_bind_Ok.
  rewrite add_eq by assumption. rewrite result_bind_Ok.
  apply div_eq. lia.
Qed.

Lemma getAmountOut_overflow amountIn reserveIn reserveOut :
  0 < amountIn → 0 < reserveIn → 0 < reserveOut →
  MAX_UINT256 < amountIn * 997 * reserveOut ∨
  MAX_UINT256 < reserveIn * 1000 + amountIn * 997 →
  getAmountOut amountIn reserveIn reserveOut = Fail (Panic 17).
Proof.
  intros Ha Hi Ho Hover. unfold getAmountOut.
  apply N.ltb_lt in Ha as Ha', Hi as Hi', Ho as Ho'.
  rewrite Ha', Hi', Ho'. cbn [andb require]. rewrite !result_bind_Ok.
  destruct (N.le_gt_cases (amountIn * 997) MAX_UINT256) as [H1|H1];
    [rewrite (mul_eq _ _ H1), result_bind_Ok
    | rewrite (mul_fail _ _ H1); reflexivity].
  destruct (N.le_gt_cases (amountIn * 997 * reserveOut) MAX_UINT256) as [H2|H2];
    [rewrite (mul_eq _ _ H2), result_bind_Ok
    | rewrite (mul_fail _ _ H2); reflexivity].
  destruct (N.le_gt_cases (reserveIn * 1000) MAX_UINT256) as [H3|H3];
    [rewrite (mul_eq _ _ H3), result_bind_Ok
    | rewrite (mul_fail _ _ H3); reflexivity].
  rewrite add_fail by lia. reflexivity.
Qed.

Lemma getAmountOut_ok_inv amountIn reserveIn reserveOut out :
  getAmountOut amountIn reserveIn reserveOut = Ok out →
  0 < amountIn ∧ 0 < reserveIn ∧ 0 < reserveOut ∧
  out = amountIn * 997 * reserveOut / (reserveIn * 1000 + amountIn * 997).
Proof.
  unfold getAmountOut. intros H.
  ok_step H as u Ha. ok_step H as u' Hr.
  ok_step H as fee Hf. ok_step H as numerator Hn.
  ok_step H as scaled Hs. ok_step H as denominator Hd.
  apply div_ok in H as [-> _].
  apply andb_true_iff in Hr as [Hi Ho].
  apply N.ltb_lt in Ha, Hi, Ho. auto.
Qed.

Lemma getAmountIn_ok_inv amountOut reserveIn reserveOut a :
  getAmountIn amountOut reserveIn reserveOut = Ok a →
  0 < amountOut ∧ 0 < reserveIn ∧ amountOut < reserveOut ∧
  a = reserveIn * amountOut * 1000 / ((reserveOut - amountOut) * 997) + 1.
Proof.
  unfold getAmountIn. intros H.
  ok_step H as u Ha. ok_step H as u' Hr.
  ok_step H as n Hn. ok_step H as numerator Hnum.
  ok_step H as d Hd. ok_step H as denominator Hden.
  ok_step H as q Hq. apply add_ok in H as [-> _].
  apply andb_true_iff in Hr as [Hi Ho].
  apply N.ltb_lt in Ha, Hi, Ho. repeat split; try assumption; lia.
Qed.

(** The arithmetic of the round trip: rounding the input up by one makes
    the forward quote reach the requested output. *)
Lemma round_trip_arith out rIn rOut :
  0 < out → out < rOut →
  let a := rIn * out * 1000 / ((rOut - out) * 997) + 1 in
  out ≤ a * 997 * rOut / (rIn * 1000 + a * 997).
Proof.
  intros Hout Hlt a.
  assert (Ha : rIn * out * 1000 < a * ((rOut - out) * 997)).
  { unfold a.
    pose proof (N.mul_succ_div_gt (rIn * out * 1000) ((rOut - out) * 997)
                  ltac:(lia)).
    lia. }
  assert (Hpos : 0 < a) by (unfold a; lia).
  clearbody a.
  apply N.div_le_lower_bound; [lia|].
  replace rOut with (out + (rOut - out)) by lia.
  generalize dependent (rOut - out). intros e Ha. nia.
Qed.

End Quotes.

(** C5 (as amended). [getAmountOut] returns
    [floor(amountIn*997*reserveOut / (reserveIn*1000 + amountIn*997))] when
    the three arguments are positive and both the numerator and the
    denominator fit in 256 bits. It fails with INSUFFICIENT_INPUT_AMOUNT when
    [amountIn = 0], with INSUFFICIENT_LIQUIDITY when [amountIn > 0] and a
    reserve is zero, and with an arithmetic panic when the arguments are
    positive but the numerator or the denominator does not fit. *)
Theorem getAmountOut_spec :
  ∀ amountIn reserveIn reserveOut,
    (amountIn = 0 →
     DiamondRouter.getAmountOut amountIn reserveIn reserveOut
       = Fail (Revert "DiamondRouter: INSUFFICIENT_INPUT_AMOUNT")) ∧
    (0 < amountIn → reserveIn = 0 ∨ reserveOut = 0 →
     DiamondRouter.getAmountOut amountIn reserveIn reserveOut
       = Fail (Revert "DiamondRouter: INSUFFICIENT_LIQUIDITY")) ∧
    (0 < amountIn → 0 < reserveIn → 0 < reserveOut →
     amountIn * 997 * reserveOut ≤ MAX_UINT256 →
     reserveIn * 1000 + amountIn * 997 ≤ MAX_UINT256 →
     DiamondRouter.getAmountOut amountIn reserveIn reserveOut
       = Ok (amountIn * 997 * reserveOut / (reserveIn * 1000 + amountIn * 997))) ∧
    (0 < amountIn → 0 < reserveIn → 0 < reserveOut →
     MAX_UINT256 < amountIn * 997 * reserveOut ∨
     MAX_UINT256 < reserveIn * 1000 + amountIn * 997 →
     DiamondRouter.getAmountOut amountIn reserveIn reserveOut = Fail (Panic 17)).
Proof.
  intros a rIn rOut. repeat split.
  - intros ->. reflexivity.
  - intros Ha Hz. unfold DiamondRouter.getAmountOut.
    apply N.ltb_lt in Ha. rewrite Ha.
    replace ((0 <? rIn) && (0 <? rOut)) with false; [reflexivity|].
    symmetry. apply andb_false_iff.
    destruct Hz as [-> | ->]; [left | right]; reflexivity.
  - apply getAmountOut_value.
  - apply getAmountOut_overflow.
Qed.

Lemma getAmountOut_spec_witness :
  DiamondRouter.getAmountOut 0 1000 1000
    = Fail (Revert "DiamondRouter: INSUFFICIENT_INPUT_AMOUNT") ∧
  DiamondRouter.getAmountOut 100 0 1000
    = Fail (Revert "DiamondRouter: INSUFFICIENT_LIQUIDITY") ∧
  DiamondRouter.getAmountOut 100 1000 1000
    = Ok (100 * 997 * 1000 / (1000 * 1000 + 100 * 997)) ∧
  DiamondRouter.getAmountOut (2 ^ 255) 1 1 = Fail (Panic 17).
Proof.
  split; [|split; [|split]].
  - apply (getAmountOut_spec 0 1000 1000). reflexivity.
  - apply (getAmountOut_spec 100 0 1000); [reflexivity | left; reflexivity].
  - apply (getAmountOut_spec 100 1000 1000);
      first [reflexivity | vm_compute; discriminate].
  - apply (getAmountOut_spec (2 ^ 255) 1 1);
      first [reflexivity | left; reflexivity].
Defined.

(** C5, as stated, fails on large arguments: with every argument positive,
    [getAmountOut(2^255, 1, 1)] does not return the quotient but fails, the
    product [amountIn * 997] leaving the 256-bit range. *)
Lemma getAmountOut_spec_counterexample :
  0 < 2 ^ 255 ∧ 0 < 1 ∧
  DiamondRouter.getAmountOut (2 ^ 255) 1 1 = Fail (Panic 17) ∧
  DiamondRouter.getAmountOut (2 ^ 255) 1 1
    ≠ Ok (2 ^ 255 * 997 * 1 / (1 * 1000 + 2 ^ 255 * 997)).
Proof.
  repeat split; try reflexivity. vm_compute. discriminate.
Qed.

(** C3 (as amended). Whenever [getAmountIn(amountOut, reserveIn, reserveOut)]
    returns an input and [getAmountOut] of that input returns an output, the
    output is at least [amountOut]; the first call returning implies that
    [amountOut] and [reserveIn] are positive and [amountOut < reserveOut]. *)
Theorem quote_round_trip :
  ∀ amountOut reserveIn reserveOut amountIn back,
    DiamondRouter.getAmountIn amountOut reserveIn reserveOut = Ok amountIn →
    DiamondRouter.getAmountOut amountIn reserveIn reserveOut = Ok back →
    amountOut ≤ back ∧
    0 < amountOut ∧ 0 < reserveIn ∧ amountOut < reserveOut.
Proof.
  intros out rIn rOut a back Hin Hout.
  apply getAmountIn_ok_inv in Hin as (Ho & Hi & Hlt & ->).
  apply getAmountOut_ok_inv in Hout as (_ & _ & _ & ->).
  split; [|auto]. apply round_trip_arith; assumption.
Qed.

Lemma quote_round_trip_witness :
  DiamondRouter.getAmountIn 100 1000 1000 = Ok 112 ∧
  DiamondRouter.getAmountOut 112 1000 1000 = Ok 100 ∧
  100 ≤ 100.
Proof.
  assert (Hin : DiamondRouter.getAmountIn 100 1000 1000 = Ok 112)
    by (vm_compute; reflexivity).
  assert (Hout : DiamondRouter.getAmountOut 112 1000 1000 = Ok 100)
    by (vm_compute; reflexivity).
  split; [exact Hin|]. split; [exact Hout|].
  exact (proj1 (quote_round_trip 100 1000 1000 112 100 Hin Hout)).
Defined.

(** C3, as stated, fails on reserves that a pair can hold: with both
    reserves [2^112 - 1] and [amountOut = 2^112 - 2], all positive and
    [amountOut < reserveOut], [getAmountIn] returns an input but
    [getAmountOut] of that input fails, its numerator leaving the 256-bit
    range; so the composition returns no output at all. *)
Lemma quote_round_trip_counterexample :
  0 < MAX_UINT112 - 1 ∧ 0 < MAX_UINT112 ∧ MAX_UINT112 - 1 < MAX_UINT112 ∧
  (DiamondRouter.getAmountIn (MAX_UINT112 - 1) MAX_UINT112 MAX_UINT112
   ≫= λ amountIn, DiamondRouter.getAmountOut amountIn MAX_UINT112 MAX_UINT112)
    = Fail (Panic 17) ∧
  is_ok (DiamondRouter.getAmountIn (MAX_UINT112 - 1) MAX_UINT112 MAX_UINT112)
    = true.
Proof.
  repeat split; vm_compute; reflexivity.
Qed.

(** ** DiamondFactory.createPair *)

Section Factory.

Lemma getPair_register f token0 token1 pair x y :
  DiamondFactory.getPair (DiamondFactory.register f token0 token1 pair) x y
  = if decide ((x, y) = (token1, token0) ∨ (x, y) = (token0, token1))
    then pair else DiamondFactory.getPair f x y.
Proof.
  unfold DiamondFactory.getPair, DiamondFactory.register.
  cbn [DiamondFactory.getPair_].
  destruct (decide ((x, y) = (token1, token0))) as [->|Hn1].
  - rewrite lookup_insert_eq. rewrite decide_True by auto. reflexivity.
  - rewrite lookup_insert_ne by congruence.
    destruct (decide ((x, y) = (token0, token1))) as [->|Hn2].
    + rewrite lookup_insert_eq. rewrite decide_True by auto. reflexivity.
    + rewrite lookup_insert_ne by congruence.
      rewrite decide_False by tauto. reflexivity.
Qed.

Lemma sorted_cases tokenA tokenB :
  tokenA ≠ tokenB →
  (sorted tokenA tokenB = (tokenA, tokenB) ∧ tokenA < tokenB) ∨
  (sorted tokenA tokenB = (tokenB, tokenA) ∧ tokenB < tokenA).
Proof.
  intros Hne. unfold sorted.
  destruct (N.ltb_spec tokenA tokenB); [left | right]; split; auto; lia.
Qed.

(** What a successful [createPair] has checked and done. *)
Lemma createPair_ok_inv w tokenA tokenB created w' pair :
  createPair w tokenA tokenB created = Ok (w', pair) →
  tokenA ≠ tokenB ∧
  fst (sorted tokenA tokenB) ≠ 0 ∧
  DiamondFactory.getPair (factoryState w)
    (fst (sorted tokenA tokenB)) (snd (sorted tokenA tokenB)) = 0 ∧
  pair = created ∧ pair ≠ 0 ∧ pairs w !! pair = None ∧
  w' = {| factoryAt := factoryAt w;
          factoryState :=
            DiamondFactory.register (factoryState w)
              (fst (sorted tokenA tokenB)) (snd (sorted tokenA tokenB)) pair;
          pairs := <[pair :=
                      DiamondPair.set_tokens
                        (fst (sorted tokenA tokenB)) (snd (sorted tokenA tokenB))
                        (DiamondPair.deployed (factoryAt w))]> (pairs w) |}.
Proof.
  unfold createPair. fold (sorted tokenA tokenB).
  destruct (sorted tokenA tokenB) as [token0 token1]. cbn [fst snd].
  intros H.
  ok_step H as u1 Hne. ok_step H as u2 Hz. ok_step H as u3 Hfree.
  ok_step H as u4 Hnew. ok_step H as p Hinit.
  unfold DiamondPair.initialize in Hinit.
  cbn [DiamondPair.deployed DiamondPair.factory] in Hinit.
  rewrite N.eqb_refl in Hinit. cbn [require] in Hinit.
  rewrite result_bind_Ok in Hinit. injection Hinit as <-.
  apply negb_true_iff, N.eqb_neq in Hne, Hz, Hnew.
  apply N.eqb_eq in Hfree.
  destruct (pairs w !! created) eqn:Hcode; [contradiction|].
  injection H as <- <-. auto 10.
Qed.

Lemma reachable_symmetric w :
  reachable w →
  ∀ x y, DiamondFactory.getPair (factoryState w) x y
         = DiamondFactory.getPair (factoryState w) y x.
Proof.
  induction 1 as [at_ deployer
                 |w tokenA tokenB created w' pair _ IH Hc
                 |w sender _feeTo f' _ IH Hs
                 |w sender n f' _ IH Hs
                 |w a p p' _ IH _]; intros x y.
  - reflexivity.
  - apply createPair_ok_inv in Hc as (_ & _ & _ & _ & _ & _ & ->).
    cbn [factoryState]. rewrite !getPair_register, IH.
    destruct (decide _) as [Hd|Hd], (decide _) as [Hd'|Hd'];
      try reflexivity; exfalso; apply Hd || apply Hd';
      clear -Hd Hd';
      destruct Hd as [[= -> ->]|[= -> ->]] || destruct Hd' as [[= -> ->]|[= -> ->]];
      auto.
  - unfold DiamondFactory.setFeeTo in Hs.
    ok_step Hs as u Ho. injection Hs as <-. apply IH.
  - unfold DiamondFactory.setProtocolFeeDenominator in Hs.
    ok_step Hs as u Ho. ok_step Hs as u' Hn. injection Hs as <-. apply IH.
  - apply IH.
Qed.

(** What a successful [createPair] leaves behind. *)
Lemma createPair_registers w tokenA tokenB created w' pair :
  createPair w tokenA tokenB created = Ok (w', pair) →
  pair ≠ 0 ∧ pairs w !! pair = None ∧
  pairs w' !! pair
    = Some (DiamondPair.set_tokens
              (fst (sorted tokenA tokenB)) (snd (sorted tokenA tokenB))
              (DiamondPair.deployed (factoryAt w))) ∧
  (∀ a, a ≠ pair → pairs w' !! a = pairs w !! a) ∧
  DiamondFactory.getPair (factoryState w') tokenA tokenB = pair ∧
  DiamondFactory.getPair (factoryState w') tokenB tokenA = pair ∧
  (∀ x y, (x, y) ≠ (tokenA, tokenB) → (x, y) ≠ (tokenB, tokenA) →
          DiamondFactory.getPair (factoryState w') x y
          = DiamondFactory.getPair (factoryState w) x y) ∧
  DiamondFactory.allPairs (factoryState w')
    = DiamondFactory.allPairs (factoryState w) ++ [pair].
Proof.
  intros H.
  apply createPair_ok_inv in H as (Hne & Hz & Hfree & _ & Hpair & Hnew & ->).
  cbn [pairs factoryState].
  split; [exact Hpair|]. split; [exact Hnew|].
  split; [apply lookup_insert_eq|].
  split; [intros a Ha; apply lookup_insert_ne; congruence|].
  rewrite !getPair_register.
  destruct (sorted_cases tokenA tokenB Hne) as [[-> _]|[-> _]]; cbn [fst snd].
  + split; [rewrite decide_True by auto; reflexivity|].
    split; [rewrite decide_True by auto; reflexivity|].
    split; [|reflexivity].
    intros x y H1 H2. rewrite getPair_register.
    rewrite decide_False by tauto. reflexivity.
  + split; [rewrite decide_True by auto; reflexivity|].
    split; [rewrite decide_True by auto; reflexivity|].
    split; [|reflexivity].
    intros x y H1 H2. rewrite getPair_register.
    rewrite decide_False by tauto. reflexivity.
Qed.

End Factory.

(** C7 (as amended). [createPair(tokenA, tokenB)] fails with
    IDENTICAL_ADDRESSES when the two tokens are equal; with ZERO_ADDRESS when
    they differ and either is [address(0)] (zero being the least address, it
    is then the smaller of the two, the only one the code checks); with
    PAIR_EXISTS, in any state the system can reach, when they differ, neither
    is zero and a pair is registered under either ordering. On success one
    pair is added: it lives at a new non-zero address, holds the two tokens
    in order, is returned by [getPair] under both orderings and appended to
    [allPairs], and no other entry and no other pair changes. *)
Theorem createPair_spec :
  ∀ w tokenA tokenB created,
    (tokenA = tokenB →
     createPair w tokenA tokenB created
       = Fail (Revert "DiamondFactory: IDENTICAL_ADDRESSES")) ∧
    (tokenA ≠ tokenB → tokenA = 0 ∨ tokenB = 0 →
     createPair w tokenA tokenB created
       = Fail (Revert "DiamondFactory: ZERO_ADDRESS")) ∧
    (reachable w → tokenA ≠ tokenB → tokenA ≠ 0 → tokenB ≠ 0 →
     DiamondFactory.getPair (factoryState w) tokenA tokenB ≠ 0 ∨
     DiamondFactory.getPair (factoryState w) tokenB tokenA ≠ 0 →
     createPair w tokenA tokenB created
       = Fail (Revert "DiamondFactory: PAIR_EXISTS")) ∧
    (∀ w' pair,
       createPair w tokenA tokenB created = Ok (w', pair) →
       pair ≠ 0 ∧ pairs w !! pair = None ∧
       pairs w' !! pair
         = Some (DiamondPair.set_tokens
                   (fst (sorted tokenA tokenB)) (snd (sorted tokenA tokenB))
                   (DiamondPair.deployed (factoryAt w))) ∧
       (∀ a, a ≠ pair → pairs w' !! a = pairs w !! a) ∧
       DiamondFactory.getPair (factoryState w') tokenA tokenB = pair ∧
       DiamondFactory.getPair (factoryState w') tokenB tokenA = pair ∧
       (∀ x y, (x, y) ≠ (tokenA, tokenB) → (x, y) ≠ (tokenB, tokenA) →
               DiamondFactory.getPair (factoryState w') x y
               = DiamondFactory.getPair (factoryState w) x y) ∧
       DiamondFactory.allPairs (factoryState w')
         = DiamondFactory.allPairs (factoryState w) ++ [pair]).
Proof.
  intros w tokenA tokenB created. split; [|split; [|split]].
  - intros ->. unfold createPair. rewrite N.eqb_refl. reflexivity.
  - intros Hne Hz. unfold createPair.
    apply N.eqb_neq in Hne as Hne'. rewrite Hne'. cbn [negb require].
    rewrite result_bind_Ok. fold (sorted tokenA tokenB).
    destruct (sorted_cases tokenA tokenB Hne) as [[-> Hlt]|[-> Hlt]];
      cbv beta iota.
    + assert (tokenA = 0) as -> by lia. reflexivity.
    + assert (tokenB = 0) as -> by lia. reflexivity.
  - intros Hreach Hne HA HB Hreg. unfold createPair.
    apply N.eqb_neq in Hne as Hne'. rewrite Hne'. cbn [negb require].
    rewrite result_bind_Ok. fold (sorted tokenA tokenB).
    pose proof (reachable_symmetric w Hreach tokenA tokenB) as Hsym.
    assert (Hboth : DiamondFactory.getPair (factoryState w) tokenA tokenB ≠ 0
                    ∧ DiamondFactory.getPair (factoryState w) tokenB tokenA ≠ 0)
      by (rewrite <- Hsym in Hreg |- *; tauto).
    destruct Hboth as [HAB HBA].
    destruct (sorted_cases tokenA tokenB Hne) as [[-> Hlt]|[-> Hlt]];
      cbv beta iota.
    + apply N.eqb_neq in HA as ->, HAB as ->. reflexivity.
    + apply N.eqb_neq in HB as ->, HBA as ->. reflexivity.
  - intros w' pair H. eapply createPair_registers. exact H.
Qed.

Lemma createPair_spec_witness :
  createPair Examples.world0 1 1 200
    = Fail (Revert "DiamondFactory: IDENTICAL_ADDRESSES") ∧
  createPair Examples.world0 0 2 200
    = Fail (Revert "DiamondFactory: ZERO_ADDRESS") ∧
  createPair Examples.world1 2 1 201
    = Fail (Revert "DiamondFactory: PAIR_EXISTS") ∧
  DiamondFactory.getPair (factoryState Examples.world1) 2 1 = 200.
Proof.
  assert (Hrun : createPair Examples.world0 1 2 200 = Ok (Examples.world1, 200))
    by (vm_compute; reflexivity).
  split; [|split; [|split]].
  - apply (createPair_spec Examples.world0 1 1 200). reflexivity.
  - apply (createPair_spec Examples.world0 0 2 200);
      [discriminate | left; reflexivity].
  - apply (createPair_spec Examples.world1 2 1 201); try discriminate.
    + eapply reach_createPair; [apply (reach_deployed 100 50) | exact Hrun].
    + left. vm_compute. discriminate.
  - pose proof (createPair_spec Examples.world0 1 2 200) as (_ & _ & _ & Hok).
    destruct (Hok _ _ Hrun) as (_ & _ & _ & _ & _ & H21 & _). exact H21.
Defined.

(** C7, as stated, fails when both arguments are [address(0)]: the call then
    fails with IDENTICAL_ADDRESSES, not with ZERO_ADDRESS. *)
Lemma createPair_spec_counterexample :
  createPair Examples.world0 0 0 200
    = Fail (Revert "DiamondFactory: IDENTICAL_ADDRESSES") ∧
  createPair Examples.world0 0 0 200
    ≠ Fail (Revert "DiamondFactory: ZERO_ADDRESS").
Proof.
  split; [vm_compute; reflexivity | vm_compute; discriminate].
Qed.

(** ** DiamondRouter.swapExactTokensForTokens *)

Section RouterSwap.

Import DiamondRouter.

Lemma getAmountsOut_ok_shape w amountIn path amounts :
  getAmountsOut w amountIn path = Ok amounts →
  (∃ first second rest, path = first :: second :: rest) ∧
  (∃ more, amounts = amountIn :: more).
Proof.
  unfold getAmountsOut. intros H.
  ok_step H as u Hlen. ok_step H as more Hmore. injection H as <-.
  split; [|eauto].
  destruct path as [|first [|second rest]]; [discriminate.. | eauto].
Qed.

End RouterSwap.

(** C4 (as amended). [swapExactTokensForTokens(amountIn, amountOutMin, path,
    to)] has no deadline among its arguments and reads the time nowhere
    before it moves tokens. It fails without having called any other contract
    exactly when the call is re-entrant, a quote along the path fails (a path
    shorter than two tokens included), or the last quoted amount is below
    [amountOutMin]; in every other case its first act is to pull [amountIn]
    of the first token of the path into the first pair, whatever the time. *)
Theorem swapExact_checks_before_transfer :
  ∀ blk self sender r w amountIn amountOutMin path to ext,
    (rejected r w amountIn amountOutMin path →
     ∃ f, DiamondRouter.swapExactTokensForTokens blk self sender r w
            amountIn amountOutMin path to ext = ([], Fail f)) ∧
    (¬ rejected r w amountIn amountOutMin path →
     ∃ first second rest log res,
       path = first :: second :: rest ∧
       DiamondRouter.swapExactTokensForTokens blk self sender r w
         amountIn amountOutMin path to ext
       = (CallTransferFrom first sender
            (DiamondRouter.pairFor w first second) amountIn :: log, res)).
Proof.
  intros blk self sender r w amountIn amountOutMin path to ext. split.
  - unfold DiamondRouter.swapExactTokensForTokens, DiamondRouter.nonReentrant.
    intros [Hst|[[f Hf]|(amounts & Ha & Hlast)]].
    + rewrite Hst. eexists. reflexivity.
    + destruct (DiamondRouter._status r); [|eexists; reflexivity].
      cbn [require]. rewrite run_bind_lift_Ok, Hf. eexists. reflexivity.
    + destruct (DiamondRouter._status r); [|eexists; reflexivity].
      cbn [require]. rewrite run_bind_lift_Ok, Ha, run_bind_lift_Ok.
      apply N.leb_gt in Hlast. rewrite Hlast. eexists. reflexivity.
  - intros Hnot. unfold rejected in Hnot.
    destruct (DiamondRouter._status r) eqn:Hst; [|tauto].
    destruct (DiamondRouter.getAmountsOut w amountIn path) as [amounts|f] eqn:Ha;
      [|exfalso; eauto].
    assert (Hmin : amountOutMin ≤ List.last amounts 0).
    { apply N.nlt_ge. intros Hlt. apply Hnot. right. right. eauto. }
    apply getAmountsOut_ok_shape in Ha as Hshape.
    destruct Hshape as [(first & second & rest & ->) (more & ->)].
    exists first, second, rest.
    enough (∃ log res,
              DiamondRouter.swapExactTokensForTokens blk self sender r w
                amountIn amountOutMin (first :: second :: rest) to ext
              = (CallTransferFrom first sender
                   (DiamondRouter.pairFor w first second) amountIn :: log, res))
      as (log & res & H) by eauto.
    unfold DiamondRouter.swapExactTokensForTokens, DiamondRouter.nonReentrant.
    rewrite Hst. cbn [require]. rewrite run_bind_lift_Ok, Ha, run_bind_lift_Ok.
    apply N.leb_le in Hmin. rewrite Hmin. cbn [require].
    rewrite run_bind_lift_Ok.
    unfold DiamondRouter._safeTransferFrom, emit.
    destruct (reply_ok (DiamondRouter.pull ext)).
    + cbn [require lift mbind run_bind app].
      destruct (DiamondRouter._swap _ _ _ _ _ _ _) as [l [w'|f]]; eauto.
    + eexists _, _. reflexivity.
Qed.

Lemma swapExact_checks_before_transfer_witness :
  ∃ f, DiamondRouter.swapExactTokensForTokens Examples.blk0 300 9
         Examples.router0 Examples.world2 100 91 [1; 2] 7 Examples.route0
       = ([], Fail f).
Proof.
  apply (swapExact_checks_before_transfer Examples.blk0 300 9 Examples.router0
           Examples.world2 100 91 [1; 2] 7 Examples.route0).
  right. right. exists [100; 90]. split; [vm_compute; reflexivity|].
  vm_compute. reflexivity.
Defined.

(** C4, as stated, fails: at time 1700000000, later than a deadline of
    1600000000, the router pulls the input and the swap goes through. *)
Lemma swapExact_deadline_counterexample :
  1600000000 < timestamp Examples.blk0 ∧
  DiamondRouter.swapExactTokensForTokens Examples.blk0 300 9
    Examples.router0 Examples.world2 100 90 [1; 2] 7 Examples.route0
  = ([CallTransferFrom 1 9 200 100; CallTransfer 2 7 90],
     Ok (set_pair Examples.world2 200 Examples.pool1, [100; 90])).
Proof.
  split; [reflexivity|]. vm_compute. reflexivity.
Qed.

(** ** DiamondRouter.addLiquidity *)

Section Liquidity.

Import DiamondRouter.

Lemma quote_ok_inv amountA reserveA reserveB q :
  quote amountA reserveA reserveB = Ok q →
  0 < amountA ∧ 0 < reserveA ∧ 0 < reserveB ∧
  q = amountA * reserveB / reserveA.
Proof.
  unfold quote. intros H.
  ok_step H as u Ha. ok_step H as u' Hr. ok_step H as n Hn.
  apply div_ok in H as [-> _].
  apply andb_true_iff in Hr as [HA HB].
  apply N.ltb_lt in Ha, HA, HB. auto.
Qed.

(** The [assert] in the second branch never fails: when the quote of
    [desiredA] exceeds [desiredB], the quote of [desiredB] is at most
    [desiredA]. *)
Lemma quote_back dA dB rA rB qB qA :
  quote dA rA rB = Ok qB → dB < qB →
  quote dB rB rA = Ok qA → qA ≤ dA.
Proof.
  intros HB Hlt HA.
  apply quote_ok_inv in HB as (_ & HrA & HrB & ->).
  apply quote_ok_inv in HA as (_ & _ & _ & ->).
  assert (H1 : (dB + 1) * rA ≤ dA * rB).
  { pose proof (N.Div0.mul_div_le (dA * rB) rA). nia. }
  apply N.lt_succ_r. apply N.Div0.div_lt_upper_bound. nia.
Qed.

(** In the second branch the quote of [desiredB] cannot overflow: it fails
    only when [desiredB] is zero. *)
Lemma quote_back_defined dA dB rA rB qB :
  quote dA rA rB = Ok qB → dB < qB → 0 < dB →
  quote dB rB rA = Ok (dB * rA / rB).
Proof.
  intros HB Hlt Hpos. unfold quote in HB |- *.
  ok_step HB as u Ha. ok_step HB as u' Hr. ok_step HB as n Hn.
  apply div_ok in HB as [-> HrA].
  apply andb_true_iff in Hr as [HA' HB'].
  apply N.ltb_lt in Hpos as Hpos'. rewrite Hpos'. cbn [require].
  rewrite result_bind_Ok, andb_comm, HB', HA'. cbn [andb require].
  rewrite result_bind_Ok.
  assert (H1 : (dB + 1) * rA ≤ dA * rB).
  { pose proof (N.Div0.mul_div_le (dA * rB) rA). nia. }
  rewrite mul_eq by nia. rewrite result_bind_Ok.
  apply div_eq. apply N.ltb_lt in HB'. lia.
Qed.

Lemma calc_no_pair w tokenA tokenB dA dB minA minB :
  pairFor w tokenA tokenB = 0 →
  _calculateLiquidityAmounts w tokenA tokenB dA dB minA minB = Ok (dA, dB).
Proof. unfold _calculateLiquidityAmounts. intros ->. reflexivity. Qed.

Lemma calc_with_reserves w tokenA tokenB dA dB minA minB rA rB :
  pairFor w tokenA tokenB ≠ 0 →
  getReserves w tokenA tokenB = Ok (rA, rB) →
  _calculateLiquidityAmounts w tokenA tokenB dA dB minA minB
  = if (rA =? 0) && (rB =? 0) then Ok (dA, dB)
    else
      quote dA rA rB ≫= λ qB,
        if qB <=? dB then
          require (minB <=? qB) "DiamondRouter: INSUFFICIENT_B_AMOUNT";;
          Ok (dA, qB)
        else
          quote dB rB rA ≫= λ qA,
            assert (qA <=? dA);;
            require (minA <=? qA) "DiamondRouter: INSUFFICIENT_A_AMOUNT";;
            Ok (qA, dB).
Proof.
  intros Hp Hr. unfold _calculateLiquidityAmounts.
  apply N.eqb_neq in Hp. rewrite Hp, Hr. reflexivity.
Qed.

Lemma silent_lift {A} (r : result A) : silent (lift r).
Proof. reflexivity. Qed.

Lemma silent_bind {A B} (m : run A) (k : A → run B) :
  silent m → (∀ a, silent (k a)) → silent (m ≫= k).
Proof.
  unfold silent. destruct m as [l [a|f]]; cbn; intros ->; [|reflexivity].
  intros Hk. specialize (Hk a). destruct (k a) as [l' r]. exact Hk.
Qed.

Lemma silent_if {A} (c : bool) (m1 m2 : run A) :
  silent m1 → silent m2 → silent (if c then m1 else m2).
Proof. destruct c; auto. Qed.

(** [mint] calls no other contract (it only reads balances and the
    factory's settings). *)
Lemma mint_silent blk fv p to ext : silent (DiamondPair.mint blk fv p to ext).
Proof.
  unfold DiamondPair.mint, DiamondPair.nonReentrant.
  repeat first
    [ apply silent_lift
    | apply silent_if
    | reflexivity
    | apply silent_bind; [|intros; try match goal with a : (_ * _)%type |- _ => destruct a end] ].
Qed.

Lemma sortTokens_sorted tokenA tokenB :
  tokenA ≠ tokenB → fst (sorted tokenA tokenB) ≠ 0 →
  sortTokens tokenA tokenB = Ok (sorted tokenA tokenB).
Proof.
  intros Hne Hz. unfold sortTokens. fold (sorted tokenA tokenB).
  apply N.eqb_neq in Hne. rewrite Hne. cbn [negb require].
  rewrite result_bind_Ok.
  destruct (sorted tokenA tokenB) as [token0 token1]. cbn [fst] in Hz.
  apply N.eqb_neq in Hz. rewrite Hz. reflexivity.
Qed.

(** A pair that [addLiquidity] has just created has no reserves, so the
    desired amounts are kept. *)
Lemma calc_after_create w tokenA tokenB created w1 pair dA dB minA minB :
  createPair w tokenA tokenB created = Ok (w1, pair) →
  _calculateLiquidityAmounts w1 tokenA tokenB dA dB minA minB = Ok (dA, dB).
Proof.
  intros Hc.
  destruct (createPair_registers _ _ _ _ _ _ Hc)
    as (Hpair & _ & Hat & _ & HAB & _).
  apply createPair_ok_inv in Hc as (Hne & Hz & _).
  assert (Hres : getReserves w1 tokenA tokenB = Ok (0, 0)).
  { unfold getReserves. rewrite (sortTokens_sorted _ _ Hne Hz).
    destruct (sorted tokenA tokenB) as [token0 token1].
    rewrite result_bind_Ok. unfold pairFor. rewrite HAB.
    apply N.eqb_neq in Hpair. rewrite Hpair.
    unfold pairAt. rewrite Hat. rewrite result_bind_Ok.
    cbn. destruct (tokenA =? token0); reflexivity. }
  rewrite (calc_with_reserves _ _ _ _ _ _ _ 0 0); [reflexivity| |exact Hres].
  unfold pairFor. rewrite HAB. exact Hpair.
Qed.

Lemma addLiquidity_unfold blk sender r w tokenA tokenB dA dB minA minB to ext
    w1 pair :
  _status r = DiamondPair.NOT_ENTERED →
  ensurePair w tokenA tokenB (created ext) = Ok (w1, pair) →
  addLiquidity blk sender r w tokenA tokenB dA dB minA minB to ext
  = (lift (_calculateLiquidityAmounts w1 tokenA tokenB dA dB minA minB)
     ≫= λ '(amountA, amountB),
       _safeTransferFrom tokenA sender pair amountA (pullA ext);;
       _safeTransferFrom tokenB sender pair amountB (pullB ext);;
       p ← lift (pairAt w1 pair);
       '(p, liquidity) ← DiamondPair.mint blk
                           (DiamondFactory.view (factoryState w1)) p to
                           (minting ext);
       mret (set_pair w1 pair p, (amountA, amountB, liquidity))).
Proof.
  intros Hst He. unfold addLiquidity, nonReentrant. rewrite Hst.
  cbn [require]. rewrite run_bind_lift_Ok.
  unfold ensurePair in He. rewrite He, run_bind_lift_Ok. reflexivity.
Qed.

End Liquidity.

(** C6. The amounts [addLiquidity] deposits are those of
    [_calculateLiquidityAmounts]. Without a pair for the two tokens, and with
    a pair whose two reserves are zero, they are the desired amounts. With a
    pair whose reserves are positive and [quote(desiredA, reserveA, reserveB)]
    returning [qB]: if [qB <= desiredB] they are [(desiredA, qB)], and the
    call fails with INSUFFICIENT_B_AMOUNT unless [qB >= minB]; otherwise, with
    [quote(desiredB, reserveB, reserveA)] returning [qA], they are
    [(qA, desiredB)], and the call fails with INSUFFICIENT_A_AMOUNT unless
    [qA >= minA] (that second quote returns whenever [desiredB] is positive,
    and the call fails with it otherwise). [addLiquidity] first creates the pair when there is none
    (the new pair has no reserves, so the desired amounts are kept), fails
    with the failure of the amount computation before it pulls any token, and
    otherwise pulls exactly the computed amounts into the pair, which are
    also the amounts it returns. *)
Theorem addLiquidity_amounts :
  ∀ w tokenA tokenB dA dB minA minB,
    (DiamondRouter.pairFor w tokenA tokenB = 0 →
     DiamondRouter._calculateLiquidityAmounts w tokenA tokenB dA dB minA minB
       = Ok (dA, dB)) ∧
    (DiamondRouter.pairFor w tokenA tokenB ≠ 0 →
     DiamondRouter.getReserves w tokenA tokenB = Ok (0, 0) →
     DiamondRouter._calculateLiquidityAmounts w tokenA tokenB dA dB minA minB
       = Ok (dA, dB)) ∧
    (∀ rA rB qB,
       DiamondRouter.pairFor w tokenA tokenB ≠ 0 →
       DiamondRouter.getReserves w tokenA tokenB = Ok (rA, rB) →
       0 < rA → 0 < rB →
       DiamondRouter.quote dA rA rB = Ok qB →
       (qB ≤ dB →
        DiamondRouter._calculateLiquidityAmounts w tokenA tokenB dA dB minA minB
          = if minB <=? qB then Ok (dA, qB)
            else Fail (Revert "DiamondRouter: INSUFFICIENT_B_AMOUNT")) ∧
       (dB < qB → ∀ qA,
        DiamondRouter.quote dB rB rA = Ok qA →
        DiamondRouter._calculateLiquidityAmounts w tokenA tokenB dA dB minA minB
          = if minA <=? qA then Ok (qA, dB)
            else Fail (Revert "DiamondRouter: INSUFFICIENT_A_AMOUNT")) ∧
       (dB < qB →
        DiamondRouter.quote dB rB rA
          = if 0 <? dB then Ok (dB * rA / rB)
            else Fail (Revert "DiamondRouter: INSUFFICIENT_AMOUNT"))) ∧
    (∀ blk sender r to ext w1 pair,
       DiamondRouter._status r = DiamondPair.NOT_ENTERED →
       ensurePair w tokenA tokenB (DiamondRouter.created ext) = Ok (w1, pair) →
       (DiamondRouter.pairFor w tokenA tokenB = 0 →
        DiamondRouter._calculateLiquidityAmounts w1 tokenA tokenB dA dB minA minB
          = Ok (dA, dB)) ∧
       (∀ f,
          DiamondRouter._calculateLiquidityAmounts w1 tokenA tokenB dA dB
            minA minB = Fail f →
          DiamondRouter.addLiquidity blk sender r w tokenA tokenB dA dB
            minA minB to ext = ([], Fail f)) ∧
       (∀ a b,
          DiamondRouter._calculateLiquidityAmounts w1 tokenA tokenB dA dB
            minA minB = Ok (a, b) →
          ∃ res,
            DiamondRouter.addLiquidity blk sender r w tokenA tokenB dA dB
              minA minB to ext
            = (if reply_ok (DiamondRouter.pullA ext)
               then [CallTransferFrom tokenA sender pair a;
                     CallTransferFrom tokenB sender pair b]
               else [CallTransferFrom tokenA sender pair a], res) ∧
            ∀ w' a' b' liquidity,
              res = Ok (w', (a', b', liquidity)) → a' = a ∧ b' = b)).
Proof.
  intros w tokenA tokenB dA dB minA minB. split; [|split; [|split]].
  - apply calc_no_pair.
  - intros Hp Hr. rewrite (calc_with_reserves _ _ _ _ _ _ _ 0 0 Hp Hr).
    reflexivity.
  - intros rA rB qB Hp Hr HrA HrB HqB.
    rewrite (calc_with_reserves _ _ _ _ _ _ _ rA rB Hp Hr).
    replace ((rA =? 0) && (rB =? 0)) with false
      by (symmetry; apply andb_false_iff; left; apply N.eqb_neq; lia).
    rewrite HqB, result_bind_Ok. split; [|split].
    + intros Hle. apply N.leb_le in Hle. rewrite Hle.
      destruct (minB <=? qB); reflexivity.
    + intros Hlt qA HqA. pose proof (quote_back _ _ _ _ _ _ HqB Hlt HqA) as Hback.
      apply N.leb_gt in Hlt. rewrite Hlt. rewrite HqA, result_bind_Ok.
      apply N.leb_le in Hback. rewrite Hback.
      destruct (minA <=? qA); reflexivity.
    + intros Hlt. destruct (N.ltb_spec 0 dB) as [Hpos|Hzero].
      * eapply quote_back_defined; eassumption.
      * assert (dB = 0) as -> by lia. reflexivity.
  - intros blk sender r to ext w1 pair Hst He.
    rewrite (addLiquidity_unfold _ _ _ _ _ _ _ _ _ _ _ _ _ _ Hst He).
    split; [|split].
    + intros Hp. unfold ensurePair in He. rewrite Hp in He.
      cbn [N.eqb] in He. eapply calc_after_create. exact He.
    + intros f ->. reflexivity.
    + intros a b ->. rewrite run_bind_lift_Ok.
      unfold DiamondRouter._safeTransferFrom, emit.
      destruct (reply_ok (DiamondRouter.pullA ext));
        [|eexists; split; [reflexivity | discriminate]].
      destruct (reply_ok (DiamondRouter.pullB ext));
        [|eexists; split; [reflexivity | discriminate]].
      destruct (pairAt w1 pair) as [p|f];
        [|eexists; split; [reflexivity | discriminate]].
      cbn -[DiamondPair.mint set_pair].
      pose proof (mint_silent blk (DiamondFactory.view (factoryState w1)) p to
                    (DiamondRouter.minting ext)) as Hsilent.
      unfold silent in Hsilent.
      destruct (DiamondPair.mint _ _ _ _ _) as [l [[p' liq]|f]];
        cbn [fst] in Hsilent; subst l.
      * eexists. split; [reflexivity|]. intros w' a' b' l' [= _ <- <- _]. auto.
      * eexists. split; [reflexivity | discriminate].
Qed.

Lemma addLiquidity_amounts_witness :
  DiamondRouter._calculateLiquidityAmounts Examples.world2 1 2 100 200 0 0
    = Ok (100, 100) ∧
  fst (DiamondRouter.addLiquidity Examples.blk0 9 Examples.router0
         Examples.world2 1 2 100 200 0 0 7 Examples.add0)
    = [CallTransferFrom 1 9 200 100; CallTransferFrom 2 9 200 100].
Proof.
  pose proof (addLiquidity_amounts Examples.world2 1 2 100 200 0 0)
    as (_ & _ & Hquoted & Hcall).
  assert (Hcalc : DiamondRouter._calculateLiquidityAmounts Examples.world2
                    1 2 100 200 0 0 = Ok (100, 100)).
  { refine (proj1 (Hquoted 1000 1000 100 _ _ _ _ _) _).
    - vm_compute. discriminate.
    - vm_compute. reflexivity.
    - reflexivity.
    - reflexivity.
    - vm_compute. reflexivity.
    - vm_compute. discriminate. }
  split; [exact Hcalc|].
  assert (Hpair : ensurePair Examples.world2 1 2
                    (DiamondRouter.created Examples.add0)
                  = Ok (Examples.world2, 200))
    by (vm_compute; reflexivity).
  destruct (Hcall Examples.blk0 9 Examples.router0 7 Examples.add0
              Examples.world2 200 eq_refl Hpair) as (_ & _ & Hpull).
  destruct (Hpull 100 100 Hcalc) as (res & -> & _). reflexivity.
Defined.

(** * Further properties *)

(** ** Math.sqrt *)

(** X1. [Math.sqrt] is exact on squares and monotone. *)
Theorem sqrt_square_monotone :
  (∀ n : uint, Math.sqrt (n * n) = n) ∧
  (∀ a b : uint, a ≤ b → Math.sqrt a ≤ Math.sqrt b).
Proof.
  split.
  - intros n. rewrite sqrt_is_floor_root.
    pose proof (N.sqrt_spec (n * n) ltac:(lia)) as [Hl Hu]. cbv zeta in Hl, Hu.
    apply N.le_antisymm.
    + apply N.nlt_ge. intros Hc.
      assert ((n + 1) * (n + 1) ≤ N.sqrt (n * n) * N.sqrt (n * n))
        by (apply N.mul_le_mono; lia).
      nia.
    + apply N.lt_succ_r. apply N.nle_gt. intros Hc.
      assert (N.succ (N.sqrt (n * n)) * N.succ (N.sqrt (n * n)) ≤ n * n)
        by (apply N.mul_le_mono; lia).
      lia.
  - intros a b Hab. rewrite !sqrt_is_floor_root. apply N.sqrt_le_mono. exact Hab.
Qed.

Lemma sqrt_square_monotone_witness : Math.sqrt 16 ≤ Math.sqrt 17.
Proof. apply (proj2 sqrt_square_monotone 16 17). vm_compute. discriminate. Defined.

(** ** DiamondPair.swap, further *)

Section SwapMore.

Import DiamondPair.

Lemma run_bind_emit_ok {B} (c : call) (k : unit → run B) l b :
emit c ≫= k = (l, Ok b) → ∃ l', k tt = (l', Ok b) ∧ l = c :: l'.
Proof.
intros H. apply run_bind_ok in H as (l1 & [] & l2 & H1 & H2 & ->).
injection H1 as <-. eauto.
Qed.

Lemma _safeTransfer_ok token to value reply l :
_safeTransfer token to value reply = (l, Ok tt) →
l = [CallTransfer token to value] ∧ reply_ok reply = true.
Proof.
unfold _safeTransfer. intros H.
apply run_bind_emit_ok in H as (l' & H & ->).
apply lift_ok in H as [H ->]. apply require_ok in H. auto.
Qed.

(** Everything a successful swap has checked, called and recorded. *)
Lemma swap_ok_full blk sender p amount0Out amount1Out to data ext log p' :
swap blk sender p amount0Out amount1Out to data ext = (log, Ok (p', tt)) →
_status p = NOT_ENTERED ∧
(0 < amount0Out ∨ 0 < amount1Out) ∧
amount0Out < reserve0 p ∧ amount1Out < reserve1 p ∧
to ≠ token0 p ∧ to ≠ token1 p ∧
log = swap_calls p sender amount0Out amount1Out to data ∧
∃ balance0 balance1 p2,
  swap_balance0 ext = Ok balance0 ∧ swap_balance1 ext = Ok balance1 ∧
  (0 < amountIn (reserve0 p) amount0Out balance0 ∨
   0 < amountIn (reserve1 p) amount1Out balance1) ∧
  amountIn (reserve0 p) amount0Out balance0 * 3 ≤ balance0 * 1000 ∧
  amountIn (reserve1 p) amount1Out balance1 * 3 ≤ balance1 * 1000 ∧
  reserve0 p * reserve1 p * 1000 ^ 2 ≤
    (balance0 * 1000 - amountIn (reserve0 p) amount0Out balance0 * 3) *
    (balance1 * 1000 - amountIn (reserve1 p) amount1Out balance1 * 3) ∧
  _update blk (set_status ENTERED p) balance0 balance1 (reserve0 p) (reserve1 p)
    = Ok p2 ∧
  p' = set_status NOT_ENTERED p2.
Proof.
unfold swap, nonReentrant. intros H.
ok_step H as u Hguard.
apply run_bind_ok in H as (l1 & [p1 []] & l2 & Hbody & Hret & ->).
injection Hret as <- <-.
cbn [getReserves set_status reserve0 reserve1 token0 token1] in Hbody.
ok_step Hbody as u1 Hout. ok_step Hbody as u2 Hliq. ok_step Hbody as u3 Hto.
apply run_bind_ok in Hbody as (la & [] & lb & Ht0 & Hbody & ->).
apply run_bind_ok in Hbody as (lc & [] & ld & Ht1 & Hbody & ->).
apply run_bind_ok in Hbody as (le & [] & lf & Hcb & Hbody & ->).
ok_step Hbody as balance0 Hb0. ok_step Hbody as balance1 Hb1.
ok_step Hbody as left0 Hleft0. ok_step Hbody as left1 Hleft1.
ok_step Hbody as u4 Hin.
ok_step Hbody as scaled0 Hs0. ok_step Hbody as fee0 Hf0.
ok_step Hbody as adj0 Ha0.
ok_step Hbody as scaled1 Hs1. ok_step Hbody as fee1 Hf1.
ok_step Hbody as adj1 Ha1.
ok_step Hbody as adjK HaK. ok_step Hbody as k Hk.
ok_step Hbody as scaledK HsK.
ok_step Hbody as u5 HK. ok_step Hbody as p2 Hupd.
apply lift_ok in Hbody as [[= <-] ->].
destruct (_status p); [|discriminate Hguard].
apply orb_true_iff in Hout. rewrite !N.ltb_lt in Hout.
apply andb_true_iff in Hliq as [Hl0 Hl1]. apply N.ltb_lt in Hl0, Hl1.
apply andb_true_iff in Hto as [Hto0 Hto1].
apply negb_true_iff, N.eqb_neq in Hto0, Hto1.
apply orb_true_iff in Hin. rewrite !N.ltb_lt in Hin.
apply N.leb_le in HK.
assert (Hla : la = if 0 <? amount0Out
                   then [CallTransfer (token0 p) to amount0Out] else []).
{ destruct (0 <? amount0Out).
  - apply _safeTransfer_ok in Ht0 as [-> _]. reflexivity.
  - injection Ht0 as <-. reflexivity. }
assert (Hlc : lc = if 0 <? amount1Out
                   then [CallTransfer (token1 p) to amount1Out] else []).
{ destruct (0 <? amount1Out).
  - apply _safeTransfer_ok in Ht1 as [-> _]. reflexivity.
  - injection Ht1 as <-. reflexivity. }
assert (Hle : le = if 0 <? N.of_nat (length data)
                   then [CallDiamondCall to sender amount0Out amount1Out data]
                   else []).
{ destruct (0 <? N.of_nat (length data)).
  - apply run_bind_emit_ok in Hcb as (l' & Hcb & ->).
    apply lift_ok in Hcb as [_ ->]. reflexivity.
  - injection Hcb as <-. reflexivity. }
repeat (split; [first [reflexivity | assumption]|]).
split.
{ unfold swap_calls. rewrite Hla, Hlc, Hle.
  rewrite ?app_nil_r, <- ?app_assoc. reflexivity. }
exists balance0, balance1, p2. unfold amountIn.
repeat (split; [first [reflexivity | assumption | lia]|]).
reflexivity.
Qed.

End SwapMore.

(** ** DiamondPair._update and DiamondPair.swap *)

Section UpdateMore.

Import DiamondPair.

Lemma accumulate_grows acc rOther rThis elapsed acc' :
accumulate acc rOther rThis elapsed = Ok acc' → acc ≤ acc'.
Proof.
unfold accumulate. destruct (0 <? rThis); [|intros [= <-]; reflexivity].
intros H. ok_step H as scaled Hs. ok_step H as price Hp.
ok_step H as delta Hd. apply add_ok in H as [-> _]. apply N.le_add_r.
Qed.

(** What a successful [_update] has checked and recorded. *)
Lemma _update_ok_inv blk p b0 b1 r0 r1 p' :
_update blk p b0 b1 r0 r1 = Ok p' →
b0 ≤ MAX_UINT112 ∧ b1 ≤ MAX_UINT112 ∧
blockTimestampLast p ≤ timestamp blk mod 2 ^ 32 ∧
reserve0 p' = b0 ∧ reserve1 p' = b1 ∧
blockTimestampLast p' = timestamp blk mod 2 ^ 32 ∧
shares p' = shares p ∧ _status p' = _status p ∧ factory p' = factory p ∧
token0 p' = token0 p ∧ token1 p' = token1 p ∧ kLast p' = kLast p ∧
price0CumulativeLast p ≤ price0CumulativeLast p' ∧
price1CumulativeLast p ≤ price1CumulativeLast p' ∧
(timestamp blk mod 2 ^ 32 = blockTimestampLast p →
 price0CumulativeLast p' = price0CumulativeLast p ∧
 price1CumulativeLast p' = price1CumulativeLast p).
Proof.
unfold _update. intros H.
ok_step H as u Hmax. ok_step H as elapsed Htime.
ok_step H as acc Hacc. destruct acc as [acc0 acc1].
injection H as <-. cbn.
apply andb_true_iff in Hmax as [H0 H1]. apply N.leb_le in H0, H1.
repeat (split; [first [reflexivity | assumption]|]).
destruct ((0 <? timestamp blk mod 2 ^ 32 - blockTimestampLast p)
          && negb (r0 =? 0) && negb (r1 =? 0)) eqn:Hbranch.
- ok_step Hacc as a0 Ha0. ok_step Hacc as a1 Ha1. injection Hacc as <- <-.
  apply accumulate_grows in Ha0, Ha1.
  split; [exact Ha0|]. split; [exact Ha1|].
  intros Heq. rewrite Heq, N.sub_diag in Hbranch. discriminate Hbranch.
- injection Hacc as <- <-. repeat split; reflexivity.
Qed.

End UpdateMore.

(** X2. A successful [swap] has sent exactly the requested outputs to [to]
    and then, when callback data was given, called [to] back; no other call
    leaves the pair. The recipient is neither token, each output is below its
    reserve, and apart from the reserves, the timestamp and the price
    accumulators the state of the pair is as before. *)
Theorem swap_effects :
  ∀ blk sender p amount0Out amount1Out to data ext log p',
    DiamondPair.swap blk sender p amount0Out amount1Out to data ext
      = (log, Ok (p', tt)) →
    log = swap_calls p sender amount0Out amount1Out to data ∧
    to ≠ DiamondPair.token0 p ∧ to ≠ DiamondPair.token1 p ∧
    amount0Out < DiamondPair.reserve0 p ∧ amount1Out < DiamondPair.reserve1 p ∧
    DiamondPair.shares p' = DiamondPair.shares p ∧
    DiamondPair._status p' = DiamondPair._status p ∧
    DiamondPair.factory p' = DiamondPair.factory p ∧
    DiamondPair.token0 p' = DiamondPair.token0 p ∧
    DiamondPair.token1 p' = DiamondPair.token1 p ∧
    DiamondPair.kLast p' = DiamondPair.kLast p.
Proof.
  intros blk sender p a0 a1 to data ext log p' H.
  apply swap_ok_full in H
    as (Hst & _ & H0 & H1 & Ht0 & Ht1 & Hlog & b0 & b1 & p2 & _ & _ & _ & _ & _
        & _ & Hupd & ->).
  apply _update_ok_inv in Hupd
    as (_ & _ & _ & _ & _ & _ & Hsh & _ & Hf & Hk0 & Hk1 & Hk & _).
  cbn in *. rewrite Hst. auto 12.
Qed.

Lemma swap_effects_witness :
  ∃ p', DiamondPair.swap Examples.blk0 9 Examples.pool0 0 90 7 [] Examples.ext0
          = ([CallTransfer 2 7 90], Ok (p', tt)) ∧
        DiamondPair.kLast p' = DiamondPair.kLast Examples.pool0.
Proof.
  eexists. split; [vm_compute; reflexivity|].
  match goal with
  | |- DiamondPair.kLast ?q = _ =>
      assert (Hrun : DiamondPair.swap Examples.blk0 9 Examples.pool0 0 90 7 []
                       Examples.ext0 = ([CallTransfer 2 7 90], Ok (q, tt)))
        by (vm_compute; reflexivity)
  end.
  apply (swap_effects _ _ _ _ _ _ _ _ _ _ Hrun).
Defined.

(** X3. A successful [swap] has taken something in: the balance of at least
    one token ends strictly above the reserve it had before. In particular a
    flash swap that only returns what it borrowed fails. *)
Theorem swap_takes_input :
  ∀ blk sender p amount0Out amount1Out to data ext log p',
    DiamondPair.swap blk sender p amount0Out amount1Out to data ext
      = (log, Ok (p', tt)) →
    DiamondPair.reserve0 p < DiamondPair.reserve0 p' ∨
    DiamondPair.reserve1 p < DiamondPair.reserve1 p'.
Proof.
  intros blk sender p a0 a1 to data ext log p' H.
  apply swap_ok_full in H
    as (_ & _ & H0 & H1 & _ & _ & _ & b0 & b1 & p2 & _ & _ & Hin & Hf0 & Hf1
        & HK & Hupd & ->).
  apply _update_ok_inv in Hupd as (_ & _ & _ & Hr0 & Hr1 & _).
  cbn [DiamondPair.set_status DiamondPair.reserve0 DiamondPair.reserve1].
  rewrite Hr0, Hr1. clear Hr0 Hr1 p2.
  destruct (N.lt_ge_cases (DiamondPair.reserve0 p) b0) as [|Hb0]; [left; assumption|].
  destruct (N.lt_ge_cases (DiamondPair.reserve1 p) b1) as [|Hb1]; [right; assumption|].
  exfalso.
  set (r0 := DiamondPair.reserve0 p) in *. set (r1 := DiamondPair.reserve1 p) in *.
  set (i0 := amountIn r0 a0 b0) in *. set (i1 := amountIn r1 a1 b1) in *.
  change (1000 ^ 2) with 1000000 in HK.
  assert (Hpos : 0 < r0 * r1) by nia.
  assert (Hx : b0 * 1000 - i0 * 3 ≤ r0 * 1000) by lia.
  assert (Hy : b1 * 1000 - i1 * 3 ≤ r1 * 1000) by lia.
  destruct Hin as [Hi|Hi].
  - assert (Hx' : b0 * 1000 - i0 * 3 + 3 ≤ r0 * 1000) by lia.
    assert (Hm : (b0 * 1000 - i0 * 3) * (b1 * 1000 - i1 * 3)
                 ≤ (r0 * 1000 - 3) * (r1 * 1000))
      by (apply N.mul_le_mono; lia).
    nia.
  - assert (Hy' : b1 * 1000 - i1 * 3 + 3 ≤ r1 * 1000) by lia.
    assert (Hm : (b0 * 1000 - i0 * 3) * (b1 * 1000 - i1 * 3)
                 ≤ (r0 * 1000) * (r1 * 1000 - 3))
      by (apply N.mul_le_mono; lia).
    nia.
Qed.

Lemma swap_takes_input_witness :
  ∃ p', DiamondPair.swap Examples.blk0 9 Examples.pool0 0 90 7 [] Examples.ext0
          = ([CallTransfer 2 7 90], Ok (p', tt)) ∧
        (DiamondPair.reserve0 Examples.pool0 < DiamondPair.reserve0 p' ∨
         DiamondPair.reserve1 Examples.pool0 < DiamondPair.reserve1 p').
Proof.
  eexists. split; [vm_compute; reflexivity|].
  match goal with
  | |- _ < DiamondPair.reserve0 ?q ∨ _ =>
      assert (Hrun : DiamondPair.swap Examples.blk0 9 Examples.pool0 0 90 7 []
                       Examples.ext0 = ([CallTransfer 2 7 90], Ok (q, tt)))
        by (vm_compute; reflexivity)
  end.
  apply (swap_takes_input _ _ _ _ _ _ _ _ _ _ Hrun).
Defined.

(** ** DiamondPair.sync, DiamondPair.skim and the protocol fee *)

Section PairMore.

Import DiamondPair.

Lemma nonReentrant_ok {A} p (body : t → run (t * A)) l p' a :
nonReentrant p body = (l, Ok (p', a)) →
_status p = NOT_ENTERED ∧
∃ p1, body (set_status ENTERED p) = (l, Ok (p1, a)) ∧
      p' = set_status NOT_ENTERED p1.
Proof.
unfold nonReentrant. intros H. ok_step H as u Hg.
apply run_bind_ok in H as (l1 & [p1 a1] & l2 & Hbody & Hret & ->).
injection Hret as <- <- <-. rewrite app_nil_r.
split; [destruct (_status p); [reflexivity | discriminate]|].
exists p1. split; [exact Hbody | reflexivity].
Qed.

Lemma nonReentrant_fails {A} p (body : t → run (t * A)) l f :
body (set_status ENTERED p) = (l, Fail f) →
_status p = NOT_ENTERED →
nonReentrant p body = (l, Fail f).
Proof.
intros Hbody Hst. unfold nonReentrant. rewrite Hst. cbn. rewrite Hbody.
reflexivity.
Qed.

Lemma set_status_back p :
_status p = NOT_ENTERED → set_status NOT_ENTERED (set_status ENTERED p) = p.
Proof. destruct p. cbn. intros ->. reflexivity. Qed.

(** What a successful [sync] has read, checked and recorded. *)
Lemma sync_ok_inv blk p ext log p' :
sync blk p ext = (log, Ok (p', tt)) →
log = [] ∧ _status p = NOT_ENTERED ∧
∃ balance0 balance1 p2,
  sync_balance0 ext = Ok balance0 ∧ sync_balance1 ext = Ok balance1 ∧
  _update blk (set_status ENTERED p) balance0 balance1 (reserve0 p) (reserve1 p)
    = Ok p2 ∧
  p' = set_status NOT_ENTERED p2.
Proof.
intros H. apply nonReentrant_ok in H as (Hst & p1 & H & ->).
cbn [set_status reserve0 reserve1] in H.
ok_step H as balance0 Hb0. ok_step H as balance1 Hb1. ok_step H as p2 Hupd.
injection H as <- <-. eauto 10.
Qed.

(** What a successful [skim] has read and sent. *)
Lemma skim_ok_inv p to ext log p' :
skim p to ext = (log, Ok (p', tt)) →
_status p = NOT_ENTERED ∧ p' = p ∧
∃ balance0 balance1,
  skim_balance0 ext = Ok balance0 ∧ skim_balance1 ext = Ok balance1 ∧
  reserve0 p ≤ balance0 ∧ reserve1 p ≤ balance1 ∧
  reply_ok (skim_transfer0 ext) = true ∧ reply_ok (skim_transfer1 ext) = true ∧
  log = [CallTransfer (token0 p) to (balance0 - reserve0 p);
         CallTransfer (token1 p) to (balance1 - reserve1 p)].
Proof.
intros H. apply nonReentrant_ok in H as (Hst & p1 & H & ->).
cbn [set_status reserve0 reserve1 token0 token1] in H.
ok_step H as balance0 Hb0. ok_step H as excess0 He0.
apply run_bind_ok in H as (l1 & [] & l2 & Ht0 & H & ->).
apply _safeTransfer_ok in Ht0 as [-> Hr0].
ok_step H as balance1 Hb1. ok_step H as excess1 He1.
apply run_bind_ok in H as (l3 & [] & l4 & Ht1 & H & ->).
apply _safeTransfer_ok in Ht1 as [-> Hr1].
injection H as <- <-.
split; [exact Hst|]. split; [apply set_status_back, Hst|].
exists balance0, balance1.
repeat (split; [assumption|]). reflexivity.
Qed.

(** What [_mintFee] leaves behind when it succeeds. *)
Lemma _mintFee_ok_inv fv p r0 r1 p' feeOn :
_mintFee fv p r0 r1 = Ok (p', feeOn) →
feeOn = negb (feeTo fv =? 0) ∧
((p' = p ∧ (feeOn = false → kLast p = 0)) ∨
 (feeOn = false ∧ p' = set_kLast 0 p) ∨
 ∃ liquidity e,
   feeOn = true ∧ kLast p ≠ 0 ∧ r0 * r1 ≤ MAX_UINT256 ∧
   Math.sqrt (kLast p) < Math.sqrt (r0 * r1) ∧
   liquidity
     = ERC20.totalSupply (shares p) * (Math.sqrt (r0 * r1) - Math.sqrt (kLast p))
       / (Math.sqrt (r0 * r1) * protocolFeeDenominator fv + Math.sqrt (kLast p)) ∧
   0 < liquidity ∧
   ERC20._mint (shares p) (feeTo fv) liquidity = Ok e ∧
   p' = set_shares e p).
Proof.
unfold _mintFee. intros H.
destruct (negb (feeTo fv =? 0)) eqn:Hfee.
- destruct (negb (kLast p =? 0)) eqn:Hk;
    [|injection H as <- <-; split; [reflexivity | left; split; [reflexivity | discriminate]]].
  ok_step H as k Hmul.
  destruct (Math.sqrt (kLast p) <? Math.sqrt (r0 * r1)) eqn:Hroot;
    [|injection H as <- <-; split; [reflexivity | left; split; [reflexivity | discriminate]]].
  ok_step H as growth Hg. ok_step H as numerator Hn.
  ok_step H as scaled Hsc. ok_step H as denominator Hd.
  ok_step H as liquidity Hl.
  destruct (0 <? _) eqn:Hpos in H;
    [|injection H as <- <-; split; [reflexivity | left; split; [reflexivity | discriminate]]].
  ok_step H as e He. injection H as <- <-.
  split; [reflexivity|]. right. right.
  apply negb_true_iff, N.eqb_neq in Hk.
  apply N.ltb_lt in Hroot, Hpos.
  eexists _, e. split; [reflexivity|]. split; [exact Hk|].
  split; [exact Hmul|]. split; [exact Hroot|].
  split; [reflexivity|]. split; [exact Hpos|].
  split; [exact He | reflexivity].
- destruct (negb (kLast p =? 0)) eqn:Hk;
    injection H as <- <-; (split; [reflexivity|]); [auto|].
  apply negb_false_iff, N.eqb_eq in Hk. auto.
Qed.

Lemma _mint_ok_inv e account amount e' :
ERC20._mint e account amount = Ok e' →
account ≠ 0 ∧
ERC20.totalSupply e' = ERC20.totalSupply e + amount ∧
ERC20.balanceOf e' account = ERC20.balanceOf e account + amount ∧
∀ other, other ≠ account → ERC20.balanceOf e' other = ERC20.balanceOf e other.
Proof.
unfold ERC20._mint. intros H. ok_step H as u Hz. ok_step H as supply Hs.
injection H as <-. unfold ERC20.balanceOf, ERC20.totalSupply. cbn.
apply negb_true_iff, N.eqb_neq in Hz.
split; [exact Hz|]. split; [reflexivity|].
split; [rewrite lookup_insert_eq; reflexivity|].
intros other Ho. rewrite lookup_insert_ne by congruence. reflexivity.
Qed.

(** The share of the protocol fee: [liquidity * denominator ≤ supply]. *)
Lemma fee_share_bound supply rootK rootKLast denominator :
rootKLast < rootK →
0 < denominator →
supply * (rootK - rootKLast) / (rootK * denominator + rootKLast)
  ≤ supply / denominator.
Proof.
intros Hroot Hden.
set (q := supply * (rootK - rootKLast) / (rootK * denominator + rootKLast)).
assert (Hq : q * (rootK * denominator + rootKLast) ≤ supply * (rootK - rootKLast)).
{ unfold q. rewrite N.mul_comm. apply N.Div0.mul_div_le. }
apply N.div_le_lower_bound; [lia|].
assert (Hle : (denominator * q) * rootK ≤ supply * rootK) by nia.
apply N.mul_le_mono_pos_r in Hle; [exact Hle | lia].
Qed.

End PairMore.

(** X4. A successful [sync] makes no call that changes another contract,
    records the two balances it read as the reserves, both within 112 bits,
    stamps the pair with the block time modulo [2 ^ 32], never lowers a
    price accumulator, leaves both accumulators alone when no time has
    passed, and changes neither the shares nor [kLast]. *)
Theorem sync_records_balances :
  ∀ blk p ext log p',
    DiamondPair.sync blk p ext = (log, Ok (p', tt)) →
    log = [] ∧
    DiamondPair.sync_balance0 ext = Ok (DiamondPair.reserve0 p') ∧
    DiamondPair.sync_balance1 ext = Ok (DiamondPair.reserve1 p') ∧
    DiamondPair.reserve0 p' ≤ MAX_UINT112 ∧
    DiamondPair.reserve1 p' ≤ MAX_UINT112 ∧
    DiamondPair.blockTimestampLast p' = timestamp blk mod 2 ^ 32 ∧
    DiamondPair.price0CumulativeLast p ≤ DiamondPair.price0CumulativeLast p' ∧
    DiamondPair.price1CumulativeLast p ≤ DiamondPair.price1CumulativeLast p' ∧
    (timestamp blk mod 2 ^ 32 = DiamondPair.blockTimestampLast p →
     DiamondPair.price0CumulativeLast p' = DiamondPair.price0CumulativeLast p ∧
     DiamondPair.price1CumulativeLast p' = DiamondPair.price1CumulativeLast p) ∧
    DiamondPair.shares p' = DiamondPair.shares p ∧
    DiamondPair.kLast p' = DiamondPair.kLast p.
Proof.
  intros blk p ext log p' H.
  apply sync_ok_inv in H as (-> & Hst & b0 & b1 & p2 & Hb0 & Hb1 & Hupd & ->).
  apply _update_ok_inv in Hupd
    as (H0 & H1 & _ & Hr0 & Hr1 & Ht & Hsh & _ & _ & _ & _ & Hk & Hp0 & Hp1 & Hsame).
  cbn in *. rewrite Hr0, Hr1. auto 12.
Qed.

Lemma sync_records_balances_witness :
  ∃ p', DiamondPair.sync Examples.blk0 Examples.pool0 MoreExamples.balances0
          = ([], Ok (p', tt)) ∧
        DiamondPair.reserve0 p' ≤ MAX_UINT112.
Proof.
  eexists. split; [vm_compute; reflexivity|].
  match goal with
  | |- DiamondPair.reserve0 ?q ≤ _ =>
      assert (Hrun : DiamondPair.sync Examples.blk0 Examples.pool0
                       MoreExamples.balances0 = ([], Ok (q, tt)))
        by (vm_compute; reflexivity)
  end.
  apply (sync_records_balances _ _ _ _ _ Hrun).
Defined.

(** X5. The block time is taken modulo [2 ^ 32] and the time elapsed is a
    checked subtraction: once the reduced block time is below the stamp of
    the pair, [_update] fails, with the arithmetic panic when both balances
    fit 112 bits, and neither [swap] nor [sync] can succeed. *)
Theorem update_clock_wrap :
  ∀ blk p,
    timestamp blk mod 2 ^ 32 < DiamondPair.blockTimestampLast p →
    (∀ balance0 balance1 r0 r1,
       balance0 ≤ MAX_UINT112 → balance1 ≤ MAX_UINT112 →
       DiamondPair._update blk p balance0 balance1 r0 r1 = Fail (Panic 17)) ∧
    (∀ sender amount0Out amount1Out to data ext log x,
       DiamondPair.swap blk sender p amount0Out amount1Out to data ext
         ≠ (log, Ok x)) ∧
    (∀ ext log x, DiamondPair.sync blk p ext ≠ (log, Ok x)).
Proof.
  intros blk p Hwrap. split; [|split].
  - intros b0 b1 r0 r1 H0 H1. unfold DiamondPair._update.
    apply N.leb_le in H0, H1. rewrite H0, H1. cbn [andb require].
    rewrite result_bind_Ok. unfold SafeMath.sub.
    apply N.leb_gt in Hwrap. rewrite Hwrap. reflexivity.
  - intros sender a0 a1 to data ext log [p' []] H.
    apply swap_ok_full in H
      as (_ & _ & _ & _ & _ & _ & _ & b0 & b1 & p2 & _ & _ & _ & _ & _ & _ & Hupd & _).
    apply _update_ok_inv in Hupd as (_ & _ & Ht & _). cbn in Ht. lia.
  - intros ext log [p' []] H.
    apply sync_ok_inv in H as (_ & _ & b0 & b1 & p2 & _ & _ & Hupd & _).
    apply _update_ok_inv in Hupd as (_ & _ & Ht & _). cbn in Ht. lia.
Qed.

Lemma update_clock_wrap_witness :
  DiamondPair._update MoreExamples.blk_wrapped Examples.pool1 1100 910 1100 910
    = Fail (Panic 17).
Proof.
  assert (Hwrap : timestamp MoreExamples.blk_wrapped mod 2 ^ 32
                  < DiamondPair.blockTimestampLast Examples.pool1)
    by (vm_compute; reflexivity).
  apply (update_clock_wrap _ _ Hwrap); vm_compute; discriminate.
Defined.

(** X6. [skim] changes nothing in the pair: when it succeeds the state is
    the one before, each balance read was at least the reserve, and the
    calls made are exactly the two transfers of the excess to [to], token0
    first. *)
Theorem skim_sends_excess :
  ∀ p to ext log p',
    DiamondPair.skim p to ext = (log, Ok (p', tt)) →
    p' = p ∧
    ∃ balance0 balance1,
      DiamondPair.skim_balance0 ext = Ok balance0 ∧
      DiamondPair.skim_balance1 ext = Ok balance1 ∧
      DiamondPair.reserve0 p ≤ balance0 ∧ DiamondPair.reserve1 p ≤ balance1 ∧
      log = [CallTransfer (DiamondPair.token0 p) to (balance0 - DiamondPair.reserve0 p);
             CallTransfer (DiamondPair.token1 p) to (balance1 - DiamondPair.reserve1 p)].
Proof.
  intros p to ext log p' H.
  apply skim_ok_inv in H
    as (_ & -> & b0 & b1 & Hb0 & Hb1 & H0 & H1 & _ & _ & ->).
  split; [reflexivity|]. exists b0, b1. auto.
Qed.

Lemma skim_sends_excess_witness :
  DiamondPair.skim Examples.pool0 7 MoreExamples.skim0
    = ([CallTransfer 1 7 100; CallTransfer 2 7 0], Ok (Examples.pool0, tt)) ∧
  ∃ balance0 balance1,
    DiamondPair.skim_balance0 MoreExamples.skim0 = Ok balance0 ∧
    DiamondPair.skim_balance1 MoreExamples.skim0 = Ok balance1 ∧
    DiamondPair.reserve0 Examples.pool0 ≤ balance0 ∧
    DiamondPair.reserve1 Examples.pool0 ≤ balance1 ∧
    [CallTransfer 1 7 100; CallTransfer 2 7 0]
    = [CallTransfer (DiamondPair.token0 Examples.pool0) 7
         (balance0 - DiamondPair.reserve0 Examples.pool0);
       CallTransfer (DiamondPair.token1 Examples.pool0) 7
         (balance1 - DiamondPair.reserve1 Examples.pool0)].
Proof.
  assert (Hrun : DiamondPair.skim Examples.pool0 7 MoreExamples.skim0
                 = ([CallTransfer 1 7 100; CallTransfer 2 7 0],
                    Ok (Examples.pool0, tt)))
    by (vm_compute; reflexivity).
  split; [exact Hrun|].
  exact (proj2 (skim_sends_excess _ _ _ _ _ Hrun)).
Defined.

(** X7. A balance below the reserve stops [skim]: with token0's balance
    short it fails with the arithmetic panic before any transfer, and with
    only token1's balance short it fails after the transfer of token0's
    excess. *)
Theorem skim_short_balance :
  ∀ p to ext balance0,
    DiamondPair._status p = DiamondPair.NOT_ENTERED →
    DiamondPair.skim_balance0 ext = Ok balance0 →
    (balance0 < DiamondPair.reserve0 p →
     DiamondPair.skim p to ext = ([], Fail (Panic 17))) ∧
    (∀ balance1,
       DiamondPair.reserve0 p ≤ balance0 →
       reply_ok (DiamondPair.skim_transfer0 ext) = true →
       DiamondPair.skim_balance1 ext = Ok balance1 →
       balance1 < DiamondPair.reserve1 p →
       DiamondPair.skim p to ext
         = ([CallTransfer (DiamondPair.token0 p) to (balance0 - DiamondPair.reserve0 p)],
            Fail (Panic 17))).
Proof.
  intros p to ext b0 Hst Hb0. split.
  - intros Hlt. apply nonReentrant_fails; [|exact Hst].
    cbn [DiamondPair.set_status DiamondPair.reserve0 DiamondPair.token0].
    rewrite Hb0, run_bind_lift_Ok. unfold SafeMath.sub.
    apply N.leb_gt in Hlt. rewrite Hlt. reflexivity.
  - intros b1 Hle Hr0 Hb1 Hlt. apply nonReentrant_fails; [|exact Hst].
    cbn [DiamondPair.set_status DiamondPair.reserve0 DiamondPair.reserve1
         DiamondPair.token0 DiamondPair.token1].
    rewrite Hb0, run_bind_lift_Ok, (sub_eq _ _ Hle), run_bind_lift_Ok.
    unfold DiamondPair._safeTransfer. rewrite Hr0, Hb1.
    unfold SafeMath.sub. apply N.leb_gt in Hlt. cbn. rewrite Hlt. reflexivity.
Qed.

Lemma skim_short_balance_witness :
  DiamondPair.skim MoreExamples.pool_grown 7 MoreExamples.skim0
    = ([], Fail (Panic 17)).
Proof.
  apply (skim_short_balance MoreExamples.pool_grown 7 MoreExamples.skim0 1100
           eq_refl eq_refl).
  vm_compute. reflexivity.
Defined.

(** ** Shares: _mintFee, burn, and the life of a pair *)

(** X8. The protocol fee. When [_mintFee] succeeds it reports whether a fee
    collector is set, never lowers the share supply, mints to nobody but the
    collector, mints nothing when there is no collector or when the root of
    the product of the reserves has not grown past the root of [kLast], and
    with a positive denominator mints at most the supply divided by the
    denominator. Without a collector [kLast] is left at zero. *)
Theorem _mintFee_bounded :
  ∀ fv p r0 r1 p' feeOn,
    DiamondPair._mintFee fv p r0 r1 = Ok (p', feeOn) →
    feeOn = negb (feeTo fv =? 0) ∧
    ERC20.totalSupply (DiamondPair.shares p)
      ≤ ERC20.totalSupply (DiamondPair.shares p') ∧
    (0 < protocolFeeDenominator fv →
     ERC20.totalSupply (DiamondPair.shares p')
       ≤ ERC20.totalSupply (DiamondPair.shares p)
         + ERC20.totalSupply (DiamondPair.shares p) / protocolFeeDenominator fv) ∧
    (∀ account, account ≠ feeTo fv →
       ERC20.balanceOf (DiamondPair.shares p') account
         = ERC20.balanceOf (DiamondPair.shares p) account) ∧
    (Math.sqrt (r0 * r1) ≤ Math.sqrt (DiamondPair.kLast p) →
     DiamondPair.shares p' = DiamondPair.shares p) ∧
    (feeOn = false →
     DiamondPair.shares p' = DiamondPair.shares p ∧ DiamondPair.kLast p' = 0) ∧
    DiamondPair.reserve0 p' = DiamondPair.reserve0 p ∧
    DiamondPair.reserve1 p' = DiamondPair.reserve1 p.
Proof.
  intros fv p r0 r1 p' feeOn H.
  apply _mintFee_ok_inv in H
    as (Hon & [(-> & Hzero)|[(Hoff & ->)|(liq & e & Hfee & Hk & Hmul & Hroot & Hliq
                                          & Hpos & Hmint & ->)]]).
  - split; [exact Hon|]. split; [reflexivity|].
    split; [intros _; apply N.le_add_r|].
    split; [reflexivity|]. split; [reflexivity|]. split; [|split; reflexivity].
    intros Hoff. split; [reflexivity | exact (Hzero Hoff)].
  - destruct p. cbn. split; [exact Hon|]. split; [reflexivity|].
    split; [intros _; apply N.le_add_r|].
    split; [reflexivity|]. split; [reflexivity|]. auto.
  - apply _mint_ok_inv in Hmint as (Hz & Hsup & Hbal & Hother).
    destruct p. cbn in *.
    split; [exact Hon|]. split; [lia|]. split.
    { intros Hden. rewrite Hsup. apply N.add_le_mono_l.
      rewrite Hliq. apply fee_share_bound; assumption. }
    split; [exact Hother|]. split; [intros Hle; lia|].
    split; [intros Hoff; congruence | split; reflexivity].
Qed.

Lemma _mintFee_bounded_witness :
  ∃ p', DiamondPair._mintFee MoreExamples.with_fee MoreExamples.pool_grown 2000 2000
          = Ok (p', true) ∧
        ERC20.totalSupply (DiamondPair.shares p') = 1090 ∧
        ERC20.totalSupply (DiamondPair.shares MoreExamples.pool_grown)
          ≤ ERC20.totalSupply (DiamondPair.shares p').
Proof.
  eexists. split; [vm_compute; reflexivity|]. split; [vm_compute; reflexivity|].
  match goal with
  | |- _ ≤ ERC20.totalSupply (DiamondPair.shares ?q) =>
      assert (Hrun : DiamondPair._mintFee MoreExamples.with_fee
                       MoreExamples.pool_grown 2000 2000 = Ok (q, true))
        by (vm_compute; reflexivity)
  end.
  exact (proj1 (proj2 (_mintFee_bounded _ _ _ _ _ _ Hrun))).
Defined.

Section BurnMore.

Import DiamondPair.

(** Without shares [burn] divides by a zero supply. *)
Lemma burn_no_shares blk fv self p to ext :
ERC20.totalSupply (shares p) = 0 →
∃ f, burn blk fv self p to ext = ([], Fail f).
Proof.
intros Hs. unfold burn, nonReentrant.
destruct (_status p) eqn:Hst; [|eexists; reflexivity].
cbn [require]. rewrite run_bind_lift_Ok.
cbn [getReserves set_status reserve0 reserve1 token0 token1 shares].
destruct (burn_balance0 ext) as [b0|f0]; [|eexists; reflexivity].
rewrite run_bind_lift_Ok.
destruct (burn_balance1 ext) as [b1|f1]; [|eexists; reflexivity].
rewrite run_bind_lift_Ok.
destruct (_mintFee fv (set_status ENTERED p) (reserve0 p) (reserve1 p))
  as [[p1 feeOn]|f] eqn:Hfee; [|eexists; reflexivity].
apply _mintFee_no_shares in Hfee; [|destruct p; exact Hs].
rewrite run_bind_lift_Ok. rewrite Hfee.
destruct (SafeMath.mul (ERC20.balanceOf (shares p) self) b0) as [n0|f];
  [|eexists; reflexivity].
rewrite run_bind_lift_Ok. eexists. reflexivity.
Qed.

(** No function of the pair creates shares out of none, and the reserves and
  the time stamp stay within their declared widths. *)
Lemma pair_step_inv p p' :
pair_step p p' →
ERC20.totalSupply (shares p) = 0 ∧ kLast p = 0 ∧
reserve0 p ≤ MAX_UINT112 ∧ reserve1 p ≤ MAX_UINT112 ∧
blockTimestampLast p < 2 ^ 32 →
ERC20.totalSupply (shares p') = 0 ∧ kLast p' = 0 ∧
reserve0 p' ≤ MAX_UINT112 ∧ reserve1 p' ≤ MAX_UINT112 ∧
blockTimestampLast p' < 2 ^ 32.
Proof.
intros Hstep (Hs & Hk & H0 & H1 & Ht).
assert (Hmod : ∀ blk, timestamp blk mod 2 ^ 32 < 2 ^ 32)
  by (intros blk; apply N.mod_lt; discriminate).
destruct Hstep
  as [sender p t0 t1 p' H | blk fv p to ext log p' liq H
      | blk fv self p to ext log p' amounts H
      | blk sender p a0 a1 to data ext log p' H
      | p to ext log p' H | blk p ext log p' H].
- unfold initialize in H. ok_step H as u Hf. injection H as <-.
  destruct p. cbn in *. auto.
- destruct (mint_first_fails blk fv p to ext Hs) as (l & f & Hfail).
  rewrite Hfail in H. discriminate H.
- destruct (burn_no_shares blk fv self p to ext Hs) as (f & Hfail).
  rewrite Hfail in H. discriminate H.
- apply swap_ok_full in H
    as (_ & _ & _ & _ & _ & _ & _ & b0 & b1 & p2 & _ & _ & _ & _ & _ & _
        & Hupd & ->).
  apply _update_ok_inv in Hupd
    as (Hb0 & Hb1 & _ & Hr0 & Hr1 & Hts & Hsh & _ & _ & _ & _ & Hkk & _).
  cbn in *. rewrite Hsh, Hkk, Hr0, Hr1, Hts. auto.
- apply skim_ok_inv in H as (_ & -> & _). auto.
- apply sync_ok_inv in H as (_ & _ & b0 & b1 & p2 & _ & _ & Hupd & ->).
  apply _update_ok_inv in Hupd
    as (Hb0 & Hb1 & _ & Hr0 & Hr1 & Hts & Hsh & _ & _ & _ & _ & Hkk & _).
  cbn in *. rewrite Hsh, Hkk, Hr0, Hr1, Hts. auto.
Qed.

End BurnMore.

(** X9. With no shares in existence [burn] cannot succeed: it fails before
    it calls any token. When the guard is free, both balances are read and
    the product with the pair's own share balance fits, the failure is the
    division by the zero supply. *)
Theorem burn_without_shares :
  ∀ blk fv self p to ext,
    ERC20.totalSupply (DiamondPair.shares p) = 0 →
    (∃ f, DiamondPair.burn blk fv self p to ext = ([], Fail f)) ∧
    (∀ balance0 balance1,
       DiamondPair._status p = DiamondPair.NOT_ENTERED →
       DiamondPair.burn_balance0 ext = Ok balance0 →
       DiamondPair.burn_balance1 ext = Ok balance1 →
       feeTo fv = 0 →
       ERC20.balanceOf (DiamondPair.shares p) self * balance0 ≤ MAX_UINT256 →
       DiamondPair.burn blk fv self p to ext = ([], Fail (Panic 18))).
Proof.
  intros blk fv self p to ext Hs. split; [apply burn_no_shares, Hs|].
  intros b0 b1 Hst Hb0 Hb1 Hfee Hfit.
  unfold DiamondPair.burn, DiamondPair.nonReentrant. rewrite Hst.
  cbn [require]. rewrite run_bind_lift_Ok.
  cbn [DiamondPair.getReserves DiamondPair.set_status DiamondPair.reserve0
       DiamondPair.reserve1 DiamondPair.token0 DiamondPair.token1
       DiamondPair.shares].
  rewrite Hb0, run_bind_lift_Ok, Hb1, run_bind_lift_Ok.
  rewrite (_mintFee_off _ _ _ _ Hfee), run_bind_lift_Ok.
  rewrite (mul_eq _ _ Hfit), run_bind_lift_Ok.
  destruct (negb _); destruct p; cbn in Hs |- *; rewrite Hs; reflexivity.
Qed.

Lemma burn_without_shares_witness :
  DiamondPair.burn Examples.blk0 Examples.no_fee 200 Examples.pool0 7
    MoreExamples.burn0 = ([], Fail (Panic 18)).
Proof.
  assert (Hfit : ERC20.balanceOf (DiamondPair.shares Examples.pool0) 200 * 1000
                 ≤ MAX_UINT256) by (vm_compute; discriminate).
  exact (proj2 (burn_without_shares Examples.blk0 Examples.no_fee 200
                  Examples.pool0 7 MoreExamples.burn0 eq_refl)
           1000 1000 eq_refl eq_refl eq_refl eq_refl Hfit).
Defined.

(** X10. From its deployment on, whatever sequence of its own functions
    succeeds, a pair never has a share outstanding and [kLast] stays zero:
    the first [mint] cannot succeed, and nothing else creates shares. The
    reserves stay within 112 bits and the time stamp within 32. *)
Theorem pair_never_has_shares :
  ∀ creator p,
    rtc pair_step (DiamondPair.deployed creator) p →
    ERC20.totalSupply (DiamondPair.shares p) = 0 ∧
    DiamondPair.kLast p = 0 ∧
    DiamondPair.reserve0 p ≤ MAX_UINT112 ∧
    DiamondPair.reserve1 p ≤ MAX_UINT112 ∧
    DiamondPair.blockTimestampLast p < 2 ^ 32.
Proof.
  intros creator. apply rtc_ind_r.
  - cbn. split; [reflexivity|]. split; [reflexivity|].
    split; [apply N.le_0_l|]. split; [apply N.le_0_l | reflexivity].
  - intros p p' _ Hstep IH. exact (pair_step_inv p p' Hstep IH).
Qed.

Lemma pair_never_has_shares_witness :
  ∃ p, DiamondPair.sync Examples.blk0 Examples.pair12 MoreExamples.balances0
         = ([], Ok (p, tt)) ∧
       ERC20.totalSupply (DiamondPair.shares p) = 0.
Proof.
  eexists. split; [vm_compute; reflexivity|].
  match goal with
  | |- ERC20.totalSupply (DiamondPair.shares ?q) = 0 =>
      assert (Hinit : DiamondPair.initialize 100 (DiamondPair.deployed 100) 1 2
                      = Ok Examples.pair12) by reflexivity;
      assert (Hsync : DiamondPair.sync Examples.blk0 Examples.pair12
                        MoreExamples.balances0 = ([], Ok (q, tt)))
        by (vm_compute; reflexivity);
      apply (pair_never_has_shares 100 q
               (rtc_l _ _ _ _ (step_initialize _ _ _ _ _ Hinit)
                  (rtc_once _ _ (step_sync _ _ _ _ _ Hsync))))
  end.
Defined.

(** ** DiamondRouter: quotes along a path *)

Section QuotesMore.

Import DiamondRouter.

(** The output formula grows with the input. *)
Lemma out_formula_mono x x' D r :
0 < D → x ≤ x' → x * r / (D + x) ≤ x' * r / (D + x').
Proof.
intros HD Hle.
set (q := x * r / (D + x)).
assert (Hq : (D + x) * q ≤ x * r) by apply N.Div0.mul_div_le.
assert (Hqr : q ≤ r).
{ apply (N.mul_le_mono_pos_l _ _ (D + x)); [lia | nia]. }
assert (∃ d, x' = x + d) as [d ->] by (exists (x' - x); lia).
apply N.div_le_lower_bound; [lia|]. nia.
Qed.

Lemma out_formula_below x D r : 0 < D → 0 < r → x * r / (D + x) < r.
Proof.
intros HD Hr. apply N.Div0.div_lt_upper_bound. nia.
Qed.

(** An input at least the one [getAmountIn] asks for buys at least the
  requested output. *)
Lemma getAmountIn_enough amountOut reserveIn reserveOut a b out :
getAmountIn amountOut reserveIn reserveOut = Ok a →
a ≤ b →
getAmountOut b reserveIn reserveOut = Ok out →
amountOut ≤ out.
Proof.
intros Hin Hle Hout.
apply getAmountIn_ok_inv in Hin as (Hpos & HrIn & Hlt & ->).
apply getAmountOut_ok_inv in Hout as (_ & _ & _ & ->).
etransitivity; [apply (round_trip_arith amountOut reserveIn reserveOut Hpos Hlt)|].
cbv zeta.
rewrite (N.add_comm (reserveIn * 1000) (b * 997)).
rewrite (N.add_comm (reserveIn * 1000) (_ * 997)).
rewrite (N.add_comm (b * 997)), (N.add_comm (_ * 997) (reserveIn * 1000)).
apply out_formula_mono; lia.
Qed.

(** The loop of [getAmountsOut]: one quote per hop, each fed with the
  amount of the hop before. *)
Lemma amountsOutFrom_hops w path : ∀ amount more,
amountsOutFrom w amount path = Ok more →
(path ≠ [] → length (amount :: more) = length path) ∧
∀ (i : nat) input output,
  path !! i = Some input → path !! S i = Some output →
  ∃ x y reserveIn reserveOut,
    (amount :: more) !! i = Some x ∧ (amount :: more) !! S i = Some y ∧
    getReserves w input output = Ok (reserveIn, reserveOut) ∧
    getAmountOut x reserveIn reserveOut = Ok y.
Proof.
induction path as [|input0 [|output0 rest] IH]; intros amount more H.
- injection H as <-. split; [congruence|]. intros i ? ? Hi. discriminate Hi.
- injection H as <-. split; [reflexivity|].
  intros [|i] ? ? _ Hi; discriminate Hi.
- cbn [amountsOutFrom] in H. ok_step H as rs Hres. destruct rs as [rIn rOut].
  ok_step H as out Hout. ok_step H as more' Hmore. injection H as <-.
  destruct (IH out more' Hmore) as [Hlen Hhops].
  split; [intros _; cbn [length] in *; rewrite Hlen by discriminate; reflexivity|].
  intros [|i] input output Hi Ho.
  + injection Hi as <-. injection Ho as <-.
    exists amount, out, rIn, rOut. auto.
  + exact (Hhops i input output Hi Ho).
Qed.

(** The loop of [getAmountsIn]: it runs from the last hop back, each quote
  fed with the amount of the hop after. *)
Lemma amountsInTo_hops w amountOut path : ∀ amounts,
amountsInTo w amountOut path = Ok amounts →
(path ≠ [] → length amounts = length path) ∧
amounts ≠ [] ∧ List.last amounts 0 = amountOut ∧
∀ (i : nat) input output,
  path !! i = Some input → path !! S i = Some output →
  ∃ x y reserveIn reserveOut,
    amounts !! i = Some x ∧ amounts !! S i = Some y ∧
    getReserves w input output = Ok (reserveIn, reserveOut) ∧
    getAmountIn y reserveIn reserveOut = Ok x.
Proof.
induction path as [|input0 [|output0 rest] IH]; intros amounts H.
- injection H as <-. split; [congruence|]. split; [discriminate|].
  split; [reflexivity|]. intros i ? ? Hi. discriminate Hi.
- injection H as <-. split; [reflexivity|]. split; [discriminate|].
  split; [reflexivity|]. intros [|i] ? ? _ Hi; discriminate Hi.
- cbn [amountsInTo] in H. ok_step H as more Hmore.
  ok_step H as rs Hres. destruct rs as [rIn rOut].
  ok_step H as amount Hamount. injection H as <-.
  destruct (IH more Hmore) as (Hlen & Hne & Hlast & Hhops).
  destruct more as [|next more']; [exfalso; apply Hne; reflexivity|].
  cbn [hd] in Hamount.
  split; [intros _; cbn [length] in *; rewrite Hlen by discriminate; reflexivity|].
  split; [discriminate|]. split; [exact Hlast|].
  intros [|i] input output Hi Ho.
  + injection Hi as <-. injection Ho as <-.
    exists amount, next, rIn, rOut. auto.
  + exact (Hhops i input output Hi Ho).
Qed.

(** Quoting forward from at least the input that the backward quotes ask for
  gives, token by token, at least the amounts asked for. *)
Lemma amounts_round_trip w amountOut path : ∀ ins b outs,
amountsInTo w amountOut path = Ok ins →
hd 0 ins ≤ b →
amountsOutFrom w b path = Ok outs →
Forall2 N.le ins (b :: outs).
Proof.
induction path as [|input0 [|output0 rest] IH]; intros ins b outs Hin Hle Hout.
- injection Hin as <-. injection Hout as <-. repeat constructor. exact Hle.
- injection Hin as <-. injection Hout as <-. repeat constructor. exact Hle.
- cbn [amountsInTo] in Hin. ok_step Hin as more Hmore.
  ok_step Hin as rs Hres. destruct rs as [rIn rOut].
  ok_step Hin as amount Hamount. injection Hin as <-.
  cbn [amountsOutFrom] in Hout. rewrite Hres, result_bind_Ok in Hout.
  ok_step Hout as out Hq. ok_step Hout as outs' Hmore'. injection Hout as <-.
  cbn [hd] in Hle. constructor; [exact Hle|].
  apply (IH more out outs' Hmore); [|exact Hmore'].
  exact (getAmountIn_enough _ _ _ _ _ _ Hamount Hle Hq).
Qed.

Lemma Forall2_le_last (l l' : list uint) :
Forall2 N.le l l' → List.last l 0 ≤ List.last l' 0.
Proof.
induction 1 as [|x y l l' Hxy Hrest IH]; [reflexivity|].
destruct Hrest as [|x' y' l l' Hxy' Hrest]; [exact Hxy | exact IH].
Qed.

End QuotesMore.

(** X11. [getAmountOut] never quotes the whole output reserve, and a larger
    input is never quoted a smaller output. *)
Theorem getAmountOut_below_reserve :
  ∀ amountIn reserveIn reserveOut out,
    DiamondRouter.getAmountOut amountIn reserveIn reserveOut = Ok out →
    out < reserveOut ∧
    ∀ amountIn' out',
      amountIn ≤ amountIn' →
      DiamondRouter.getAmountOut amountIn' reserveIn reserveOut = Ok out' →
      out ≤ out'.
Proof.
  intros a rIn rOut out H.
  apply getAmountOut_ok_inv in H as (_ & HrIn & HrOut & ->). split.
  - apply out_formula_below; lia.
  - intros a' out' Hle H'.
    apply getAmountOut_ok_inv in H' as (_ & _ & _ & ->).
    apply out_formula_mono; lia.
Qed.

Lemma getAmountOut_below_reserve_witness :
  DiamondRouter.getAmountOut 100 1000 1000 = Ok 90 ∧ 90 < 1000.
Proof.
  assert (H : DiamondRouter.getAmountOut 100 1000 1000 = Ok 90)
    by (vm_compute; reflexivity).
  split; [exact H|]. exact (proj1 (getAmountOut_below_reserve _ _ _ _ H)).
Defined.

(** X12. The input [getAmountIn] asks for is within one unit of the least
    that suffices: every input smaller by two or more is quoted strictly
    less than the requested output. *)
Theorem getAmountIn_tight :
  ∀ amountOut reserveIn reserveOut a,
    DiamondRouter.getAmountIn amountOut reserveIn reserveOut = Ok a →
    ∀ b out,
      b + 2 ≤ a →
      DiamondRouter.getAmountOut b reserveIn reserveOut = Ok out →
      out < amountOut.
Proof.
  intros x rIn rOut a H b out Hb Hout.
  apply getAmountIn_ok_inv in H as (Hpos & HrIn & Hlt & ->).
  apply getAmountOut_ok_inv in Hout as (_ & _ & _ & ->).
  assert (Hq : (b + 1) * ((rOut - x) * 997) ≤ rIn * x * 1000).
  { etransitivity; [|apply (N.Div0.mul_div_le _ ((rOut - x) * 997))].
    rewrite (N.mul_comm (b + 1)). apply N.mul_le_mono_l. lia. }
  apply N.Div0.div_lt_upper_bound.
  assert (∃ e, rOut = x + e ∧ 0 < e) as (e & -> & He)
    by (exists (rOut - x); lia).
  replace (x + e - x) with e in Hq by lia. nia.
Qed.

Lemma getAmountIn_tight_witness :
  DiamondRouter.getAmountIn 90 1000 1000 = Ok 100 ∧
  DiamondRouter.getAmountOut 98 1000 1000 = Ok 89 ∧ 89 < 90.
Proof.
  assert (Hin : DiamondRouter.getAmountIn 90 1000 1000 = Ok 100)
    by (vm_compute; reflexivity).
  assert (Hout : DiamondRouter.getAmountOut 98 1000 1000 = Ok 89)
    by (vm_compute; reflexivity).
  assert (Hb : 98 + 2 ≤ 100) by (vm_compute; discriminate).
  split; [exact Hin|]. split; [exact Hout|].
  exact (getAmountIn_tight _ _ _ _ Hin _ _ Hb Hout).
Defined.

(** X13. Asking [getAmountIn] for the whole output reserve divides by zero,
    and asking for more than the reserve underflows: both are panics, not
    the message about insufficient liquidity. *)
Theorem getAmountIn_whole_reserve :
  ∀ amountOut reserveIn reserveOut,
    0 < amountOut → 0 < reserveIn → 0 < reserveOut →
    reserveIn * amountOut * 1000 ≤ MAX_UINT256 →
    (amountOut = reserveOut →
     DiamondRouter.getAmountIn amountOut reserveIn reserveOut = Fail (Panic 18)) ∧
    (reserveOut < amountOut →
     DiamondRouter.getAmountIn amountOut reserveIn reserveOut = Fail (Panic 17)).
Proof.
  intros x rIn rOut Hx HrIn HrOut Hfit.
  unfold DiamondRouter.getAmountIn.
  apply N.ltb_lt in Hx as Hx', HrIn as HrIn', HrOut as HrOut'.
  rewrite Hx', HrIn', HrOut'. cbn [andb require]. rewrite !result_bind_Ok.
  rewrite (mul_eq rIn x) by nia. rewrite result_bind_Ok.
  rewrite (mul_eq (rIn * x) 1000) by exact Hfit. rewrite result_bind_Ok.
  split.
  - intros <-. rewrite (sub_eq x x) by reflexivity. rewrite result_bind_Ok.
    rewrite N.sub_diag. reflexivity.
  - intros Hlt. unfold SafeMath.sub. apply N.leb_gt in Hlt. rewrite Hlt.
    reflexivity.
Qed.

Lemma getAmountIn_whole_reserve_witness :
  DiamondRouter.getAmountIn 1000 1000 1000 = Fail (Panic 18).
Proof.
  assert (Hfit : 1000 * 1000 * 1000 ≤ MAX_UINT256) by (vm_compute; discriminate).
  exact (proj1 (getAmountIn_whole_reserve 1000 1000 1000
                  eq_refl eq_refl eq_refl Hfit) eq_refl).
Defined.

(** X14. [getAmountsOut] returns one amount per token of the path, the first
    being [amountIn]; for every hop the next amount is [getAmountOut] of the
    amount before, on the reserves [getReserves] reports for the hop. *)
Theorem getAmountsOut_hops :
  ∀ w amountIn path amounts,
    DiamondRouter.getAmountsOut w amountIn path = Ok amounts →
    length amounts = length path ∧ hd 0 amounts = amountIn ∧
    ∀ (i : nat) input output,
      path !! i = Some input → path !! S i = Some output →
      ∃ x y reserveIn reserveOut,
        amounts !! i = Some x ∧ amounts !! S i = Some y ∧
        DiamondRouter.getReserves w input output = Ok (reserveIn, reserveOut) ∧
        DiamondRouter.getAmountOut x reserveIn reserveOut = Ok y.
Proof.
  intros w amountIn path amounts H. unfold DiamondRouter.getAmountsOut in H.
  ok_step H as u Hlen. ok_step H as more Hmore. injection H as <-.
  apply amountsOutFrom_hops in Hmore as [Hl Hhops].
  split; [|split; [reflexivity | exact Hhops]].
  apply Hl. intros ->. discriminate Hlen.
Qed.

Lemma getAmountsOut_hops_witness :
  DiamondRouter.getAmountsOut Examples.world2 100 [1; 2] = Ok [100; 90] ∧
  length [100; 90] = length [1; 2].
Proof.
  assert (H : DiamondRouter.getAmountsOut Examples.world2 100 [1; 2]
              = Ok [100; 90]) by (vm_compute; reflexivity).
  split; [exact H|]. exact (proj1 (getAmountsOut_hops _ _ _ _ H)).
Defined.

(** X15. [getAmountsIn] returns one amount per token of the path, the last
    being [amountOut]; for every hop the amount before is [getAmountIn] of
    the amount after, on the reserves [getReserves] reports for the hop. *)
Theorem getAmountsIn_hops :
  ∀ w amountOut path amounts,
    DiamondRouter.getAmountsIn w amountOut path = Ok amounts →
    length amounts = length path ∧ List.last amounts 0 = amountOut ∧
    ∀ (i : nat) input output,
      path !! i = Some input → path !! S i = Some output →
      ∃ x y reserveIn reserveOut,
        amounts !! i = Some x ∧ amounts !! S i = Some y ∧
        DiamondRouter.getReserves w input output = Ok (reserveIn, reserveOut) ∧
        DiamondRouter.getAmountIn y reserveIn reserveOut = Ok x.
Proof.
  intros w amountOut path amounts H. unfold DiamondRouter.getAmountsIn in H.
  ok_step H as u Hlen.
  apply amountsInTo_hops in H as (Hl & _ & Hlast & Hhops).
  split; [|split; [exact Hlast | exact Hhops]].
  apply Hl. intros ->. discriminate Hlen.
Qed.

Lemma getAmountsIn_hops_witness :
  DiamondRouter.getAmountsIn Examples.world2 90 [1; 2] = Ok [100; 90] ∧
  length [100; 90] = length [1; 2].
Proof.
  assert (H : DiamondRouter.getAmountsIn Examples.world2 90 [1; 2]
              = Ok [100; 90]) by (vm_compute; reflexivity).
  split; [exact H|]. exact (proj1 (getAmountsIn_hops _ _ _ _ H)).
Defined.

(** X16. Along any path, quoting forward from the input that [getAmountsIn]
    asks for yields at every token at least the amount [getAmountsIn]
    listed there, and at the end at least the requested output. *)
Theorem getAmounts_round_trip :
  ∀ w amountOut path ins outs,
    DiamondRouter.getAmountsIn w amountOut path = Ok ins →
    DiamondRouter.getAmountsOut w (hd 0 ins) path = Ok outs →
    Forall2 N.le ins outs ∧ amountOut ≤ List.last outs 0.
Proof.
  intros w amountOut path ins outs Hin Hout.
  unfold DiamondRouter.getAmountsIn in Hin. ok_step Hin as u Hlen.
  unfold DiamondRouter.getAmountsOut in Hout. ok_step Hout as u' Hlen'.
  ok_step Hout as more Hmore. injection Hout as <-.
  pose proof (amounts_round_trip _ _ _ _ _ _ Hin (N.le_refl _) Hmore) as Hall.
  split; [exact Hall|].
  apply amountsInTo_hops in Hin as (_ & _ & <- & _).
  apply Forall2_le_last, Hall.
Qed.

Lemma getAmounts_round_trip_witness :
  DiamondRouter.getAmountsIn Examples.world2 90 [1; 2] = Ok [100; 90] ∧
  DiamondRouter.getAmountsOut Examples.world2 100 [1; 2] = Ok [100; 90] ∧
  90 ≤ List.last [100; 90] 0.
Proof.
  assert (Hin : DiamondRouter.getAmountsIn Examples.world2 90 [1; 2]
                = Ok [100; 90]) by (vm_compute; reflexivity).
  assert (Hout : DiamondRouter.getAmountsOut Examples.world2 (hd 0 [100; 90])
                   [1; 2] = Ok [100; 90]) by (vm_compute; reflexivity).
  split; [exact Hin|]. split; [exact Hout|].
  exact (proj2 (getAmounts_round_trip _ _ _ _ _ Hin Hout)).
Defined.

(** ** DiamondRouter.quote, the factory's books, getReserves *)

(** X17. [quote] there and back never gains: the amount of B quoted for an
    amount of A is either zero, which [quote] refuses to quote back, or is
    quoted back at no more than the amount of A, and that second quote
    cannot overflow. *)
Theorem quote_there_and_back :
  ∀ amountA reserveA reserveB amountB,
    DiamondRouter.quote amountA reserveA reserveB = Ok amountB →
    (amountB = 0 ∧
     DiamondRouter.quote amountB reserveB reserveA
       = Fail (Revert "DiamondRouter: INSUFFICIENT_AMOUNT")) ∨
    (∃ back, DiamondRouter.quote amountB reserveB reserveA = Ok back ∧
             back ≤ amountA).
Proof.
  intros a rA rB b H. unfold DiamondRouter.quote in H.
  ok_step H as u Ha. ok_step H as u' Hr. ok_step H as n Hn.
  apply div_ok in H as [-> HrA].
  apply andb_true_iff in Hr as [HA HB].
  set (b := a * rB / rA).
  assert (Hb : b * rA ≤ a * rB)
    by (unfold b; rewrite N.mul_comm; apply N.Div0.mul_div_le).
  destruct (N.eq_0_gt_0_cases b) as [Hz|Hpos].
  - left. rewrite Hz. split; reflexivity.
  - right. exists (b * rA / rB). unfold DiamondRouter.quote.
    apply N.ltb_lt in Hpos. rewrite Hpos, HB, HA. cbn [andb require].
    rewrite !result_bind_Ok. rewrite (mul_eq b rA) by lia.
    rewrite result_bind_Ok. apply N.ltb_lt in HB.
    split; [apply div_eq; lia|].
    apply N.Div0.div_le_upper_bound. lia.
Qed.

Lemma quote_there_and_back_witness :
  ∃ back, DiamondRouter.quote 150 3000 2000 = Ok back ∧ back ≤ 100.
Proof.
  assert (H : DiamondRouter.quote 100 2000 3000 = Ok 150)
    by (vm_compute; reflexivity).
  destruct (quote_there_and_back _ _ _ _ H) as [[Hz _]|Hback].
  - discriminate Hz.
  - exact Hback.
Defined.

Section Registry.

(** What the factory's books say in every reachable state. *)
Lemma registry_invariant w :
reachable w →
let f := factoryState w in
(∀ x y, DiamondFactory.getPair f x y ≠ 0 →
        x ≠ y ∧ x ≠ 0 ∧ y ≠ 0 ∧
        DiamondFactory.getPair f x y ∈ DiamondFactory.allPairs f) ∧
(∀ a, a ∈ DiamondFactory.allPairs f ↔ is_Some (pairs w !! a)) ∧
(0 ∉ DiamondFactory.allPairs f) ∧
NoDup (DiamondFactory.allPairs f) ∧
(∀ x y x' y',
   DiamondFactory.getPair f x y ≠ 0 →
   DiamondFactory.getPair f x y = DiamondFactory.getPair f x' y' →
   (x', y') = (x, y) ∨ (x', y') = (y, x)) ∧
0 < DiamondFactory.protocolFeeDenominator_ f.
Proof.
induction 1 as [at_ deployer
               |w tokenA tokenB created w' pair _ IH Hc
               |w sender _feeTo f' _ IH Hs
               |w sender n f' _ IH Hs
               |w a p p' _ IH Hp]; cbv zeta in *.
- cbn. split; [intros x y Hxy; contradiction Hxy; reflexivity|].
  split.
  { intros a. rewrite lookup_empty. split; [intros Ha; inversion Ha|].
    intros [? [=]]. }
  split; [intros H; inversion H|]. split; [constructor|].
  split; [intros x y x' y' Hxy; contradiction Hxy; reflexivity | reflexivity].
- destruct IH as (Hreg & Hdom & Hzero & Hnd & Hinj & Hden).
  apply createPair_ok_inv in Hc as Hinv.
  destruct Hinv as (Hne & Hz & _ & _ & _ & _ & Hw').
  assert (Hden' : DiamondFactory.protocolFeeDenominator_ (factoryState w')
                  = DiamondFactory.protocolFeeDenominator_ (factoryState w))
    by (rewrite Hw'; reflexivity).
  clear Hw'.
  assert (HzA : tokenA ≠ 0 ∧ tokenB ≠ 0).
  { destruct (sorted_cases tokenA tokenB Hne) as [[Hs Hlt]|[Hs Hlt]];
      rewrite Hs in Hz; cbn in Hz; lia. }
  apply createPair_registers in Hc
    as (Hpair & Hnew & Hat & Hothers & HAB & HBA & Hrest & Hall).
  assert (Hfresh : pair ∉ DiamondFactory.allPairs (factoryState w)).
  { intros Hin. apply Hdom in Hin as [? Hin]. congruence. }
  assert (Hcases : ∀ x y,
            ((x, y) = (tokenA, tokenB) ∨ (x, y) = (tokenB, tokenA)) ∧
            DiamondFactory.getPair (factoryState w') x y = pair ∨
            ((x, y) ≠ (tokenA, tokenB) ∧ (x, y) ≠ (tokenB, tokenA)) ∧
            DiamondFactory.getPair (factoryState w') x y
            = DiamondFactory.getPair (factoryState w) x y).
  { intros x y.
    destruct (decide ((x, y) = (tokenA, tokenB))) as [[= -> ->]|H1]; [auto|].
    destruct (decide ((x, y) = (tokenB, tokenA))) as [[= -> ->]|H2]; [auto|].
    right. split; [auto|]. apply Hrest; assumption. }
  rewrite Hall.
  split; [|split; [|split; [|split; [|split]]]].
  + intros x y Hxy.
    destruct (Hcases x y) as [[Hwho Hval]|[_ Hval]]; rewrite Hval in *.
    * split; [destruct Hwho as [[= -> ->]|[= -> ->]]; auto|].
      split; [destruct Hwho as [[= -> ->]|[= -> ->]]; tauto|].
      split; [destruct Hwho as [[= -> ->]|[= -> ->]]; tauto|].
      apply elem_of_app. right. apply list_elem_of_singleton. reflexivity.
    * destruct (Hreg x y Hxy) as (? & ? & ? & Hin).
      repeat (split; [assumption|]). apply elem_of_app. left. exact Hin.
  + intros a. rewrite elem_of_app, list_elem_of_singleton.
    destruct (decide (a = pair)) as [->|Ha].
    * rewrite Hat. split; [eauto | auto].
    * rewrite (Hothers a Ha), <- Hdom. tauto.
  + rewrite elem_of_app, list_elem_of_singleton. intros [H0|H0]; [auto|].
    congruence.
  + apply NoDup_app. split; [exact Hnd|].
    split; [|apply NoDup_singleton].
    intros a Ha Ha'. apply list_elem_of_singleton in Ha'. congruence.
  + intros x y x' y' Hxy Heq.
    destruct (Hcases x y) as [[Hwho Hval]|[Hwho Hval]],
             (Hcases x' y') as [[Hwho' Hval']|[Hwho' Hval']].
    * destruct Hwho as [[= -> ->]|[= -> ->]],
               Hwho' as [[= -> ->]|[= -> ->]]; auto.
    * exfalso. rewrite Hval, Hval' in Heq.
      destruct (N.eq_dec (DiamondFactory.getPair (factoryState w) x' y') 0)
        as [H0|H0]; [congruence|].
      apply Hreg in H0 as (_ & _ & _ & Hin). rewrite <- Heq in Hin. auto.
    * exfalso. rewrite Hval, Hval' in Heq. rewrite Hval in Hxy.
      apply Hreg in Hxy as (_ & _ & _ & Hin). rewrite Heq in Hin. auto.
    * rewrite Hval in Hxy. rewrite Hval, Hval' in Heq.
      exact (Hinj x y x' y' Hxy Heq).
  + rewrite Hden'. exact Hden.
- unfold DiamondFactory.setFeeTo in Hs.
  ok_step Hs as u Ho. injection Hs as <-. exact IH.
- unfold DiamondFactory.setProtocolFeeDenominator in Hs.
  ok_step Hs as u Ho. ok_step Hs as u' Hn. injection Hs as <-.
  destruct IH as (Hreg & Hdom & Hzero & Hnd & Hinj & Hden).
  apply N.ltb_lt in Hn. cbn. auto 10.
- destruct IH as (Hreg & Hdom & Hzero & Hnd & Hinj & Hden). cbn.
  split; [exact Hreg|]. split; [|auto].
  intros b. rewrite Hdom.
  destruct (decide (b = a)) as [->|Hb].
  + rewrite lookup_insert_eq, Hp. split; eauto.
  + rewrite lookup_insert_ne by congruence. reflexivity.
Qed.

Lemma sortTokens_flip tokenA tokenB token0 token1 :
DiamondRouter.sortTokens tokenA tokenB = Ok (token0, token1) →
DiamondRouter.sortTokens tokenB tokenA = Ok (token0, token1) ∧
tokenA ≠ tokenB ∧ (token0 = tokenA ∨ token0 = tokenB).
Proof.
unfold DiamondRouter.sortTokens. intros H.
ok_step H as u Hne. apply negb_true_iff, N.eqb_neq in Hne.
assert (Hne' : (tokenB =? tokenA) = false) by (apply N.eqb_neq; congruence).
rewrite Hne'. cbn [negb require]. rewrite result_bind_Ok.
destruct (N.ltb_spec tokenA tokenB) as [Hlt|Hge].
- assert (Hlt' : (tokenB <? tokenA) = false) by (apply N.ltb_ge; lia).
  rewrite Hlt'. ok_step H as u' Hz. injection H as <- <-.
  rewrite Hz. auto.
- assert (Hlt' : (tokenB <? tokenA) = true) by (apply N.ltb_lt; lia).
  rewrite Hlt'. ok_step H as u' Hz. injection H as <- <-.
  rewrite Hz. auto.
Qed.

End Registry.

(** X18. The factory's books, in every state reached from deployment by
    [createPair], [setFeeTo] and [setProtocolFeeDenominator]: a registered
    pair is registered for two distinct non-zero tokens and is listed in
    [allPairs]; [allPairs] lists exactly the addresses that hold a pair,
    each once and never the zero address; two token pairs with the same
    registered pair are the same up to order; [allPairsLength] counts the
    pairs; and [protocolFeeDenominator] is positive. *)
Theorem factory_registry :
  ∀ w,
    reachable w →
    (∀ x y, DiamondFactory.getPair (factoryState w) x y ≠ 0 →
            x ≠ y ∧ x ≠ 0 ∧ y ≠ 0 ∧
            DiamondFactory.getPair (factoryState w) x y
              ∈ DiamondFactory.allPairs (factoryState w)) ∧
    (∀ a, a ∈ DiamondFactory.allPairs (factoryState w)
          ↔ is_Some (pairs w !! a)) ∧
    (0 ∉ DiamondFactory.allPairs (factoryState w)) ∧
    NoDup (DiamondFactory.allPairs (factoryState w)) ∧
    (∀ x y x' y',
       DiamondFactory.getPair (factoryState w) x y ≠ 0 →
       DiamondFactory.getPair (factoryState w) x y
         = DiamondFactory.getPair (factoryState w) x' y' →
       (x', y') = (x, y) ∨ (x', y') = (y, x)) ∧
    DiamondFactory.allPairsLength (factoryState w) = N.of_nat (size (pairs w)) ∧
    0 < DiamondFactory.protocolFeeDenominator_ (factoryState w).
Proof.
  intros w Hreach.
  destruct (registry_invariant w Hreach) as (Hreg & Hdom & Hzero & Hnd & Hinj & Hden).
  repeat (split; [assumption|]). split; [|exact Hden].
  unfold DiamondFactory.allPairsLength. f_equal.
  rewrite <- size_dom, <- (size_list_to_set (C := gset address)) by exact Hnd.
  f_equal. apply set_eq. intros a.
  rewrite elem_of_list_to_set, elem_of_dom. apply Hdom.
Qed.

Lemma factory_registry_witness :
  DiamondFactory.allPairsLength (factoryState Examples.world1)
    = N.of_nat (size (pairs Examples.world1)).
Proof.
  assert (Hc : createPair Examples.world0 1 2 200 = Ok (Examples.world1, 200))
    by (vm_compute; reflexivity).
  apply (factory_registry Examples.world1
           (reach_createPair _ _ _ _ _ _ (reach_deployed 100 50) Hc)).
Defined.

(** X19. In every reachable state the router reads the reserves of a pair
    consistently in both directions: [getReserves(B, A)] is [getReserves(A,
    B)] with the two reserves exchanged. *)
Theorem getReserves_flip :
  ∀ w tokenA tokenB reserveA reserveB,
    reachable w →
    DiamondRouter.getReserves w tokenA tokenB = Ok (reserveA, reserveB) →
    DiamondRouter.getReserves w tokenB tokenA = Ok (reserveB, reserveA).
Proof.
  intros w tokenA tokenB rA rB Hreach H.
  unfold DiamondRouter.getReserves in *.
  ok_step H as ts Hsort. destruct ts as [token0 token1].
  apply sortTokens_flip in Hsort as (-> & Hne & Hwho).
  rewrite result_bind_Ok. unfold DiamondRouter.pairFor in *.
  rewrite (reachable_symmetric w Hreach tokenB tokenA).
  destruct (_ =? 0); [injection H as <- <-; reflexivity|].
  ok_step H as p Hp. rewrite Hp, result_bind_Ok.
  cbn [DiamondPair.getReserves] in *.
  destruct Hwho as [->| ->].
  - rewrite N.eqb_refl in H.
    assert (Hb : (tokenB =? tokenA) = false) by (apply N.eqb_neq; congruence).
    rewrite Hb. injection H as <- <-. reflexivity.
  - rewrite N.eqb_refl.
    assert (Ha : (tokenA =? tokenB) = false) by (apply N.eqb_neq; congruence).
    rewrite Ha in H. injection H as <- <-. reflexivity.
Qed.

Lemma getReserves_flip_witness :
  DiamondRouter.getReserves Examples.world1 2 1 = Ok (0, 0).
Proof.
  assert (Hc : createPair Examples.world0 1 2 200 = Ok (Examples.world1, 200))
    by (vm_compute; reflexivity).
  assert (H : DiamondRouter.getReserves Examples.world1 1 2 = Ok (0, 0))
    by (vm_compute; reflexivity).
  exact (getReserves_flip _ _ _ _ _
           (reach_createPair _ _ _ _ _ _ (reach_deployed 100 50) Hc) H).
Defined.

(** ** The router's quote against the pair's checks *)

Section RouterPair.

Lemma fits_112_product x y :
x ≤ MAX_UINT112 * 1000 → y ≤ MAX_UINT112 * 1000 → x * y ≤ MAX_UINT256.
Proof.
intros Hx Hy.
transitivity ((MAX_UINT112 * 1000) * (MAX_UINT112 * 1000));
  [apply N.mul_le_mono; assumption | vm_compute; discriminate].
Qed.

Lemma fits_112_scaled x y :
x ≤ MAX_UINT112 → y ≤ MAX_UINT112 →
x * y ≤ MAX_UINT256 ∧ x * y * 1000 ^ 2 ≤ MAX_UINT256.
Proof.
intros Hx Hy.
assert (H : x * y ≤ MAX_UINT112 * MAX_UINT112)
  by (apply N.mul_le_mono; assumption).
split.
- etransitivity; [exact H | vm_compute; discriminate].
- transitivity (MAX_UINT112 * MAX_UINT112 * 1000 ^ 2);
    [apply N.mul_le_mono_r; exact H | vm_compute; discriminate].
Qed.

(** The product check of [swap] on the amounts of [getAmountOut]. *)
Lemma quote_keeps_K a rIn rOut :
0 < rIn →
let out := a * 997 * rOut / (rIn * 1000 + a * 997) in
rIn * rOut * 1000 ^ 2
  ≤ ((rIn + a) * 1000 - a * 3) * ((rOut - out) * 1000).
Proof.
intros HrIn out.
assert (Hq : (rIn * 1000 + a * 997) * out ≤ a * 997 * rOut)
  by apply N.Div0.mul_div_le.
assert (Hlt : out ≤ rOut).
{ apply (N.mul_le_mono_pos_l _ _ (rIn * 1000 + a * 997)); [lia | nia]. }
clearbody out. change (1000 ^ 2) with 1000000.
assert (∃ e, rOut = out + e) as [e ->] by (exists (rOut - out); lia).
replace (out + e - out) with e by lia.
replace ((rIn + a) * 1000 - a * 3) with (rIn * 1000 + a * 997) by lia.
nia.
Qed.

Lemma run_bind_mret {A B} (a : A) (k : A → run B) : mret a ≫= k = k a.
Proof. apply run_bind_lift_Ok. Qed.

Lemma run_bind_call {B} (c : call) (k : unit → run B) l r :
k tt = (l, r) →
(emit c ≫= λ _, lift (Ok tt)) ≫= k = (c :: l, r).
Proof. intros H. cbn. rewrite H. reflexivity. Qed.

(** The pair's [swap] run on the amounts of the router's quote. *)
Lemma swap_quote_run :
∀ blk sender p amountIn out to ext,
  DiamondPair._status p = DiamondPair.NOT_ENTERED →
  DiamondRouter.getAmountOut amountIn
    (DiamondPair.reserve0 p) (DiamondPair.reserve1 p) = Ok out →
  0 < out →
  to ≠ DiamondPair.token0 p → to ≠ DiamondPair.token1 p →
  reply_ok (DiamondPair.transfer1 ext) = true →
  DiamondPair.swap_balance0 ext = Ok (DiamondPair.reserve0 p + amountIn) →
  DiamondPair.swap_balance1 ext = Ok (DiamondPair.reserve1 p - out) →
  DiamondPair.reserve0 p + amountIn ≤ MAX_UINT112 →
  DiamondPair.reserve1 p ≤ MAX_UINT112 →
  DiamondPair.swap blk sender p 0 out to [] ext
  = ([CallTransfer (DiamondPair.token1 p) to out],
     match DiamondPair._update blk
             (DiamondPair.set_status DiamondPair.ENTERED p)
             (DiamondPair.reserve0 p + amountIn) (DiamondPair.reserve1 p - out)
             (DiamondPair.reserve0 p) (DiamondPair.reserve1 p) with
     | Ok p2 => Ok (DiamondPair.set_status DiamondPair.NOT_ENTERED p2, tt)
     | Fail f => Fail f
     end).
Proof.
intros blk sender p a out to ext Hst Hquote Hout Hto0 Hto1 Hreply Hb0 Hb1
  Hfit0 Hfit1.
pose proof (getAmountOut_ok_inv _ _ _ _ Hquote) as (Ha & Hr0 & Hr1 & Hval).
assert (Hbelow : out < DiamondPair.reserve1 p).
{ rewrite Hval. apply out_formula_below; lia. }
pose proof (quote_keeps_K a _ (DiamondPair.reserve1 p) Hr0) as HK.
cbv zeta in HK. rewrite <- Hval in HK.
unfold DiamondPair.swap, DiamondPair.nonReentrant. rewrite Hst.
cbn [require]. rewrite run_bind_lift_Ok.
cbn [DiamondPair.getReserves DiamondPair.set_status DiamondPair.reserve0
     DiamondPair.reserve1 DiamondPair.token0 DiamondPair.token1].
set (r0 := DiamondPair.reserve0 p) in *.
set (r1 := DiamondPair.reserve1 p) in *.
match goal with
| |- ?body ≫= _ = _ =>
    enough (Hbody : body
              = ([CallTransfer (DiamondPair.token1 p) to out],
                 match DiamondPair._update blk
                         (DiamondPair.set_status DiamondPair.ENTERED p)
                         (r0 + a) (r1 - out) r0 r1 with
                 | Ok p2 => Ok (p2, tt)
                 | Fail f => Fail f
                 end))
      by (rewrite Hbody; destruct (DiamondPair._update _ _ _ _ _ _);
          reflexivity)
end.
apply N.ltb_lt in Hout as Hout', Hr0 as Hr0', Hbelow as Hbelow'.
change (0 <? 0) with false. rewrite Hout', Hr0', Hbelow'.
apply N.eqb_neq in Hto0 as Hto0', Hto1 as Hto1'. rewrite Hto0', Hto1'.
cbn [orb andb negb require]. rewrite !run_bind_lift_Ok.
unfold DiamondPair._safeTransfer. rewrite Hreply.
cbn [length N.of_nat]. change (0 <? 0) with false. rewrite Hb0, Hb1.
cbn [require].
rewrite (sub_eq r0 0) by lia. rewrite (sub_eq r1 out) by lia.
rewrite N.sub_0_r.
rewrite run_bind_mret. apply run_bind_call.
change (0 <? N.of_nat 0) with false. cbv iota.
rewrite run_bind_mret, !run_bind_lift_Ok.
assert (Hin0 : (r0 <? r0 + a) = true) by (apply N.ltb_lt; lia).
rewrite Hin0, N.ltb_irrefl.
replace (r0 + a - r0) with a by lia.
apply N.ltb_lt in Ha as Ha'. rewrite Ha'. cbn [orb require].
assert (Hs0 : (r0 + a) * 1000 ≤ MAX_UINT256).
{ transitivity (MAX_UINT112 * 1000);
    [apply N.mul_le_mono_r; exact Hfit0 | vm_compute; discriminate]. }
assert (Hs1 : (r1 - out) * 1000 ≤ MAX_UINT256).
{ transitivity (MAX_UINT112 * 1000);
    [apply N.mul_le_mono_r; lia | vm_compute; discriminate]. }
assert (Hf0 : a * 3 ≤ (r0 + a) * 1000) by lia.
assert (Hadj : ((r0 + a) * 1000 - a * 3) * ((r1 - out) * 1000 - 0 * 3)
               ≤ MAX_UINT256).
{ apply fits_112_product.
  - transitivity ((r0 + a) * 1000); [lia | apply N.mul_le_mono_r; exact Hfit0].
  - transitivity ((r1 - out) * 1000); [lia | apply N.mul_le_mono_r; lia]. }
destruct (fits_112_scaled r0 r1 ltac:(lia) Hfit1) as [Hk HkS].
rewrite run_bind_lift_Ok, (mul_eq (r0 + a) 1000 Hs0), run_bind_lift_Ok.
rewrite (mul_eq a 3) by lia. rewrite run_bind_lift_Ok.
rewrite (sub_eq _ _ Hf0), run_bind_lift_Ok.
rewrite (mul_eq (r1 - out) 1000 Hs1), run_bind_lift_Ok.
rewrite (mul_eq 0 3) by lia. rewrite run_bind_lift_Ok.
rewrite (sub_eq ((r1 - out) * 1000) (0 * 3)) by lia.
rewrite run_bind_lift_Ok.
rewrite (mul_eq _ _ Hadj), run_bind_lift_Ok.
rewrite (mul_eq r0 r1 Hk), run_bind_lift_Ok.
rewrite (mul_eq (r0 * r1) (1000 ^ 2) HkS), run_bind_lift_Ok.
assert (HK' : (r0 * r1 * 1000 ^ 2
               <=? ((r0 + a) * 1000 - a * 3) * ((r1 - out) * 1000 - 0 * 3)) = true).
{ apply N.leb_le. rewrite N.sub_0_r. exact HK. }
rewrite HK'. cbn [require]. rewrite run_bind_lift_Ok.
destruct (DiamondPair._update _ _ _ _ _ _); reflexivity.
Qed.

End RouterPair.

(** X20. The router's quote passes the pair's checks. When token0 comes in:
    if the pair has received [amountIn] of token0 on top of its reserve and
    is asked for the [getAmountOut] quote of token1, then [swap] passes the
    output, liquidity, input and product checks, makes the one transfer, and
    ends as [_update] does on the new balances. *)
Theorem swap_accepts_quote :
  ∀ blk sender p amountIn out to ext,
    DiamondPair._status p = DiamondPair.NOT_ENTERED →
    DiamondRouter.getAmountOut amountIn
      (DiamondPair.reserve0 p) (DiamondPair.reserve1 p) = Ok out →
    0 < out →
    to ≠ DiamondPair.token0 p → to ≠ DiamondPair.token1 p →
    reply_ok (DiamondPair.transfer1 ext) = true →
    DiamondPair.swap_balance0 ext = Ok (DiamondPair.reserve0 p + amountIn) →
    DiamondPair.swap_balance1 ext = Ok (DiamondPair.reserve1 p - out) →
    DiamondPair.reserve0 p + amountIn ≤ MAX_UINT112 →
    DiamondPair.reserve1 p ≤ MAX_UINT112 →
    DiamondPair.swap blk sender p 0 out to [] ext
    = ([CallTransfer (DiamondPair.token1 p) to out],
       match DiamondPair._update blk
               (DiamondPair.set_status DiamondPair.ENTERED p)
               (DiamondPair.reserve0 p + amountIn) (DiamondPair.reserve1 p - out)
               (DiamondPair.reserve0 p) (DiamondPair.reserve1 p) with
       | Ok p2 => Ok (DiamondPair.set_status DiamondPair.NOT_ENTERED p2, tt)
       | Fail f => Fail f
       end).
Proof. exact swap_quote_run. Qed.

Lemma swap_accepts_quote_witness :
  DiamondPair.swap Examples.blk0 9 Examples.pool0 0 90 7 [] Examples.ext0
    = ([CallTransfer 2 7 90], Ok (Examples.pool1, tt)).
Proof.
  assert (Hq : DiamondRouter.getAmountOut 100
                 (DiamondPair.reserve0 Examples.pool0)
                 (DiamondPair.reserve1 Examples.pool0) = Ok 90)
    by (vm_compute; reflexivity).
  assert (H0 : DiamondPair.reserve0 Examples.pool0 + 100 ≤ MAX_UINT112)
    by (vm_compute; discriminate).
  assert (H1 : DiamondPair.reserve1 Examples.pool0 ≤ MAX_UINT112)
    by (vm_compute; discriminate).
  rewrite (swap_accepts_quote Examples.blk0 9 Examples.pool0 100 90 7
             Examples.ext0 eq_refl Hq eq_refl ltac:(discriminate)
             ltac:(discriminate) eq_refl eq_refl eq_refl H0 H1).
  vm_compute. reflexivity.
Defined.

(** X21. [swapTokensForExactTokens] quotes backwards before it moves any
    token. When it succeeds, the amounts it returns are those of
    [getAmountsIn], the first is at most [amountInMax], the last is
    [amountOut], and its first call pulls the first amount of the first
    token of the path from the caller into the first pair. When the first
    quoted amount exceeds [amountInMax] it fails with the message about
    excessive input, having called nothing. *)
Theorem swapTokensForExact_checks_before_transfer :
  ∀ blk self sender r w amountOut amountInMax path to ext,
    (∀ log w' amounts,
       DiamondRouter.swapTokensForExactTokens blk self sender r w
         amountOut amountInMax path to ext = (log, Ok (w', amounts)) →
       DiamondRouter.getAmountsIn w amountOut path = Ok amounts ∧
       hd 0 amounts ≤ amountInMax ∧ List.last amounts 0 = amountOut ∧
       ∃ first second rest log',
         path = first :: second :: rest ∧
         log = CallTransferFrom first sender
                 (DiamondRouter.pairFor w first second) (hd 0 amounts) :: log') ∧
    (∀ amounts,
       DiamondRouter._status r = DiamondPair.NOT_ENTERED →
       DiamondRouter.getAmountsIn w amountOut path = Ok amounts →
       amountInMax < hd 0 amounts →
       DiamondRouter.swapTokensForExactTokens blk self sender r w
         amountOut amountInMax path to ext
       = ([], Fail (Revert "DiamondRouter: EXCESSIVE_INPUT_AMOUNT"))).
Proof.
  intros blk self sender r w amountOut amountInMax path to ext. split.
  - intros log w' amounts H.
    unfold DiamondRouter.swapTokensForExactTokens, DiamondRouter.nonReentrant in H.
    ok_step H as u Hguard. ok_step H as quoted Hquote. ok_step H as u' Hmax.
    apply N.leb_le in Hmax.
    pose proof Hquote as Hshape. unfold DiamondRouter.getAmountsIn in Hshape.
    ok_step Hshape as u'' Hlen.
    apply amountsInTo_hops in Hshape as (_ & Hne & Hlast & _).
    destruct path as [|first [|second rest]]; [discriminate Hlen..|].
    destruct quoted as [|amount more]; [contradiction Hne; reflexivity|].
    apply run_bind_ok in H as (l1 & [] & l2 & Hpull & H & ->).
    unfold DiamondRouter._safeTransferFrom in Hpull.
    apply run_bind_emit_ok in Hpull as (l' & Hpull & ->).
    apply lift_ok in Hpull as [_ ->].
    apply run_bind_ok in H as (l3 & w3 & l4 & Hswap & Hret & ->).
    injection Hret as <- <- <-.
    split; [exact Hquote|]. split; [exact Hmax|]. split; [exact Hlast|].
    exists first, second, rest. eexists. split; reflexivity.
  - intros amounts Hst Hquote Hmax.
    unfold DiamondRouter.swapTokensForExactTokens, DiamondRouter.nonReentrant.
    rewrite Hst. cbn [require]. rewrite run_bind_lift_Ok, Hquote, run_bind_lift_Ok.
    apply N.leb_gt in Hmax. rewrite Hmax. reflexivity.
Qed.

Lemma swapTokensForExact_checks_before_transfer_witness :
  DiamondRouter.swapTokensForExactTokens Examples.blk0 300 9 Examples.router0
    Examples.world2 90 99 [1; 2] 7 Examples.route0
  = ([], Fail (Revert "DiamondRouter: EXCESSIVE_INPUT_AMOUNT")).
Proof.
  assert (Hq : DiamondRouter.getAmountsIn Examples.world2 90 [1; 2]
               = Ok [100; 90]) by (vm_compute; reflexivity).
  apply (proj2 (swapTokensForExact_checks_before_transfer Examples.blk0 300 9
                  Examples.router0 Examples.world2 90 99 [1; 2] 7
                  Examples.route0) [100; 90] eq_refl Hq).
  vm_compute. reflexivity.
Defined.

(** ** Through the router: addLiquidity and a single hop *)

(** X22. [addLiquidity] needs shares that cannot exist: in a state where no
    pair has a share outstanding, which is every state the pairs' own
    functions can reach, the call never succeeds, whether it finds the pair
    or creates it. *)
Theorem addLiquidity_needs_shares :
  ∀ blk sender r w tokenA tokenB dA dB minA minB to ext log res,
    (∀ a p, pairs w !! a = Some p →
            ERC20.totalSupply (DiamondPair.shares p) = 0) →
    DiamondRouter.addLiquidity blk sender r w tokenA tokenB dA dB minA minB
      to ext = (log, res) →
    ∃ f, res = Fail f.
Proof.
  intros blk sender r w tokenA tokenB dA dB minA minB to ext log res Hnone H.
  destruct res as [[w' out]|f]; [exfalso | eauto].
  unfold DiamondRouter.addLiquidity, DiamondRouter.nonReentrant in H.
  ok_step H as u Hguard. ok_step H as wp Hensure. destruct wp as [w1 pair].
  assert (Hnone1 : ∀ a p, pairs w1 !! a = Some p →
                          ERC20.totalSupply (DiamondPair.shares p) = 0).
  { destruct (_ =? 0).
    - apply createPair_registers in Hensure
        as (_ & _ & Hat & Hothers & _).
      intros a p Hp. destruct (decide (a = pair)) as [->|Ha].
      + rewrite Hat in Hp. injection Hp as <-. reflexivity.
      + rewrite (Hothers a Ha) in Hp. exact (Hnone a p Hp).
    - injection Hensure as <- _. exact Hnone. }
  ok_step H as amounts Hcalc. destruct amounts as [amountA amountB].
  apply run_bind_ok in H as (l1 & [] & l2 & _ & H & ->).
  apply run_bind_ok in H as (l3 & [] & l4 & _ & H & ->).
  ok_step H as p Hp.
  apply run_bind_ok in H as (l5 & [p' liquidity] & l6 & Hmint & _ & _).
  unfold pairAt in Hp. destruct (pairs w1 !! pair) as [p0|] eqn:Hat;
    [|discriminate Hp].
  injection Hp as ->.
  destruct (mint_first_fails blk (DiamondFactory.view (factoryState w1)) p to
              (DiamondRouter.minting ext) (Hnone1 pair p Hat))
    as (l & f & Hfail).
  rewrite Hfail in Hmint. discriminate Hmint.
Qed.

Lemma addLiquidity_needs_shares_witness :
  ∃ f, snd (DiamondRouter.addLiquidity Examples.blk0 9 Examples.router0
              Examples.world1 1 2 1100 1100 0 0 9 Examples.add0) = Fail f.
Proof.
  apply (addLiquidity_needs_shares Examples.blk0 9 Examples.router0
           Examples.world1 1 2 1100 1100 0 0 9 Examples.add0
           (fst (DiamondRouter.addLiquidity Examples.blk0 9 Examples.router0
                   Examples.world1 1 2 1100 1100 0 0 9 Examples.add0))).
  - intros a p Hp. unfold Examples.world1 in Hp. cbn [pairs] in Hp.
    apply lookup_insert_Some in Hp as [[_ <-]|[_ Hp]]; [reflexivity|].
    rewrite lookup_empty in Hp. discriminate Hp.
  - apply surjective_pairing.
Defined.

(** X23. One hop through the router, end to end. For a path [[A; B]] with
    [A] the pair's token0: when the quote for [amountIn] is positive and at
    least [amountOutMin], the tokens answer their calls, and the pair then
    holds [amountIn] more of A and the quote less of B, the router pulls
    [amountIn] of A from the caller into the pair, the pair sends the quote
    of B to [to], the amounts returned are [[amountIn; quote]], and the pair
    ends as [_update] leaves it on the new balances. *)
Theorem swapExact_single_hop :
  ∀ blk self sender r w A B pair p amountIn amountOutMin out to ext p2,
    DiamondRouter._status r = DiamondPair.NOT_ENTERED →
    A < B → A ≠ 0 →
    DiamondRouter.pairFor w A B = pair → pair ≠ 0 →
    pairs w !! pair = Some p →
    DiamondPair._status p = DiamondPair.NOT_ENTERED →
    DiamondRouter.getAmountOut amountIn
      (DiamondPair.reserve0 p) (DiamondPair.reserve1 p) = Ok out →
    0 < out → amountOutMin ≤ out →
    to ≠ DiamondPair.token0 p → to ≠ DiamondPair.token1 p →
    reply_ok (DiamondRouter.pull ext) = true →
    reply_ok (DiamondPair.transfer1 (DiamondRouter.hops ext 0%nat)) = true →
    DiamondPair.swap_balance0 (DiamondRouter.hops ext 0%nat)
      = Ok (DiamondPair.reserve0 p + amountIn) →
    DiamondPair.swap_balance1 (DiamondRouter.hops ext 0%nat)
      = Ok (DiamondPair.reserve1 p - out) →
    DiamondPair.reserve0 p + amountIn ≤ MAX_UINT112 →
    DiamondPair.reserve1 p ≤ MAX_UINT112 →
    DiamondPair._update blk (DiamondPair.set_status DiamondPair.ENTERED p)
      (DiamondPair.reserve0 p + amountIn) (DiamondPair.reserve1 p - out)
      (DiamondPair.reserve0 p) (DiamondPair.reserve1 p) = Ok p2 →
    DiamondRouter.swapExactTokensForTokens blk self sender r w
      amountIn amountOutMin [A; B] to ext
    = ([CallTransferFrom A sender pair amountIn;
        CallTransfer (DiamondPair.token1 p) to out],
       Ok (set_pair w pair (DiamondPair.set_status DiamondPair.NOT_ENTERED p2),
           [amountIn; out])).
Proof.
  intros blk self sender r w A B pair p amountIn amountOutMin out to ext p2
    Hst Hlt HA Hpair Hnz Hat Hpst Hquote Hout Hmin Hto0 Hto1 Hpull Hreply
    Hb0 Hb1 Hfit0 Hfit1 Hupd.
  assert (Hsort : DiamondRouter.sortTokens A B = Ok (A, B)).
  { unfold DiamondRouter.sortTokens.
    assert (Hne : (A =? B) = false) by (apply N.eqb_neq; lia).
    apply N.ltb_lt in Hlt as Hlt'. apply N.eqb_neq in HA as HA'.
    rewrite Hne, Hlt', HA'. reflexivity. }
  assert (Hpa : pairAt w pair = Ok p) by (unfold pairAt; rewrite Hat; reflexivity).
  apply N.eqb_neq in Hnz as Hnz'.
  assert (Hres : DiamondRouter.getReserves w A B
                 = Ok (DiamondPair.reserve0 p, DiamondPair.reserve1 p)).
  { unfold DiamondRouter.getReserves.
    rewrite Hsort, result_bind_Ok, Hpair, Hnz', Hpa, result_bind_Ok.
    cbn [DiamondPair.getReserves]. rewrite N.eqb_refl. reflexivity. }
  assert (Hamounts : DiamondRouter.getAmountsOut w amountIn [A; B]
                     = Ok [amountIn; out]).
  { unfold DiamondRouter.getAmountsOut. cbn [length N.of_nat N.leb require].
    change (2 <=? N.of_nat 2) with true. cbn [require].
    rewrite result_bind_Ok. cbn [DiamondRouter.amountsOutFrom].
    rewrite Hres, result_bind_Ok, Hquote. reflexivity. }
  pose proof (swap_quote_run blk self p amountIn out to
                (DiamondRouter.hops ext 0%nat) Hpst Hquote Hout Hto0 Hto1
                Hreply Hb0 Hb1 Hfit0 Hfit1) as Hswap.
  rewrite Hupd in Hswap.
  unfold DiamondRouter.swapExactTokensForTokens, DiamondRouter.nonReentrant.
  rewrite Hst. cbn [require]. rewrite run_bind_lift_Ok, Hamounts, run_bind_lift_Ok.
  cbn [List.last]. apply N.leb_le in Hmin. rewrite Hmin. cbn [require].
  rewrite run_bind_lift_Ok.
  unfold DiamondRouter._safeTransferFrom. rewrite Hpull, Hpair. cbn [require].
  apply run_bind_call.
  cbn [DiamondRouter._swap]. rewrite Hsort, run_bind_lift_Ok, run_bind_lift_Ok.
  rewrite N.eqb_refl, Hpair, Hpa, run_bind_lift_Ok, Hswap.
  reflexivity.
Qed.

Lemma swapExact_single_hop_witness :
  DiamondRouter.swapExactTokensForTokens Examples.blk0 300 9
    Examples.router0 Examples.world2 100 90 [1; 2] 7 Examples.route0
  = ([CallTransferFrom 1 9 200 100; CallTransfer 2 7 90],
     Ok (set_pair Examples.world2 200 Examples.pool1, [100; 90])).
Proof.
  assert (Hat : pairs Examples.world2 !! 200 = Some Examples.pool0)
    by (vm_compute; reflexivity).
  assert (Hq : DiamondRouter.getAmountOut 100
                 (DiamondPair.reserve0 Examples.pool0)
                 (DiamondPair.reserve1 Examples.pool0) = Ok 90)
    by (vm_compute; reflexivity).
  assert (H0 : DiamondPair.reserve0 Examples.pool0 + 100 ≤ MAX_UINT112)
    by (vm_compute; discriminate).
  assert (H1 : DiamondPair.reserve1 Examples.pool0 ≤ MAX_UINT112)
    by (vm_compute; discriminate).
  assert (Hupd : DiamondPair._update Examples.blk0
                   (DiamondPair.set_status DiamondPair.ENTERED Examples.pool0)
                   (DiamondPair.reserve0 Examples.pool0 + 100)
                   (DiamondPair.reserve1 Examples.pool0 - 90)
                   (DiamondPair.reserve0 Examples.pool0)
                   (DiamondPair.reserve1 Examples.pool0)
                 = Ok (DiamondPair.set_status DiamondPair.ENTERED Examples.pool1))
    by (vm_compute; reflexivity).
  assert (Hmin : 90 ≤ 90) by reflexivity.
  exact (swapExact_single_hop Examples.blk0 300 9 Examples.router0
           Examples.world2 1 2 200 Examples.pool0 100 90 90 7 Examples.route0
           (DiamondPair.set_status DiamondPair.ENTERED Examples.pool1)
           eq_refl eq_refl ltac:(discriminate) eq_refl ltac:(discriminate)
           Hat eq_refl Hq eq_refl Hmin ltac:(discriminate) ltac:(discriminate)
           eq_refl eq_refl eq_refl eq_refl H0 H1 Hupd).
Defined.

(** ** DiamondPair.burn and DiamondPair.mint with shares *)

Section SharesMore.

Import DiamondPair.


(** The closing assignment of [kLast] in [mint] and [burn] keeps the shares. *)
Lemma kLast_step_ok (feeOn : bool) p l p' :
(if feeOn then
   k ← lift (SafeMath.mul (reserve0 p) (reserve1 p));
   lift (Ok (set_kLast k p))
 else lift (Ok p)) = (l, Ok p') →
l = [] ∧ shares p' = shares p ∧ reserve0 p' = reserve0 p ∧
reserve1 p' = reserve1 p.
Proof.
destruct feeOn; intros H.
- ok_step H as k Hk. apply lift_ok in H as [[= <-] ->].
  destruct p; cbn; auto.
- apply lift_ok in H as [[= <-] ->]. auto.
Qed.


(** Everything a successful [mint] has read, issued and recorded. *)
Lemma mint_ok_inv blk fv p to ext log p' liquidity :
mint blk fv p to ext = (log, Ok (p', liquidity)) →
log = [] ∧ _status p = NOT_ENTERED ∧
∃ balance0 balance1 pf feeOn,
  mint_balance0 ext = Ok balance0 ∧ mint_balance1 ext = Ok balance1 ∧
  reserve0 p ≤ balance0 ∧ reserve1 p ≤ balance1 ∧
  _mintFee fv (set_status ENTERED p) (reserve0 p) (reserve1 p)
    = Ok (pf, feeOn) ∧
  ERC20.totalSupply (shares pf) ≠ 0 ∧
  reserve0 p ≠ 0 ∧ reserve1 p ≠ 0 ∧
  liquidity
    = Math.min ((balance0 - reserve0 p) * ERC20.totalSupply (shares pf)
                / reserve0 p)
               ((balance1 - reserve1 p) * ERC20.totalSupply (shares pf)
                / reserve1 p) ∧
  0 < liquidity ∧ to ≠ 0 ∧
  ERC20.totalSupply (shares p')
    = ERC20.totalSupply (shares pf) + liquidity ∧
  ERC20.balanceOf (shares p') to
    = ERC20.balanceOf (shares pf) to + liquidity ∧
  reserve0 p' = balance0 ∧ reserve1 p' = balance1.
Proof.
intros H. apply nonReentrant_ok in H as (Hst & p1 & H & ->).
cbn [getReserves set_status reserve0 reserve1 shares] in H.
ok_step H as balance0 Hb0. ok_step H as balance1 Hb1.
ok_step H as amount0 Ha0. ok_step H as amount1 Ha1.
ok_step H as fee Hfee. destruct fee as [pf feeOn].
apply run_bind_ok in H as (l1 & [pm liq] & l2 & Hliq & H & ->).
destruct (ERC20.totalSupply (shares pf) =? 0) eqn:Hsupply.
{ ok_step Hliq as product Hp. ok_step Hliq as first Hl.
  ok_step Hliq as e He. rewrite mint_to_zero in He. discriminate He. }
apply N.eqb_neq in Hsupply.
ok_step Hliq as n0 Hn0. ok_step Hliq as l0 Hl0.
ok_step Hliq as n1 Hn1. ok_step Hliq as l1' Hl1.
apply lift_ok in Hliq as [[= <- <-] ->].
ok_step H as u Hpos. ok_step H as e He. ok_step H as p2 Hupd.
apply run_bind_ok in H as (l5 & p3 & l6 & Hk & Hret & ->).
injection Hret as <- <- <-.
apply kLast_step_ok in Hk as (-> & Hsh3 & Hr0 & Hr1).
apply _update_ok_inv in Hupd
  as (_ & _ & _ & Hres0 & Hres1 & _ & Hsh2 & _).
apply _mint_ok_inv in He as (Hto & Hsup & Hbal & _).
apply N.ltb_lt in Hpos.
split; [reflexivity|]. split; [exact Hst|].
exists balance0, balance1, pf, feeOn.
cbn [set_status set_shares shares reserve0 reserve1] in *.
rewrite Hsh3, Hsh2, Hsup, Hbal, Hr0, Hr1, Hres0, Hres1. auto 20.
Qed.

End SharesMore.



(** X25. What a successful [mint] issues. It makes no call that changes
    another contract; it can only succeed when shares exist already and both
    reserves are positive; the shares issued are the smaller of the two
    deposits' proportions of the supply after the protocol fee, so that
    neither deposit is credited above its proportion of the reserve; they
    are positive, go to [to], which is not the zero address, and the
    balances read become the reserves. *)
Theorem mint_adds_pro_rata :
  ∀ blk fv p to ext log p' liquidity,
    DiamondPair.mint blk fv p to ext = (log, Ok (p', liquidity)) →
    log = [] ∧ to ≠ 0 ∧ 0 < liquidity ∧
    ERC20.totalSupply (DiamondPair.shares p) ≠ 0 ∧
    DiamondPair.reserve0 p ≠ 0 ∧ DiamondPair.reserve1 p ≠ 0 ∧
    ∃ supply,
      ERC20.totalSupply (DiamondPair.shares p) ≤ supply ∧
      ERC20.totalSupply (DiamondPair.shares p') = supply + liquidity ∧
      liquidity * DiamondPair.reserve0 p
        ≤ (DiamondPair.reserve0 p' - DiamondPair.reserve0 p) * supply ∧
      liquidity * DiamondPair.reserve1 p
        ≤ (DiamondPair.reserve1 p' - DiamondPair.reserve1 p) * supply ∧
      DiamondPair.mint_balance0 ext = Ok (DiamondPair.reserve0 p') ∧
      DiamondPair.mint_balance1 ext = Ok (DiamondPair.reserve1 p').
Proof.
  intros blk fv p to ext log p' liquidity H.
  assert (Hfirst : ERC20.totalSupply (DiamondPair.shares p) ≠ 0).
  { intros Hs. destruct (mint_first_fails blk fv p to ext Hs) as (l & f & Hf).
    rewrite Hf in H. discriminate H. }
  apply mint_ok_inv in H
    as (-> & _ & b0 & b1 & pf & feeOn & Hb0 & Hb1 & Hle0 & Hle1 & Hfee & Hsup
        & Hr0 & Hr1 & Hliq & Hpos & Hto & Hnew & _ & Hres0 & Hres1).
  repeat (split; [first [reflexivity | assumption]|]).
  exists (ERC20.totalSupply (DiamondPair.shares pf)).
  apply _mintFee_ok_inv in Hfee as Hcases. destruct Hcases as (_ & Hcases).
  split.
  { destruct Hcases
      as [(-> & _)|[(_ & ->)|(liq & e & _ & _ & _ & _ & _ & _ & Hmint & ->)]].
    - reflexivity.
    - destruct p; reflexivity.
    - apply _mint_ok_inv in Hmint as (_ & Hs & _).
      destruct p; cbn in *. rewrite Hs. apply N.le_add_r. }
  split; [exact Hnew|]. rewrite Hres0, Hres1.
  split; [|split; [|split; assumption]].
  - rewrite Hliq. unfold Math.min.
    set (l0 := _ / DiamondPair.reserve0 p). set (l1 := _ / DiamondPair.reserve1 p).
    assert (H0 : l0 * DiamondPair.reserve0 p
                 ≤ (b0 - DiamondPair.reserve0 p)
                   * ERC20.totalSupply (DiamondPair.shares pf))
      by (unfold l0; rewrite N.mul_comm; apply N.Div0.mul_div_le).
    destruct (N.ltb_spec l0 l1) as [Hlt|Hge]; [exact H0|].
    etransitivity; [apply N.mul_le_mono_r; exact Hge | exact H0].
  - rewrite Hliq. unfold Math.min.
    set (l0 := _ / DiamondPair.reserve0 p). set (l1 := _ / DiamondPair.reserve1 p).
    assert (H1 : l1 * DiamondPair.reserve1 p
                 ≤ (b1 - DiamondPair.reserve1 p)
                   * ERC20.totalSupply (DiamondPair.shares pf))
      by (unfold l1; rewrite N.mul_comm; apply N.Div0.mul_div_le).
    destruct (N.ltb_spec l0 l1) as [Hlt|Hge]; [|exact H1].
    etransitivity; [apply N.mul_le_mono_r, N.lt_le_incl; exact Hlt | exact H1].
Qed.

Lemma mint_adds_pro_rata_witness :
  ∃ p', DiamondPair.mint Examples.blk0 Examples.no_fee MoreExamples.pool_grown 9
          MoreExamples.deposit1 = ([], Ok (p', 100)) ∧
        ERC20.totalSupply (DiamondPair.shares MoreExamples.pool_grown) ≠ 0.
Proof.
  eexists. split; [vm_compute; reflexivity|].
  evar (q : DiamondPair.t).
  assert (Hrun : DiamondPair.mint Examples.blk0 Examples.no_fee
                   MoreExamples.pool_grown 9 MoreExamples.deposit1
                 = ([], Ok (q, 100)))
    by (subst q; vm_compute; reflexivity).
  apply (mint_adds_pro_rata _ _ _ _ _ _ _ _ Hrun).
Defined.

(** ** DiamondRouter.sortTokens and _calculateLiquidityAmounts *)

(** X26. [sortTokens] does not depend on the order of its arguments: when
    it succeeds the two tokens are returned in strictly increasing order,
    the first is not the zero address, they are the two arguments, and the
    arguments exchanged give the same answer. It is the order the factory
    registers a pair under. *)
Theorem sortTokens_order :
  ∀ tokenA tokenB token0 token1,
    DiamondRouter.sortTokens tokenA tokenB = Ok (token0, token1) →
    token0 < token1 ∧ token0 ≠ 0 ∧
    ((token0, token1) = (tokenA, tokenB) ∨ (token0, token1) = (tokenB, tokenA)) ∧
    (token0, token1) = sorted tokenA tokenB ∧
    DiamondRouter.sortTokens tokenB tokenA = Ok (token0, token1).
Proof.
  intros tokenA tokenB token0 token1 H.
  pose proof (sortTokens_flip _ _ _ _ H) as (Hflip & Hne & _).
  unfold DiamondRouter.sortTokens in H. fold (sorted tokenA tokenB) in H.
  ok_step H as u Hd.
  destruct (sorted_cases tokenA tokenB Hne) as [[Hs Hlt]|[Hs Hlt]];
    rewrite Hs in H |- *; ok_step H as u' Hz; injection H as <- <-;
    apply negb_true_iff, N.eqb_neq in Hz; auto 10.
Qed.

Lemma sortTokens_order_witness :
  DiamondRouter.sortTokens 1 2 = Ok (1, 2).
Proof.
  assert (H : DiamondRouter.sortTokens 2 1 = Ok (1, 2)) by reflexivity.
  apply (sortTokens_order 2 1 1 2 H).
Defined.

(** X27. [_calculateLiquidityAmounts] never asks for more than was offered:
    when it succeeds, neither amount exceeds the desired one and at least
    one of them is the desired one. *)
Theorem liquidity_amounts_within_desired :
  ∀ w tokenA tokenB dA dB minA minB amountA amountB,
    DiamondRouter._calculateLiquidityAmounts w tokenA tokenB dA dB minA minB
      = Ok (amountA, amountB) →
    amountA ≤ dA ∧ amountB ≤ dB ∧ (amountA = dA ∨ amountB = dB).
Proof.
  intros w tokenA tokenB dA dB minA minB amountA amountB H.
  unfold DiamondRouter._calculateLiquidityAmounts in H.
  destruct (_ =? 0); [injection H as <- <-; auto using N.le_refl|].
  ok_step H as rs Hres. destruct rs as [rA rB].
  destruct ((rA =? 0) && (rB =? 0));
    [injection H as <- <-; auto using N.le_refl|].
  ok_step H as qB HqB.
  destruct (N.leb_spec qB dB) as [Hle|Hgt].
  - ok_step H as u Hmin. injection H as <- <-. auto using N.le_refl.
  - ok_step H as qA HqA. ok_step H as u Hassert. ok_step H as u' Hmin.
    injection H as <- <-.
    split; [exact (quote_back _ _ _ _ _ _ HqB Hgt HqA)|].
    auto using N.le_refl.
Qed.

Lemma liquidity_amounts_within_desired_witness :
  DiamondRouter._calculateLiquidityAmounts Examples.world2 1 2 100 50 0 0
    = Ok (50, 50) ∧ 50 ≤ 100.
Proof.
  assert (H : DiamondRouter._calculateLiquidityAmounts Examples.world2 1 2
                100 50 0 0 = Ok (50, 50)) by (vm_compute; reflexivity).
  split; [exact H|].
  exact (proj1 (liquidity_amounts_within_desired _ _ _ _ _ _ _ _ _ H)).
Defined.
